(** * NetworkGraph: graph construction, ordering and in-place pass

    A shallow embedding of [nntrainer/graph/network_graph.cpp].  The
    C++ class mutates layer objects through [std::shared_ptr]; the same
    layer is reachable from the caller's [layers] vector and from the
    graph nodes.  The embedding therefore keeps the layer objects in an
    explicit store and lets both the vector and the nodes hold handles
    into it.  Status codes, exceptions and out-of-range accesses are
    distinct results, and the state reached when a call fails is kept,
    as it is in C++. *)

From Stdlib Require Import String Ascii.
From stdpp Require Import base list strings gmap pretty.


(** ** Status codes and exceptions *)

(** The [ML_ERROR_*] codes returned by the [int] functions. *)
Inductive status :=
  | ML_ERROR_NONE
  | ML_ERROR_INVALID_PARAMETER
  | ML_ERROR_NOT_SUPPORTED.

Global Instance status_eq_dec : EqDecision status.
Proof. solve_decision. Defined.

(** The C++ exceptions thrown in the file, with their message. *)
Inductive exn :=
  | invalid_argument (msg : string)
  | runtime_error (msg : string).

(** Result of running a piece of the code: a value, a thrown
    exception, an access the C++ standard leaves undefined (indexing a
    vector out of range, [back()] / [begin()] of an empty container), or
    a traversal cut off by its recursion budget. *)
Inductive result (A : Type) :=
  | Ret (a : A)
  | Throw (e : exn)
  | Undefined
  | OutOfFuel.
Arguments Ret {A} a.
Arguments Throw {A} e.
Arguments Undefined {A}.
Arguments OutOfFuel {A}.

Definition rbind {A B} (r : result A) (k : A -> result B) : result B :=
  match r with
  | Ret a => k a
  | Throw e => Throw e
  | Undefined => Undefined
  | OutOfFuel => OutOfFuel
  end.

(** ** Layers *)

(** Modelled from the spec: the activation kinds are an enumeration
    declared with the layers.  network_graph.cpp names [ACT_NONE],
    [ACT_UNKNOWN], [ACT_SIGMOID] and [ACT_SOFTMAX]; [ACT_TANH] and
    [ACT_RELU] are the other kinds an activation node can have. *)
Inductive ActivationType :=
  | ACT_TANH | ACT_SIGMOID | ACT_RELU | ACT_SOFTMAX | ACT_NONE | ACT_UNKNOWN.

Global Instance ActivationType_eq_dec : EqDecision ActivationType.
Proof. solve_decision. Defined.

(** Modelled from the spec: the loss kinds are an enumeration declared
    with the loss layer.  network_graph.cpp names [LOSS_NONE],
    [LOSS_ENTROPY] and the two fused kinds; [LOSS_MSE] stands for a
    loss that needs no activation, [LOSS_UNKNOWN] for a loss layer
    whose kind is not set yet. *)
Inductive LossType :=
  | LOSS_MSE | LOSS_ENTROPY | LOSS_ENTROPY_SIGMOID | LOSS_ENTROPY_SOFTMAX
  | LOSS_NONE | LOSS_UNKNOWN.

Global Instance LossType_eq_dec : EqDecision LossType.
Proof. solve_decision. Defined.

(** Modelled from the spec: class [Layer] is declared in
    layer_internal.h.  The record holds what the graph code reads and
    writes of it: the name and type tag, the ordered input and output
    names with their counts, the dimensions (a [TensorDim] is kept as its
    [getDataLen()]), the activation kind, the flatten and trainable
    flags, and the loss kind of a loss layer. *)
Record Layer := mkLayer {
  name : string;
  type : string;
  input_layers : list string;
  output_layers : list string;
  num_inputs : nat;
  num_outputs : nat;
  input_dim : list nat;
  output_dim : list nat;
  activation_type : ActivationType;
  flatten : bool;
  trainable : bool;
  loss_type : LossType
}.

Definition setName (s : string) (l : Layer) : Layer :=
  mkLayer s (type l) (input_layers l) (output_layers l) (num_inputs l)
    (num_outputs l) (input_dim l) (output_dim l) (activation_type l)
    (flatten l) (trainable l) (loss_type l).

Definition set_input_layers (v : list string) (l : Layer) : Layer :=
  mkLayer (name l) (type l) v (output_layers l) (num_inputs l)
    (num_outputs l) (input_dim l) (output_dim l) (activation_type l)
    (flatten l) (trainable l) (loss_type l).

Definition set_output_layers (v : list string) (l : Layer) : Layer :=
  mkLayer (name l) (type l) (input_layers l) v (num_inputs l)
    (num_outputs l) (input_dim l) (output_dim l) (activation_type l)
    (flatten l) (trainable l) (loss_type l).

Definition set_num_inputs (n : nat) (l : Layer) : Layer :=
  mkLayer (name l) (type l) (input_layers l) (output_layers l) n
    (num_outputs l) (input_dim l) (output_dim l) (activation_type l)
    (flatten l) (trainable l) (loss_type l).

Definition set_num_outputs (n : nat) (l : Layer) : Layer :=
  mkLayer (name l) (type l) (input_layers l) (output_layers l) (num_inputs l)
    n (input_dim l) (output_dim l) (activation_type l)
    (flatten l) (trainable l) (loss_type l).

Definition set_input_dim (v : list nat) (l : Layer) : Layer :=
  mkLayer (name l) (type l) (input_layers l) (output_layers l) (num_inputs l)
    (num_outputs l) v (output_dim l) (activation_type l)
    (flatten l) (trainable l) (loss_type l).

Definition set_output_dim (v : list nat) (l : Layer) : Layer :=
  mkLayer (name l) (type l) (input_layers l) (output_layers l) (num_inputs l)
    (num_outputs l) (input_dim l) v (activation_type l)
    (flatten l) (trainable l) (loss_type l).

Definition setActivation (a : ActivationType) (l : Layer) : Layer :=
  mkLayer (name l) (type l) (input_layers l) (output_layers l) (num_inputs l)
    (num_outputs l) (input_dim l) (output_dim l) a
    (flatten l) (trainable l) (loss_type l).

(** Modelled from the spec: [LossLayer::setLoss] is defined with the
    loss layer, not in network_graph.cpp; the terminal attachment
    records the loss kind in the loss node and reports success. *)
Definition setLoss (t : LossType) (l : Layer) : status * Layer :=
  (ML_ERROR_NONE,
   mkLayer (name l) (type l) (input_layers l) (output_layers l) (num_inputs l)
     (num_outputs l) (input_dim l) (output_dim l) (activation_type l)
     (flatten l) (trainable l) t).

(** [std::vector::resize]: truncate, or pad with value-initialised
    elements. *)
Definition resize {A} (n : nat) (d : A) (v : list A) : list A :=
  take n v ++ replicate (n - length v) d.

(** Modelled from the spec: the operator kinds are told apart by type
    tag strings.  The tags are static members of the layer classes,
    declared in the layer headers; [ActivationLayer::type] is the literal
    that [realizeActivationType] passes to [createLayer] and
    [addLossLayer] compares with, [Conv2DLayer::type] is defined in
    conv2d_layer.cpp. *)
Module LayerType.
Definition activation := "activation".
Definition addition := "addition".
Definition batch_normalization := "batch_normalization".
Definition concat := "concat".
Definition flatten := "flatten".
Definition input := "input".
Definition loss := "loss".
Definition output := "output".
Definition conv2d := "conv2d".
End LayerType.

(** Modelled from the spec: [createLayer] is declared in
    layer_factory.h and builds a default-constructed layer.  A fresh
    operator has the requested type tag, no name, no peers, one input
    slot and one output slot, no activation, no trailing flatten, and is
    trainable. *)
Definition createLayer (ty : string) : Layer :=
  mkLayer "" ty [] [] 1 1 [0] [0] ACT_NONE false true LOSS_UNKNOWN.

(** Modelled from the spec: [istrequal] is declared in parse_util.h;
    name lookups are case-insensitive, so it compares two strings
    without regard to letter case. *)
Definition tolower (c : ascii) : ascii :=
  let n := nat_of_ascii c in
  if (65 <=? n) && (n <=? 90) then ascii_of_nat (n + 32) else c.

Fixpoint istrequal (a b : string) : bool :=
  match a, b with
  | EmptyString, EmptyString => true
  | String x a', String y b' =>
      if Ascii.eqb (tolower x) (tolower y) then istrequal a' b' else false
  | _, _ => false
  end.

(** ** The graph *)

(** A handle designates a layer object in the store, as a
    [std::shared_ptr<Layer>] does. *)
Definition handle := nat.

Record LayerNode := mkNode {
  layer : handle;
  index : nat
}.

Global Instance LayerNode_eq_dec : EqDecision LayerNode.
Proof. solve_decision. Defined.

(** One in-place decision taken by [inPlaceOptimize]: the node, its
    predecessor, the predecessor's output slot [loc], and which of the
    two sharing rules was applied. *)
Inductive AliasKind := AliasBatchNorm | AliasActivation.

Global Instance AliasKind_eq_dec : EqDecision AliasKind.
Proof. solve_decision. Defined.

Record Alias := mkAlias {
  alias_node : handle;
  alias_prev : handle;
  alias_loc : nat;
  alias_kind : AliasKind
}.

Global Instance Alias_eq_dec : EqDecision Alias.
Proof. solve_decision. Defined.

(** The members of [NetworkGraph] used by the file, together with the
    two pieces of the environment its methods act upon: the store of
    layer objects, and the record of what the in-place pass did to the
    tensors and told the [Manager] ([untracked]). *)
Record NetworkGraph := mkGraph {
  store : list Layer;
  adj : list (list LayerNode);
  num_node : nat;
  Sorted : list LayerNode;
  layer_names : gset string;
  def_name_count : nat;
  skip_non_trainable_layers : nat;
  aliases : list Alias;
  untracked : list string
}.

Definition set_store (v : list Layer) (g : NetworkGraph) : NetworkGraph :=
  mkGraph v (adj g) (num_node g) (Sorted g) (layer_names g)
    (def_name_count g) (skip_non_trainable_layers g) (aliases g) (untracked g).

Definition set_adj (v : list (list LayerNode)) (g : NetworkGraph) : NetworkGraph :=
  mkGraph (store g) v (num_node g) (Sorted g) (layer_names g)
    (def_name_count g) (skip_non_trainable_layers g) (aliases g) (untracked g).

Definition set_num_node (v : nat) (g : NetworkGraph) : NetworkGraph :=
  mkGraph (store g) (adj g) v (Sorted g) (layer_names g)
    (def_name_count g) (skip_non_trainable_layers g) (aliases g) (untracked g).

Definition set_Sorted (v : list LayerNode) (g : NetworkGraph) : NetworkGraph :=
  mkGraph (store g) (adj g) (num_node g) v (layer_names g)
    (def_name_count g) (skip_non_trainable_layers g) (aliases g) (untracked g).

Definition set_def_name_count (v : nat) (g : NetworkGraph) : NetworkGraph :=
  mkGraph (store g) (adj g) (num_node g) (Sorted g) (layer_names g)
    v (skip_non_trainable_layers g) (aliases g) (untracked g).

Definition set_skip (v : nat) (g : NetworkGraph) : NetworkGraph :=
  mkGraph (store g) (adj g) (num_node g) (Sorted g) (layer_names g)
    (def_name_count g) v (aliases g) (untracked g).

Definition add_alias (a : Alias) (u : string) (g : NetworkGraph) : NetworkGraph :=
  mkGraph (store g) (adj g) (num_node g) (Sorted g) (layer_names g)
    (def_name_count g) (skip_non_trainable_layers g)
    (aliases g ++ [a]) (untracked g ++ [u]).

(** ** Stateful computations *)

Definition M (A : Type) : Type := NetworkGraph -> result A * NetworkGraph.

Definition ret {A} (a : A) : M A := fun g => (Ret a, g).

Definition bind {A B} (m : M A) (k : A -> M B) : M B :=
  fun g =>
    match m g with
    | (Ret a, g') => k a g'
    | (Throw e, g') => (Throw e, g')
    | (Undefined, g') => (Undefined, g')
    | (OutOfFuel, g') => (OutOfFuel, g')
    end.

Definition throw {A} (e : exn) : M A := fun g => (Throw e, g).
Definition undefined {A} : M A := fun g => (Undefined, g).
Definition get : M NetworkGraph := fun g => (Ret g, g).
Definition modify (f : NetworkGraph -> NetworkGraph) : M unit :=
  fun g => (Ret tt, f g).
Definition lift {A} (r : result A) : M A := fun g => (r, g).

Declare Scope graph_scope.
Delimit Scope graph_scope with graph.
Notation "x <- m ;; k" := (bind m (fun x => k))
  (at level 100, m at next level, right associativity) : graph_scope.
Notation "m ;; k" := (bind m (fun _ => k))
  (at level 100, right associativity) : graph_scope.
Open Scope graph_scope.

(** Modelled from the spec: the macro [NN_RETURN_STATUS()] comes from
    a header; every construction-phase error ends the build, so the
    macro leaves the function with [status] unless it is
    [ML_ERROR_NONE]. *)
Definition NN_RETURN_STATUS (st : status) (k : M status) : M status :=
  if decide (st = ML_ERROR_NONE) then k else ret st.

(** Dereference a layer handle. *)
Definition deref (h : handle) : M Layer :=
  fun g => match store g !! h with
           | Some l => (Ret l, g)
           | None => (Undefined, g)
           end.

(** Write through a layer handle. *)
Definition update (h : handle) (f : Layer -> Layer) : M unit :=
  fun g => match store g !! h with
           | Some l => (Ret tt, set_store (<[h := f l]> (store g)) g)
           | None => (Undefined, g)
           end.

(** [std::make_shared] / [createLayer]: a new layer object. *)
Definition alloc (l : Layer) : M handle :=
  fun g => (Ret (length (store g)), set_store (store g ++ [l]) g).

Fixpoint forM_ {A} (l : list A) (body : A -> M unit) : M unit :=
  match l with
  | [] => ret tt
  | x :: r => body x ;; forM_ r body
  end.

Fixpoint rfold {A S} (f : S -> A -> result S) (l : list A) (s : S) : result S :=
  match l with
  | [] => Ret s
  | x :: r => rbind (f s x) (rfold f r)
  end.

(** ** updateNameInLayers *)

(** The inner loop: overwrite the first entry equal to [cname]. *)
Fixpoint replace_first (cname name : string) (ins : list string)
  : option (list string) :=
  match ins with
  | [] => None
  | x :: r =>
      if istrequal x cname then Some (name :: r)
      else cons x <$> replace_first cname name r
  end.

Fixpoint updateNameInLayers (layers : list handle) (cname name : string)
  : M unit :=
  match layers with
  | [] => ret tt
  | h :: rest =>
      l <- deref h ;;
      match replace_first cname name (input_layers l) with
      | Some ins => update h (set_input_layers ins)
      | None => updateNameInLayers rest cname name
      end
  end.

(** ** addEdge *)

(** [num_node] is unsigned: with [num_node = 0] the bound
    [num_node - 1] wraps to [UINT_MAX] and the guard cannot fire. *)
Definition addEdge (ith : nat) (node : LayerNode) : M unit :=
  g <- get ;;
  if negb (num_node g =? 0) && (num_node g - 1 <? ith) then
    throw (invalid_argument "Exceed total number of layer")
  else
    match adj g !! ith with
    | Some row => modify (set_adj (<[ith := row ++ [node]]> (adj g)))
    | None => undefined
    end.

(** ** ensureName *)

(** The [do ... while] loop: try [direct_name + to_string(count++)]
    until the candidate is not found in [layer_names]. *)
Fixpoint ensureName_loop (fuel : nat) (names : gset string)
    (direct_name : string) (count : nat) : option (string * nat) :=
  match fuel with
  | 0 => None
  | S fuel' =>
      let name := direct_name +:+ pretty count in
      if decide (name ∈ names)
      then ensureName_loop fuel' names direct_name (S count)
      else Some (name, S count)
  end.

Definition ensureName (layer : handle) (prefix : string) (force_rename : bool)
  : M unit :=
  l <- deref layer ;;
  g <- get ;;
  let orig_name := name l in
  let orig_name_empty := bool_decide (orig_name = "") in
  if negb orig_name_empty && negb force_rename
     && bool_decide (orig_name ∉ layer_names g)
  then ret tt
  else if negb orig_name_empty
          && bool_decide ((prefix +:+ orig_name) ∉ layer_names g)
  then update layer (setName (prefix +:+ orig_name))
  else
    let orig_name := if orig_name_empty then type l else orig_name in
    let direct_name := prefix +:+ orig_name in
    match ensureName_loop (S (size (layer_names g))) (layer_names g)
            direct_name (def_name_count g) with
    | Some (name, count) =>
        modify (set_def_name_count count) ;;
        update layer (setName name)
    | None => lift OutOfFuel
    end.

(** ** addLayerNode *)

(** [ensureName(layer)] uses the default arguments of the declaration,
    an empty prefix and no forced renaming. *)

Definition addLayerNode (layer : handle) : M unit :=
  ensureName layer "" false ;;
  g <- get ;;
  let node := mkNode layer (num_node g) in
  modify (set_adj (adj g ++ [[node]])) ;;
  modify (set_num_node (S (num_node g))).

(** ** getLayerNode *)

Fixpoint getLayerNode_loop (rows : list (list LayerNode)) (ith : nat)
    (range : list nat) : result LayerNode :=
  match range with
  | [] => Throw (invalid_argument "Cannot find Layer")
  | i :: range' =>
      match rows !! i with
      | Some (n :: _) =>
          if index n =? ith then Ret n else getLayerNode_loop rows ith range'
      | _ => Undefined
      end
  end.

Definition getLayerNode (g : NetworkGraph) (ith : nat) : result LayerNode :=
  getLayerNode_loop (adj g) ith (seq 0 (num_node g)).

(** [getLayerNode(num_node - 1)].  With no node the unsigned argument
    wraps to [UINT_MAX]; the search is bounded by [num_node] and finds
    nothing. *)
Definition getLayerNode_last (g : NetworkGraph) : result LayerNode :=
  match num_node g with
  | 0 => Throw (invalid_argument "Cannot find Layer")
  | S k => getLayerNode g k
  end.

(** The overload that searches by name. *)
Fixpoint getLayerNode_name_loop (st : list Layer) (rows : list (list LayerNode))
    (layer_name : string) : result LayerNode :=
  match rows with
  | [] => Throw (invalid_argument "Cannot find Layer")
  | [] :: _ => Undefined
  | (n :: _) :: rest =>
      match st !! layer n with
      | Some l =>
          if istrequal (name l) layer_name then Ret n
          else getLayerNode_name_loop st rest layer_name
      | None => Undefined
      end
  end.

Definition getLayerNode_name (g : NetworkGraph) (layer_name : string)
  : result LayerNode :=
  getLayerNode_name_loop (store g) (adj g) layer_name.

(** ** countNonTrainableLayersAtBegin *)

Fixpoint first_trainable (st : list Layer) (sorted : list LayerNode) (pos : nat)
  : result (option nat) :=
  match sorted with
  | [] => Ret None
  | n :: rest =>
      match st !! layer n with
      | Some l =>
          if trainable l then Ret (Some pos)
          else first_trainable st rest (S pos)
      | None => Undefined
      end
  end.

Definition countNonTrainableLayersAtBegin : M unit :=
  g <- get ;;
  r <- lift (first_trainable (store g) (Sorted g) 0) ;;
  match r with
  | Some pos => modify (set_skip pos)
  | None => ret tt
  end.

(** ** topologicalSort *)

(** [visited] and [Stack] are passed by reference; the pair is threaded
    through.  The head of the list is the top of the stack.  [fuel]
    bounds the depth of the recursion. *)
Fixpoint topologicalSortUtil (fuel : nat) (g : NetworkGraph) (ith : nat)
    (vs : list bool * list LayerNode) : result (list bool * list LayerNode) :=
  match fuel with
  | 0 => OutOfFuel
  | S fuel' =>
      if decide (ith < length vs.1) then
        match adj g !! ith with
        | Some row =>
            rbind
              (rfold
                 (fun vs' n =>
                    match vs'.1 !! index n with
                    | Some false => topologicalSortUtil fuel' g (index n) vs'
                    | Some true => Ret vs'
                    | None => Undefined
                    end)
                 row (<[ith := true]> vs.1, vs.2))
              (fun vs' =>
                 rbind (getLayerNode g ith)
                   (fun node => Ret (vs'.1, node :: vs'.2)))
        | None => Undefined
        end
      else Undefined
  end.

Definition topologicalSort_roots (fuel : nat) (g : NetworkGraph)
  : result (list bool * list LayerNode) :=
  rfold
    (fun vs i =>
       match vs.1 !! i with
       | Some false => topologicalSortUtil fuel g i vs
       | Some true => Ret vs
       | None => Undefined
       end)
    (seq 0 (num_node g)) (replicate (num_node g) false, []).

Definition topologicalSort (fuel : nat) : M unit :=
  g <- get ;;
  vs <- lift (topologicalSort_roots fuel g) ;;
  modify (set_Sorted (Sorted g ++ vs.2)) ;;
  countNonTrainableLayersAtBegin.

(** ** realizeMultiInputType *)

Definition realizeMultiInputType (current : handle) : M status :=
  cur <- deref current ;;
  if num_inputs cur =? 1 then ret ML_ERROR_NONE
  else
    layer <- alloc (createLayer LayerType.addition) ;;
    ensureName layer (name cur) false ;;
    update layer (set_num_inputs (num_inputs cur)) ;;
    update layer (fun l => set_input_dim (resize (num_inputs l) 0 (input_dim l)) l) ;;
    update layer (set_input_layers []) ;;
    update layer (fun l => set_input_layers (input_layers l ++ input_layers cur) l) ;;
    update current (set_num_inputs 1) ;;
    update current (set_input_layers []) ;;
    new <- deref layer ;;
    update current (fun c => set_input_layers (input_layers c ++ [name new]) c) ;;
    addLayerNode layer ;;
    ret ML_ERROR_NONE.

(** ** realizeFlattenType *)

Definition realizeFlattenType (current : handle) (layers : list handle)
  : M status :=
  g <- get ;;
  if num_node g =? 0 then ret ML_ERROR_INVALID_PARAMETER
  else
    cur <- deref current ;;
    if bool_decide (type cur = LayerType.flatten)
    then ret ML_ERROR_INVALID_PARAMETER
    else
      layer <- alloc (createLayer LayerType.flatten) ;;
      ensureName layer (name cur) false ;;
      update layer (set_num_inputs 1) ;;
      update layer (set_input_layers []) ;;
      update layer (fun l => set_input_layers (input_layers l ++ [name cur]) l) ;;
      addLayerNode layer ;;
      ret ML_ERROR_NONE.

(** ** realizeActivationType *)

(** [for (i = 0; i < n; ++i) dst.push_back(src[i])]; reading past the
    end of [src] is undefined. *)
Definition copy_prefix {A} (n : nat) (src : list A) : result (list A) :=
  if decide (n <= length src) then Ret (take n src) else Undefined.

Definition realizeActivationType (current : handle) (layers : list handle)
  : M status :=
  cur <- deref current ;;
  let act := activation_type cur in
  if bool_decide (act = ACT_NONE) then ret ML_ERROR_NONE
  else
    g <- get ;;
    if num_node g =? 0 then ret ML_ERROR_INVALID_PARAMETER
    else if bool_decide (type cur = LayerType.activation)
    then ret ML_ERROR_INVALID_PARAMETER
    else if bool_decide (act = ACT_UNKNOWN)
    then ret ML_ERROR_INVALID_PARAMETER
    else
      layer <- alloc (createLayer "activation") ;;
      ensureName layer (name cur) false ;;
      update layer (setActivation act) ;;
      update layer (set_num_inputs 1) ;;
      update layer (set_input_layers []) ;;
      update layer (fun l => set_input_layers (input_layers l ++ [name cur]) l) ;;
      if negb (num_outputs cur =? 1) then ret ML_ERROR_INVALID_PARAMETER
      else
        update layer (set_num_outputs (num_outputs cur)) ;;
        update layer
          (fun l => set_output_dim (resize (num_outputs l) 0 (output_dim l)) l) ;;
        update layer (set_output_layers []) ;;
        outs <- lift (copy_prefix (num_outputs cur) (output_layers cur)) ;;
        update layer (fun l => set_output_layers (output_layers l ++ outs) l) ;;
        update current (set_num_outputs 1) ;;
        update current (set_output_layers []) ;;
        new <- deref layer ;;
        update current
          (fun c => set_output_layers (output_layers c ++ [name new]) c) ;;
        addLayerNode layer ;;
        cur' <- deref current ;;
        new' <- deref layer ;;
        updateNameInLayers layers (name cur') (name new') ;;
        ret ML_ERROR_NONE.

(** ** addLossLayer *)

(** [adj.pop_back(); num_node--;] *)
Definition pop_node : M unit :=
  g <- get ;;
  match adj g with
  | [] => undefined
  | _ => modify (set_adj (take (length (adj g) - 1) (adj g))) ;;
         modify (fun g => set_num_node (num_node g - 1) g)
  end.

(** The [LOSS_ENTROPY] block: either the function returns with a status
    ([inl]) or execution goes on with the updated loss kind ([inr]). *)
Definition addLossLayer_entropy : M (status + LossType) :=
  g <- get ;;
  last <- lift (getLayerNode_last g) ;;
  l <- deref (layer last) ;;
  if negb (bool_decide (type l = "activation"))
  then ret (inl ML_ERROR_NOT_SUPPORTED)
  else
    act_layer_node <- lift (getLayerNode_last g) ;;
    pop_node ;;
    act <- deref (layer act_layer_node) ;;
    match activation_type act with
    | ACT_SIGMOID => ret (inr LOSS_ENTROPY_SIGMOID)
    | ACT_SOFTMAX => ret (inr LOSS_ENTROPY_SOFTMAX)
    | _ => ret (inl ML_ERROR_NOT_SUPPORTED)
    end.

Definition addLossLayer_attach (updated_loss_type : LossType) : M status :=
  g <- get ;;
  prev <- lift (getLayerNode_last g) ;;
  prev_layer <- deref (layer prev) ;;
  let input_str := name prev_layer in
  loss_layer <- alloc (createLayer LayerType.loss) ;;
  ensureName loss_layer "" false ;;
  g <- get ;;
  last_node <- lift (getLayerNode_last g) ;;
  new <- deref loss_layer ;;
  update (layer last_node) (set_num_outputs 1) ;;
  update (layer last_node) (set_output_layers []) ;;
  update (layer last_node)
    (fun l => set_output_layers (output_layers l ++ [name new]) l) ;;
  update loss_layer (set_num_inputs 1) ;;
  update loss_layer (set_input_layers []) ;;
  update loss_layer (fun l => set_input_layers (input_layers l ++ [input_str]) l) ;;
  new <- deref loss_layer ;;
  (if length (output_layers new) =? 0 then
     update loss_layer (set_num_outputs 1) ;;
     update loss_layer (fun l => set_output_dim (resize 1 0 (output_dim l)) l) ;;
     update loss_layer (fun l => set_output_layers (output_layers l ++ ["__exit__"]) l)
   else ret tt) ;;
  new <- deref loss_layer ;;
  let '(st, new') := setLoss updated_loss_type new in
  update loss_layer (fun _ => new') ;;
  NN_RETURN_STATUS st
    (addLayerNode loss_layer ;;
     ret ML_ERROR_NONE).

Definition addLossLayer (loss_type : LossType) : M status :=
  g <- get ;;
  if num_node g =? 0 then ret ML_ERROR_INVALID_PARAMETER
  else if bool_decide (loss_type = LOSS_ENTROPY) then
    r <- addLossLayer_entropy ;;
    match r with
    | inl st => ret st
    | inr updated_loss_type => addLossLayer_attach updated_loss_type
    end
  else addLossLayer_attach loss_type.

(** ** setOutputLayers *)

(** The loop over [j] for one pair [(idx, i)].  The innermost loop over
    [k] only skips its own iterations, so every matching input appends
    the consumer's name. *)
Definition collect_consumer (idx_name i_name : string) (ins : list string)
    (outs : list string) : list string :=
  foldl (fun outs inp => if istrequal inp idx_name then outs ++ [i_name] else outs)
        outs ins.

Definition setOutputLayers_pair (idx i : handle) : M unit :=
  li <- deref i ;;
  lidx <- deref idx ;;
  if istrequal (name li) (name lidx) then ret tt
  else
    update idx
      (fun l => set_output_layers
                  (collect_consumer (name lidx) (name li) (input_layers li)
                     (output_layers l)) l).

Definition setOutputLayers_sync (idx : handle) : M unit :=
  l <- deref idx ;;
  if negb (num_outputs l =? length (output_layers l)) then
    update idx (set_num_outputs (length (output_layers l))) ;;
    update idx
      (fun l => set_output_dim (resize (length (output_layers l)) 0 (output_dim l)) l)
  else ret tt.

Definition setOutputLayers (layers : list handle) : M unit :=
  forM_ layers
    (fun idx =>
       forM_ layers (fun i => setOutputLayers_pair idx i) ;;
       setOutputLayers_sync idx) ;;
  match last layers with
  | None => undefined
  | Some back =>
      l <- deref back ;;
      (if num_outputs l =? 0 then
         update back (set_num_outputs 1) ;;
         update back (fun l => set_output_dim (resize 1 0 (output_dim l)) l) ;;
         update back
           (fun l => set_output_layers (output_layers l ++ ["__exit__"]) l)
       else ret tt) ;;
      forM_ layers
        (fun idx =>
           l <- deref idx ;;
           if length (output_layers l) =? 0
           then throw (invalid_argument "There is un-connected node")
           else ret tt)
  end.

(** ** realizeMultiOutputType *)

Definition realizeMultiOutputType (current : handle) (layers : list handle)
  : M status :=
  cur <- deref current ;;
  if num_outputs cur =? 1 then ret ML_ERROR_NONE
  else
    layer <- alloc (createLayer LayerType.output) ;;
    ensureName layer (name cur) false ;;
    update layer (set_num_inputs 1) ;;
    update layer (set_input_layers []) ;;
    update layer (fun l => set_input_layers (input_layers l ++ [name cur]) l) ;;
    update layer (set_num_outputs (num_outputs cur)) ;;
    update layer (set_output_layers []) ;;
    forM_ (output_layers cur)
      (fun out =>
         update layer (fun l => set_output_layers (output_layers l ++ [out]) l) ;;
         c <- deref current ;;
         new <- deref layer ;;
         updateNameInLayers layers (name c) (name new)) ;;
    update current (set_num_outputs 1) ;;
    update current (set_output_layers []) ;;
    new <- deref layer ;;
    update current (fun c => set_output_layers (output_layers c ++ [name new]) c) ;;
    addLayerNode layer ;;
    ret ML_ERROR_NONE.

(** ** setGraphNode *)

(** Lines 418-427: a layer without declared input reads the model
    input. *)
Definition setGraphNode_source (l : handle) : M unit :=
  cur <- deref l ;;
  if length (input_layers cur) <? 1 then
    (if existsb (fun d => d =? 0) (input_dim cur)
     then throw (invalid_argument "Input Dimension must be set")
     else ret tt) ;;
    update l (set_num_inputs 1) ;;
    update l (set_input_layers []) ;;
    update l (fun c => set_input_layers (input_layers c ++ ["__data__"]) c)
  else ret tt.

(** Lines 429-433. *)
Definition setGraphNode_multi_input (l : handle) : M status :=
  cur <- deref l ;;
  if negb (bool_decide (type cur = LayerType.addition))
     && negb (bool_decide (type cur = LayerType.concat))
  then realizeMultiInputType l
  else ret ML_ERROR_NONE.

(** One iteration of the loop over [layers]. *)
Definition setGraphNode_layer (layers : list handle) (l : handle) : M status :=
  setGraphNode_source l ;;
  st <- setGraphNode_multi_input l ;;
  NN_RETURN_STATUS st
    (addLayerNode l ;;
     cur <- deref l ;;
     st <- (if negb (bool_decide (type cur = LayerType.activation))
            then realizeActivationType l layers else ret ML_ERROR_NONE) ;;
     NN_RETURN_STATUS st
       (cur <- deref l ;;
        st <- (if negb (bool_decide (type cur = LayerType.output))
               then realizeMultiOutputType l layers else ret ML_ERROR_NONE) ;;
        NN_RETURN_STATUS st
          (cur <- deref l ;;
           st <- (if flatten cur
                  then realizeFlattenType l layers else ret ML_ERROR_NONE) ;;
           NN_RETURN_STATUS st (ret ML_ERROR_NONE)))).

Fixpoint setGraphNode_loop (layers rest : list handle) : M status :=
  match rest with
  | [] => ret ML_ERROR_NONE
  | l :: rest' =>
      st <- setGraphNode_layer layers l ;;
      NN_RETURN_STATUS st (setGraphNode_loop layers rest')
  end.

Definition setGraphNode (layers : list handle) (loss_type : LossType)
  : M status :=
  setOutputLayers layers ;;
  st <- setGraphNode_loop layers layers ;;
  NN_RETURN_STATUS st
    (match last layers with
     | None => undefined
     | Some back =>
         l <- deref back ;;
         if negb (bool_decide (type l = LayerType.loss))
            && negb (bool_decide (loss_type = LOSS_NONE))
         then
           st <- addLossLayer loss_type ;;
           NN_RETURN_STATUS st (ret ML_ERROR_NONE)
         else ret ML_ERROR_NONE
     end).

(** ** setEdge *)

Definition setEdge_row (i : nat) : M unit :=
  g <- get ;;
  match adj g !! i with
  | Some (node :: _) =>
      l <- deref (layer node) ;;
      match input_dim l !! 0 with
      | None => undefined
      | Some d =>
          if negb (d =? 0) then ret tt
          else
            forM_ (input_layers l)
              (fun inp =>
                 if istrequal inp "__data__" then ret tt
                 else
                   g <- get ;;
                   to_node <- lift (getLayerNode_name g inp) ;;
                   addEdge (index to_node) node)
      end
  | _ => undefined
  end.

Definition setEdge : M status :=
  g <- get ;;
  forM_ (seq 0 (length (adj g))) setEdge_row ;;
  ret ML_ERROR_NONE.

(** ** inPlaceOptimize *)

Definition in_place_layers : list string :=
  [LayerType.activation; LayerType.batch_normalization].

(** The search for [loc]: first output slot of the predecessor that
    names this layer (exact comparison), or the number of slots. *)
Fixpoint find_loc (outs : list string) (layer_name : string) : nat :=
  match outs with
  | [] => 0
  | o :: rest =>
      if bool_decide (o = layer_name) then 0 else S (find_loc rest layer_name)
  end.

(** The body of the loop for one sorted node.  Tensor storage belongs
    to the [Manager]; the two sharing rules are recorded as an [Alias]
    together with the [untrackLayerInOuts] notification. *)
Definition inPlaceOptimize_node (layer_type : string) (layer_node : LayerNode)
  : M unit :=
  l <- deref (layer layer_node) ;;
  if bool_decide (type l = layer_type)
     && negb (bool_decide (activation_type l = ACT_SOFTMAX))
  then
    if negb (length (input_layers l) =? 1)
    then throw (runtime_error "Internal error in the formed graph")
    else
      match input_layers l !! 0 with
      | None => undefined
      | Some inp =>
          g <- get ;;
          prev_node <- lift (getLayerNode_name g inp) ;;
          prev_layer <- deref (layer prev_node) ;;
          let loc := find_loc (output_layers prev_layer) (name l) in
          if loc =? length (output_layers prev_layer)
          then throw (runtime_error "Internal error in the formed graph.")
          else if bool_decide (type prev_layer = LayerType.input) then ret tt
          else if existsb (fun t => bool_decide (type prev_layer = t))
                    in_place_layers
          then ret tt
          else if bool_decide (type l = LayerType.batch_normalization) then
            modify (add_alias
                      (mkAlias (layer layer_node) (layer prev_node) loc
                         AliasBatchNorm)
                      (name prev_layer))
          else if bool_decide (type l = LayerType.activation) then
            modify (add_alias
                      (mkAlias (layer layer_node) (layer prev_node) loc
                         AliasActivation)
                      (name prev_layer))
          else
            throw (runtime_error
                     (type l +:+ " layer is not supported for in-place optimization"))
      end
  else ret tt.

Definition inPlaceOptimize_type (layer_type : string) : M unit :=
  g <- get ;;
  forM_ (Sorted g) (inPlaceOptimize_node layer_type).

Definition inPlaceOptimize : M unit :=
  forM_ in_place_layers inPlaceOptimize_type.

(** ** The build pipeline *)

(** Modelled from the spec: the driver that calls the passes is in
    neuralnet.cpp.  The passes run in the order realization, edge
    resolution, topological sort, in-place pass, and a failing pass ends
    the build.  The recursion budget of the sort is one more than the
    number of nodes. *)
Definition build (layers : list handle) (loss_type : LossType) : M status :=
  st <- setGraphNode layers loss_type ;;
  NN_RETURN_STATUS st
    (st <- setEdge ;;
     NN_RETURN_STATUS st
       (g <- get ;;
        topologicalSort (S (num_node g)) ;;
        inPlaceOptimize ;;
        ret ML_ERROR_NONE)).

(** A graph object before any node is added, with the registry state
    [names], [count], the given value of the leading non-trainable
    count, and [layers] as the layer objects of the flat list. *)
Definition fresh_graph (layers : list Layer) (names : gset string)
    (count skip : nat) : NetworkGraph :=
  mkGraph layers [] 0 [] names count skip [] [].

Definition build_flat (layers : list Layer) (loss_type : LossType)
    (names : gset string) (count skip : nat)
  : result status * NetworkGraph :=
  build (seq 0 (length layers)) loss_type
    (fresh_graph layers names count skip).

Definition sorted_names (g : NetworkGraph) : list (option string) :=
  (fun n => name <$> store g !! layer n) <$> Sorted g.

(** ** Predicates used in the statements *)

(** Whether the layer of a node is trainable ([getTrainable()]). *)
Definition node_trainable (g : NetworkGraph) (n : LayerNode) : bool :=
  match store g !! layer n with
  | Some l => trainable l
  | None => false
  end.

(** The node stored first in [adj[i]], that is [*adj[i].begin()]. *)
Definition node_at (g : NetworkGraph) (i : nat) : option LayerNode :=
  adj g !! i ≫= head.

(** The nodes of the graph, in insertion order. *)
Definition nodes (g : NetworkGraph) : list LayerNode :=
  omap head (adj g).

(** The shape [addLayerNode] maintains: one adjacency row per node, and
    row [i] starts with the node whose index is [i]. *)
Definition wf_nodes (g : NetworkGraph) : Prop :=
  length (adj g) = num_node g ∧
  ∀ i, i < num_node g → index <$> node_at g i = Some i.

Definition wf_nodesb (g : NetworkGraph) : bool :=
  (length (adj g) =? num_node g)
  && forallb (λ i, bool_decide (index <$> node_at g i = Some i))
       (seq 0 (num_node g)).

(** The graph after [adj.pop_back(); num_node--;]. *)
Definition popped (g : NetworkGraph) : NetworkGraph :=
  set_num_node (num_node g - 1)
    (set_adj (take (length (adj g) - 1) (adj g)) g).

(** A layer as the configuration front end hands it over: named, with
    its declared inputs, no outputs yet. *)
Definition declared (nm ty : string) (ins : list string)
    (act : ActivationType) (dim : nat) : Layer :=
  mkLayer nm ty ins [] (if ins is [] then 1 else length ins) 1
    [dim] [0] act false true LOSS_UNKNOWN.

(** dense -> activation(relu), before the loss is attached. *)
Definition relu_chain : list Layer :=
  [declared "fc" "fully_connected" [] ACT_NONE 4;
   declared "act" "activation" ["fc"] ACT_RELU 0].

Definition relu_graph : NetworkGraph :=
  (setGraphNode [0; 1] LOSS_NONE (fresh_graph relu_chain ∅ 0 0)).2.

(** ** Structural edges and order *)

(** [setEdge] records an edge from [u] to [v] by appending the node
    with index [v] to [adj[u]], after the row's own first entry. *)
Definition edge (g : NetworkGraph) (u v : nat) : Prop :=
  ∃ row, adj g !! u = Some row ∧ v ∈ index <$> tail row.

Inductive path (g : NetworkGraph) : nat → nat → Prop :=
  | path_edge u v : edge g u v → path g u v
  | path_step u v w : edge g u v → path g v w → path g u w.

Definition acyclic (g : NetworkGraph) : Prop := ∀ u, ¬ path g u u.

(** Every entry of every row designates an existing node. *)
Definition wf_edges (g : NetworkGraph) : Prop :=
  ∀ row n, row ∈ adj g → n ∈ row → index n < num_node g.

(** Position of the node with index [u] in a sorted sequence. *)
Fixpoint position (u : nat) (sorted : list LayerNode) : option nat :=
  match sorted with
  | [] => None
  | n :: rest => if index n =? u then Some 0 else S <$> position u rest
  end.

(** Number of entries of [visited] that are still [false]. *)
Definition unvisited (visited : list bool) : nat :=
  length (filter (λ b, b = false) visited).

(** State of the depth-first traversal. *)
Definition marked (visited : list bool) (i : nat) : Prop :=
  visited !! i = Some true.

Definition on_stack (Stack : list LayerNode) (i : nat) : Prop :=
  i ∈ index <$> Stack.

(** What holds of [visited] and [Stack] between two calls of
    [topologicalSortUtil]: pushed nodes are marked, are nodes of the
    graph, occur once, and have all their successors deeper in the
    stack. *)
Record sort_inv (g : NetworkGraph) (visited : list bool)
    (Stack : list LayerNode) : Prop := {
  inv_len : length visited = num_node g;
  inv_marked : ∀ n, n ∈ Stack → marked visited (index n);
  inv_nodes : ∀ n, n ∈ Stack → node_at g (index n) = Some n;
  inv_nodup : NoDup (index <$> Stack);
  inv_closed : ∀ s1 n s2, Stack = s1 ++ n :: s2 →
               ∀ v, edge g (index n) v → v ∈ index <$> s2
}.

(** Every node of the graph wraps a live layer object. *)
Definition wf_store (g : NetworkGraph) : Prop :=
  Forall (λ n, is_Some (store g !! layer n)) (nodes g).

(** The contract of one call [topologicalSortUtil(ith, visited, Stack)]
    on a node not yet visited, when every node that is visited but not
    yet pushed reaches [ith]. *)
Definition util_contract (g : NetworkGraph) (fuel : nat) : Prop :=
  ∀ ith vis stk,
    sort_inv g vis stk →
    vis !! ith = Some false →
    (∀ x, marked vis x → ¬ on_stack stk x → path g x ith) →
    unvisited vis ≤ fuel →
    ∃ vis' new,
      topologicalSortUtil fuel g ith (vis, stk) = Ret (vis', new ++ stk) ∧
      sort_inv g vis' (new ++ stk) ∧
      (∀ x, marked vis x → marked vis' x) ∧
      (∀ x, marked vis' x → marked vis x ∨ on_stack new x) ∧
      on_stack new ith ∧
      (∀ n, n ∈ new → vis !! index n = Some false) ∧
      unvisited vis' < unvisited vis.

(** What [setEdge] leaves alone: the layer objects, the node count, the
    sorted sequence, and the first entry of every adjacency row. *)
Definition same_nodes (g s : NetworkGraph) : Prop :=
  store s = store g ∧ num_node s = num_node g ∧ Sorted s = Sorted g ∧
  length (adj s) = length (adj g) ∧ ∀ i, node_at s i = node_at g i.

(** The loss kind recorded for cross entropy over an activation. *)
Definition fused_loss (a : ActivationType) : LossType :=
  match a with
  | ACT_SIGMOID => LOSS_ENTROPY_SIGMOID
  | _ => LOSS_ENTROPY_SOFTMAX
  end.

(** ** In-place decisions *)

(** What every recorded in-place decision satisfies: the node's layer
    is of an in-place kind and not softmax, it has a single input, that
    input resolves to the recorded predecessor, and the predecessor is
    neither an input layer nor itself of an in-place kind. *)
Definition alias_ok (g : NetworkGraph) (a : Alias) : Prop :=
  ∃ l inp pn pl,
    store g !! alias_node a = Some l ∧
    type l ∈ in_place_layers ∧
    activation_type l ≠ ACT_SOFTMAX ∧
    input_layers l = [inp] ∧
    getLayerNode_name g inp = Ret pn ∧
    alias_prev a = layer pn ∧
    store g !! layer pn = Some pl ∧
    type pl ≠ LayerType.input ∧
    type pl ∉ in_place_layers.

(** The layer object [h] was made to work in place. *)
Definition aliased (g : NetworkGraph) (h : handle) : Prop :=
  ∃ a, a ∈ aliases g ∧ alias_node a = h.

(** What the in-place pass leaves alone, and how the record grows. *)
Definition pass_step (s s' : NetworkGraph) : Prop :=
  store s' = store s ∧ adj s' = adj s ∧ Sorted s' = Sorted s ∧
  ∃ more, aliases s' = aliases s ++ more.

(** conv -> batchnorm -> activation: the batch-normalization layer
    reads the convolution, which names it among its outputs, and the
    activation layer reads the batch normalization. *)
Record bn_act_chain (g : NetworkGraph) (nc nb na : LayerNode)
    (lc lb la : Layer) : Prop := {
  chain_conv : store g !! layer nc = Some lc;
  chain_conv_type : type lc = LayerType.conv2d;
  chain_bn : store g !! layer nb = Some lb;
  chain_bn_type : type lb = LayerType.batch_normalization;
  chain_bn_input : ∃ inp, input_layers lb = [inp] ∧
                          getLayerNode_name g inp = Ret nc;
  chain_bn_sorted : nb ∈ Sorted g;
  chain_act : store g !! layer na = Some la;
  chain_act_type : type la = LayerType.activation;
  chain_act_input : ∃ inp, input_layers la = [inp] ∧
                           getLayerNode_name g inp = Ret nb
}.

(** ** Dependence on the initial state *)

(** Two graph objects that agree on every member except, possibly,
    [skip_non_trainable_layers]. *)
Definition upto_skip (g g' : NetworkGraph) : Prop :=
  set_skip 0 g = set_skip 0 g'.



(** A sufficient, checkable reason for acyclicity: a rank that grows
    along every edge. *)
Definition edges_rankedb (rank : nat → nat) (g : NetworkGraph) : bool :=
  forallb (λ u, match adj g !! u with
                | Some row => forallb (λ n, rank u <? rank (index n)) (tail row)
                | None => true
                end)
          (seq 0 (length (adj g))).

(** The shape of the graph while it is being realized: the sorted
    sequence is empty and row [i] holds just node [i], which wraps a
    live layer object. *)
Definition realized (g : NetworkGraph) : Prop :=
  length (adj g) = num_node g ∧ Sorted g = [] ∧
  ∀ i row, adj g !! i = Some row →
    ∃ h, row = [mkNode h i] ∧ h < length (store g).

(** A computation that keeps a property of the graph, whatever its
    outcome. *)
Definition preserves {A} (P : NetworkGraph → Prop) (m : M A) : Prop :=
  ∀ g r g', m g = (r, g') → P g → P g'.

(** Realization followed by edge resolution, on a fresh graph. *)
Definition resolved_graph (layers : list Layer) (loss_type : LossType)
    (names : gset string) (count skip : nat)
  : result status * NetworkGraph :=
  (st <- setGraphNode (seq 0 (length layers)) loss_type ;;
   NN_RETURN_STATUS st setEdge)
    (fresh_graph layers names count skip).

(** ** Layer objects at other addresses *)








(** ** Concrete graphs *)

(** The passes that precede the in-place pass, on a fresh graph. *)
Definition sorted_graph (layers : list Layer) (loss_type : LossType)
  : result unit * NetworkGraph :=
  (setGraphNode (seq 0 (length layers)) loss_type ;;
   setEdge ;;
   g <- get ;;
   topologicalSort (S (num_node g)))
    (fresh_graph layers ∅ 0 0).

(** The state [setGraphNode] reaches before a loss is attached. *)
Definition realized_graph (layers : list Layer) : NetworkGraph :=
  (setGraphNode (seq 0 (length layers)) LOSS_NONE
     (fresh_graph layers ∅ 0 0)).2.

(** dense -> activation(softmax). *)
Definition softmax_chain : list Layer :=
  [declared "fc" "fully_connected" [] ACT_NONE 4;
   declared "act" "activation" ["fc"] ACT_SOFTMAX 0].

(** A lone softmax activation layer. *)
Definition softmax_alone : list Layer :=
  [declared "act" "activation" [] ACT_SOFTMAX 4].

(** A consumer listed before its producer: in -> b -> c -> out,
    declared in the order in, c, b, out. *)
Definition out_of_order : list Layer :=
  [declared "in" "input" [] ACT_NONE 4;
   declared "c" "fully_connected" ["b"] ACT_NONE 0;
   declared "b" "fully_connected" ["in"] ACT_NONE 0;
   declared "out" "fully_connected" ["c"] ACT_NONE 0].

Definition out_of_order_graph : NetworkGraph :=
  (resolved_graph out_of_order LOSS_NONE ∅ 0 0).2.

Definition out_of_order_rank (u : nat) : nat :=
  match u with 0 => 0 | 1 => 2 | 2 => 1 | _ => 3 end.

(** in -> conv -> batchnorm, the batch normalization asking for a relu
    (respectively softmax) activation, which realization appends. *)
Definition bn_chain (act : ActivationType) : list Layer :=
  [declared "in" "input" [] ACT_NONE 4;
   declared "conv" "conv2d" ["in"] ACT_NONE 0;
   declared "bn" "batch_normalization" ["conv"] act 0].

(** A layer that names a user layer after the adapter the graph will
    synthesize for its predecessor. *)
Definition clash : list Layer :=
  [declared "x" "fully_connected" [] ACT_RELU 4;
   declared "xactivation0" "fully_connected" ["x"] ACT_NONE 0].

(** Three producers and a layer that reads all three. *)
Definition fan_in : list Layer :=
  [declared "a" "input" [] ACT_NONE 4;
   declared "b" "input" [] ACT_NONE 4;
   declared "c" "input" [] ACT_NONE 4;
   declared "d" "fully_connected" ["a"; "b"; "c"] ACT_NONE 0].

(** A realized node whose layer asks for relu and declares two
    outputs. *)
Definition two_outputs : NetworkGraph :=
  mkGraph
    [mkLayer "fc" "fully_connected" ["__data__"] ["p"; "q"] 1 2 [4] [0; 0]
       ACT_RELU false true LOSS_UNKNOWN]
    [[mkNode 0 0]] 1 [] ∅ 0 0 [] [].

(** Two sorted nodes, the first frozen; and the same with both
    frozen. *)
Definition frozen_then_trainable : NetworkGraph :=
  mkGraph
    [mkLayer "in" "input" ["__data__"] ["fc"] 1 1 [4] [0]
       ACT_NONE false false LOSS_UNKNOWN;
     mkLayer "fc" "fully_connected" ["in"] ["__exit__"] 1 1 [0] [0]
       ACT_NONE false true LOSS_UNKNOWN]
    [[mkNode 0 0; mkNode 1 1]; [mkNode 1 1]] 2
    [mkNode 0 0; mkNode 1 1] ∅ 0 7 [] [].

Definition all_frozen : NetworkGraph :=
  mkGraph
    [mkLayer "in" "input" ["__data__"] ["fc"] 1 1 [4] [0]
       ACT_NONE false false LOSS_UNKNOWN;
     mkLayer "fc" "fully_connected" ["in"] ["__exit__"] 1 1 [0] [0]
       ACT_NONE false false LOSS_UNKNOWN]
    [[mkNode 0 0; mkNode 1 1]; [mkNode 1 1]] 2
    [mkNode 0 0; mkNode 1 1] ∅ 0 7 [] [].

(** ** Further operations and predicates *)

(** State of the traversal, leaving the order of the stack aside:
    pushed nodes are marked, are nodes of the graph, and occur once. *)
Definition visit_inv (g : NetworkGraph) (visited : list bool)
    (Stack : list LayerNode) : Prop :=
  length visited = num_node g ∧
  (∀ n, n ∈ Stack → marked visited (index n)) ∧
  (∀ n, n ∈ Stack → node_at g (index n) = Some n) ∧
  NoDup (index <$> Stack).

(** The contract of one call of [topologicalSortUtil] on a node not
    yet visited, on any graph. *)
Definition visit_contract (g : NetworkGraph) (fuel : nat) : Prop :=
  ∀ ith vis stk,
    visit_inv g vis stk →
    vis !! ith = Some false →
    unvisited vis ≤ fuel →
    ∃ vis' new,
      topologicalSortUtil fuel g ith (vis, stk) = Ret (vis', new ++ stk) ∧
      visit_inv g vis' (new ++ stk) ∧
      (∀ x, marked vis x → marked vis' x) ∧
      (∀ x, marked vis' x → marked vis x ∨ on_stack new x) ∧
      on_stack new ith ∧
      (∀ n, n ∈ new → vis !! index n = Some false) ∧
      unvisited vis' < unvisited vis.

(** [getSortedLayerNode]: the node with index [ith] in [Sorted]. *)
Fixpoint getSortedLayerNode_loop (sorted : list LayerNode) (ith : nat)
  : result LayerNode :=
  match sorted with
  | [] => Throw (invalid_argument "Cannot find Layer")
  | n :: rest =>
      if index n =? ith then Ret n else getSortedLayerNode_loop rest ith
  end.

Definition getSortedLayerNode (g : NetworkGraph) (ith : nat)
  : result LayerNode :=
  getSortedLayerNode_loop (Sorted g) ith.

(** The names [setOutputLayers] appends to the outputs of the layer
    named [nm]: going through [layers] in order, each layer with
    another name contributes its own name once for every one of its
    inputs that equals [nm]. *)
Definition consumers (st : list Layer) (layers : list handle) (nm : string)
  : list string :=
  layers ≫= (λ i,
    match st !! i with
    | Some li =>
        if istrequal (name li) nm then []
        else replicate
               (length (filter (λ inp, istrequal inp nm = true)
                          (input_layers li)))
               (name li)
    | None => []
    end).

(** Two layer objects that differ at most in their output names, output
    count and output dimensions. *)
Definition same_but_outputs (l l' : Layer) : Prop :=
  name l' = name l ∧ type l' = type l ∧
  input_layers l' = input_layers l ∧ num_inputs l' = num_inputs l ∧
  input_dim l' = input_dim l ∧ activation_type l' = activation_type l ∧
  flatten l' = flatten l ∧ trainable l' = trainable l ∧
  loss_type l' = loss_type l.

(** The layer of node [v] reads the node [u]: its first input
    dimension is not set, and one of its inputs, other than the model
    input, resolves to the node with index [u]. *)
Definition feeds (g : NetworkGraph) (u v : nat) : Prop :=
  ∃ nv lv inp nu,
    node_at g v = Some nv ∧ store g !! layer nv = Some lv ∧
    input_dim lv !! 0 = Some 0 ∧
    inp ∈ input_layers lv ∧ istrequal inp "__data__" = false ∧
    getLayerNode_name g inp = Ret nu ∧ index nu = u.

(** A step of [setEdge]: nodes are kept and edges are only added. *)
Definition edges_grow (s s' : NetworkGraph) : Prop :=
  wf_nodes s → same_nodes s s' ∧ ∀ u v, edge s u v → edge s' u v.

(** What the in-place pass may change between two states: decisions
    are appended to [aliases], and for each of them the name of the
    predecessor's layer is appended to [untracked]. *)
Definition records (s s' : NetworkGraph) : Prop :=
  ∃ more names,
    s' = mkGraph (store s) (adj s) (num_node s) (Sorted s) (layer_names s)
           (def_name_count s) (skip_non_trainable_layers s)
           (aliases s ++ more) (untracked s ++ names) ∧
    Forall2 (λ a u, name <$> store s !! alias_prev a = Some u) more names.

(** [l'] is [l] with some of the inputs that name [cname] replaced by
    [nm], and is otherwise the same layer object. *)
Definition renamed (cname nm : string) (l l' : Layer) : Prop :=
  l' = set_input_layers (input_layers l') l ∧
  Forall2 (λ x y, y = x ∨ (istrequal x cname = true ∧ y = nm))
    (input_layers l) (input_layers l').

(** Two layers that read each other. *)
Definition mutual : list Layer :=
  [declared "a" "fully_connected" ["b"] ACT_NONE 0;
   declared "b" "fully_connected" ["a"] ACT_NONE 0].

Definition mutual_graph : NetworkGraph :=
  (resolved_graph mutual LOSS_NONE ∅ 0 0).2.

(** A realized node whose layer asks for relu and has one output. *)
Definition one_output : NetworkGraph :=
  mkGraph
    [mkLayer "fc" "fully_connected" ["__data__"] ["out"] 1 1 [4] [0]
       ACT_RELU false true LOSS_UNKNOWN]
    [[mkNode 0 0]] 1 [] ∅ 0 0 [] [].


(** * Properties *)

(** ** countNonTrainableLayersAtBegin *)

Lemma first_trainable_spec st sorted pos :
  (∀ n, n ∈ sorted → is_Some (st !! layer n)) →
  ∃ r, first_trainable st sorted pos = Ret r ∧
    match r with
    | Some p =>
        ∃ i n l, p = pos + i ∧ sorted !! i = Some n ∧
          st !! layer n = Some l ∧ trainable l = true ∧
          ∀ j m l', j < i → sorted !! j = Some m →
            st !! layer m = Some l' → trainable l' = false
    | None =>
        ∀ n l, n ∈ sorted → st !! layer n = Some l → trainable l = false
    end.
Proof.
  revert pos. induction sorted as [|n rest IH]; intros pos Hval; simpl.
  - exists None. split; [done|]. intros n l Hn. by apply elem_of_nil in Hn.
  - destruct (Hval n) as [l Hl]; [left|]. rewrite Hl.
    destruct (trainable l) eqn:Ht.
    + exists (Some pos). split; [done|]. exists 0, n, l.
      repeat split; auto with lia.
    + destruct (IH (S pos)) as [r [Hr Hspec]].
      { intros m Hm. apply Hval. by right. }
      exists r. split; [done|]. destruct r as [p|].
      * destruct Hspec as (i & m & l' & -> & Hi & Hm & Htm & Hbefore).
        exists (S i), m, l'. repeat split; auto with lia.
        intros [|j] m' l'' Hj Hlook Hst; simpl in Hlook.
        -- congruence.
        -- eapply (Hbefore j); [lia|done|done].
      * intros m l' Hm Hst. apply elem_of_cons in Hm as [->|Hm].
        -- congruence.
        -- eauto.
Qed.

Lemma countNonTrainableLayersAtBegin_returns (g : NetworkGraph) :
  Forall (λ n, is_Some (store g !! layer n)) (Sorted g) →
  ∃ g', countNonTrainableLayersAtBegin g = (Ret tt, g') ∧
        g' = set_skip (skip_non_trainable_layers g') g.
Proof.
  intros Hval. rewrite Forall_forall in Hval.
  destruct (first_trainable_spec (store g) (Sorted g) 0 Hval) as [r [Hr _]].
  unfold countNonTrainableLayersAtBegin, bind, get, lift. rewrite Hr.
  destruct r as [p|]; simpl; eexists; (split; [reflexivity|by destruct g]).
Qed.

(** C10.  [countNonTrainableLayersAtBegin] returns, and touches no
    member other than [skip_non_trainable_layers].  That member becomes
    the position of the first trainable node of [Sorted] when there is
    one; when no sorted node is trainable the graph is left exactly as
    it was, so the count keeps its prior value (it is not set to the
    number of nodes). *)
Theorem countNonTrainableLayersAtBegin_frame (g : NetworkGraph) :
  Forall (λ n, is_Some (store g !! layer n)) (Sorted g) →
  ∃ g', countNonTrainableLayersAtBegin g = (Ret tt, g') ∧
    g' = set_skip (skip_non_trainable_layers g') g ∧
    (∀ i n, Sorted g !! i = Some n → node_trainable g n = true →
       (∀ j m, j < i → Sorted g !! j = Some m → node_trainable g m = false) →
       skip_non_trainable_layers g' = i) ∧
    ((∀ n, n ∈ Sorted g → node_trainable g n = false) → g' = g).
Proof.
  intros Hval. rewrite Forall_forall in Hval.
  destruct (first_trainable_spec (store g) (Sorted g) 0 Hval) as [r [Hr Hspec]].
  unfold countNonTrainableLayersAtBegin, bind, get, lift. rewrite Hr.
  destruct r as [p|]; simpl.
  - destruct Hspec as (i & n & l & -> & Hi & Hn & Ht & Hbefore).
    eexists. split; [reflexivity|]. split; [by destruct g|]. split.
    + intros i' n' Hi' Ht' Hbefore'. simpl.
      unfold node_trainable in *.
      destruct (Nat.lt_trichotomy i i') as [Hlt|[->|Hgt]]; [|done|].
      * specialize (Hbefore' i n Hlt Hi). rewrite Hn in Hbefore'. congruence.
      * destruct (store g !! layer n') as [l'|] eqn:Hl'; [|done].
        specialize (Hbefore i' n' l' Hgt Hi' Hl'). congruence.
    + intros Hnone. exfalso.
      assert (n ∈ Sorted g) as Hin by (eapply list_elem_of_lookup_2; eauto).
      specialize (Hnone n Hin). unfold node_trainable in Hnone.
      rewrite Hn in Hnone. congruence.
  - exists g. split; [done|]. split; [by destruct g|]. split; [|done].
    intros i n Hi Ht _. exfalso.
    assert (n ∈ Sorted g) as Hin by (eapply list_elem_of_lookup_2; eauto).
    unfold node_trainable in Ht.
    destruct (store g !! layer n) as [l|] eqn:Hl; [|done].
    specialize (Hspec n l Hin Hl). congruence.
Qed.

(** ** ensureName *)

Lemma string_length_app (a b : string) :
  String.length (a +:+ b) = String.length a + String.length b.
Proof. induction a as [|c a IH]; simpl; [done|]. by rewrite IH. Qed.

Lemma string_app_nonempty_r (a b : string) : b ≠ "" → a +:+ b ≠ "".
Proof.
  intros Hb Heq. apply (f_equal String.length) in Heq.
  rewrite string_length_app in Heq. destruct b; [done|]. simpl in Heq. lia.
Qed.

Lemma string_app_nonempty_l (a b : string) : a ≠ "" → a +:+ b ≠ "".
Proof. destruct a; [done|]. discriminate. Qed.

(** The loop ends: of [size names + 1] consecutive candidates, which
    are pairwise different, one is not in [names]. *)
Lemma ensureName_loop_total names direct fuel c (X : gset string) :
  size X < fuel →
  (∀ k, c ≤ k → (direct +:+ pretty k) ∈ names → (direct +:+ pretty k) ∈ X) →
  ∃ c', ensureName_loop fuel names direct c
          = Some (direct +:+ pretty c', S c') ∧
        c ≤ c' ∧ ((direct +:+ pretty c') ∉ names) ∧
        ∀ k, c ≤ k < c' → (direct +:+ pretty k) ∈ names.
Proof.
  revert c X. induction fuel as [|fuel IH]; intros c X Hsz Hcov; [lia|].
  simpl. destruct (decide ((direct +:+ pretty c) ∈ names)) as [Hin|Hnin].
  - destruct (IH (S c) (X ∖ {[direct +:+ pretty c]})) as (c' & Hrun & Hle & Hfresh & Hused).
    + assert ((direct +:+ pretty c) ∈ X) as HinX by (apply Hcov; [lia|done]).
      assert ({[direct +:+ pretty c]} ⊆ X) as Hsub
        by (by apply singleton_subseteq_l).
      pose proof (subseteq_size _ _ Hsub) as Hone.
      rewrite (size_difference X _ Hsub).
      rewrite size_singleton in *. lia.
    + intros k Hk Hkin. apply elem_of_difference. split; [apply Hcov; [lia|done]|].
      rewrite elem_of_singleton. intros Heq.
      apply (inj (String.app direct)) in Heq. apply (inj pretty) in Heq. lia.
    + exists c'. split; [done|]. split; [lia|]. split; [done|].
      intros k Hk. destruct (decide (k = c)) as [->|Hne]; [done|].
      apply Hused. lia.
  - exists c. split; [done|]. split; [lia|]. split; [done|]. intros k Hk. lia.
Qed.

(** What [ensureName] does to the graph: it returns, it may advance
    [def_name_count], it writes a name into the layer, and it leaves
    every other member, [layer_names] included, as it was. *)
Lemma ensureName_run h prefix force g l :
  store g !! h = Some l →
  ∃ nm c,
    ensureName h prefix force g
      = (Ret tt, set_def_name_count c
                   (set_store (<[h := setName nm l]> (store g)) g)) ∧
    (nm ∉ layer_names g) ∧ def_name_count g ≤ c ∧
    (name l ≠ "" → force = false → name l ∉ layer_names g →
       nm = name l ∧ c = def_name_count g) ∧
    (name l ≠ "" → (force = true ∨ name l ∈ layer_names g) →
       (prefix +:+ name l) ∉ layer_names g →
       nm = prefix +:+ name l ∧ c = def_name_count g) ∧
    ((name l = "" ∨ (prefix +:+ name l) ∈ layer_names g) →
       (name l = "" ∨ force = true ∨ name l ∈ layer_names g) →
       let base := if bool_decide (name l = "") then type l else name l in
       ∃ c', nm = (prefix +:+ base) +:+ pretty c' ∧ c = S c' ∧
             def_name_count g ≤ c' ∧
             ∀ k, def_name_count g ≤ k < c' →
                  ((prefix +:+ base) +:+ pretty k) ∈ layer_names g).
Proof.
  intros Hl. unfold ensureName, bind, deref, get. rewrite Hl.
  destruct (bool_decide (name l = "")) eqn:He; cbn [negb andb].
  - apply bool_decide_eq_true in He.
    destruct (ensureName_loop_total (layer_names g) (prefix +:+ type l)
                (S (size (layer_names g))) (def_name_count g) (layer_names g))
      as (c' & Hrun & Hle & Hfresh & Hused); [lia|done|].
    rewrite Hrun. exists ((prefix +:+ type l) +:+ pretty c'), (S c').
    unfold modify, update, bind. simpl. rewrite Hl.
    split; [done|]. split; [done|]. split; [lia|].
    split; [done|]. split; [done|]. intros _ _.
    exists c'. auto.
  - apply bool_decide_eq_false in He.
    destruct force; cbn [negb andb].
    + destruct (bool_decide ((prefix +:+ name l) ∉ layer_names g)) eqn:Hp.
      * apply bool_decide_eq_true in Hp. unfold update. rewrite Hl.
        exists (prefix +:+ name l), (def_name_count g).
        split; [by destruct g|]. split; [done|]. split; [lia|].
        split; [done|]. split; [done|]. intros [?|?]; done.
      * apply bool_decide_eq_false in Hp. apply dec_stable in Hp.
        destruct (ensureName_loop_total (layer_names g) (prefix +:+ name l)
                (S (size (layer_names g))) (def_name_count g) (layer_names g))
          as (c' & Hrun & Hle & Hfresh & Hused); [lia|done|].
        rewrite Hrun. exists ((prefix +:+ name l) +:+ pretty c'), (S c').
        unfold modify, update, bind. simpl. rewrite Hl.
        split; [done|]. split; [done|]. split; [lia|].
        split; [done|]. split; [done|]. intros _ _.
        exists c'. auto.
    + destruct (bool_decide (name l ∉ layer_names g)) eqn:Ho; cbn [negb andb].
      * apply bool_decide_eq_true in Ho. unfold ret.
        exists (name l), (def_name_count g).
        split.
        { f_equal. replace (setName (name l) l) with l by (by destruct l).
          rewrite list_insert_id by done. by destruct g. }
        split; [done|]. split; [lia|]. split; [done|].
        split; [intros _ [?|?]; done|]. intros _ [?|[?|?]]; done.
      * apply bool_decide_eq_false in Ho. apply dec_stable in Ho.
        destruct (bool_decide ((prefix +:+ name l) ∉ layer_names g)) eqn:Hp.
        -- apply bool_decide_eq_true in Hp. unfold update. rewrite Hl.
           exists (prefix +:+ name l), (def_name_count g).
           split; [by destruct g|]. split; [done|]. split; [lia|].
           split; [done|]. split; [done|]. intros [?|?]; done.
        -- apply bool_decide_eq_false in Hp. apply dec_stable in Hp.
           destruct (ensureName_loop_total (layer_names g) (prefix +:+ name l)
                (S (size (layer_names g))) (def_name_count g) (layer_names g))
             as (c' & Hrun & Hle & Hfresh & Hused); [lia|done|].
           rewrite Hrun. exists ((prefix +:+ name l) +:+ pretty c'), (S c').
           unfold modify, update, bind. simpl. rewrite Hl.
           split; [done|]. split; [done|]. split; [lia|].
           split; [done|]. split; [done|]. intros _ _.
           exists c'. auto.
Qed.

(** ** Running the store primitives *)

Lemma lookup_snoc {A} (st : list A) (x : A) n :
  length st = n → (st ++ [x]) !! n = Some x.
Proof. intros <-. by apply list_lookup_middle. Qed.

Lemma insert_snoc {A} (st : list A) (x y : A) n :
  length st = n → <[n := y]> (st ++ [x]) = st ++ [y].
Proof.
  intros <-. rewrite insert_app_r_alt by lia. by rewrite Nat.sub_diag.
Qed.

Lemma lookup_snoc_lt {A} (st : list A) (x : A) h :
  h < length st → (st ++ [x]) !! h = st !! h.
Proof. intros. by apply lookup_app_l. Qed.

Lemma insert_snoc_lt {A} (st : list A) (x y : A) h :
  h < length st → <[h := y]> (st ++ [x]) = <[h := y]> st ++ [x].
Proof. intros. by apply insert_app_l. Qed.

Lemma bind_run {A B} (m : M A) (k : A → M B) g a g' :
  m g = (Ret a, g') → bind m k g = k a g'.
Proof. unfold bind. by intros ->. Qed.

Lemma bind_assoc {A B C} (m : M A) (f : A → M B) (k : B → M C) g :
  bind (bind m f) k g = bind m (λ x, bind (f x) k) g.
Proof. unfold bind. by destruct (m g) as [[] ?]. Qed.

Lemma deref_run g h l : store g !! h = Some l → deref h g = (Ret l, g).
Proof. unfold deref. by intros ->. Qed.

Lemma update_run g h l f :
  store g !! h = Some l →
  update h f g = (Ret tt, set_store (<[h := f l]> (store g)) g).
Proof. unfold update. by intros ->. Qed.

Ltac solve_len := rewrite ?length_insert, ?length_app; simpl; lia.

(** Reduce projections of explicit graph and layer records only. *)
Ltac gsimpl :=
  unfold set_store, set_adj, set_num_node, set_Sorted, set_def_name_count,
    set_skip, add_alias, popped;
  cbn [store adj num_node Sorted layer_names def_name_count
       skip_non_trainable_layers aliases untracked
       name type input_layers output_layers num_inputs num_outputs
       input_dim output_dim activation_type flatten trainable loss_type
       setName set_input_layers set_output_layers set_num_inputs
       set_num_outputs set_input_dim set_output_dim setActivation
       createLayer layer index fst snd].

Ltac gsimpl_in H :=
  unfold set_store, set_adj, set_num_node, set_Sorted, set_def_name_count,
    set_skip, add_alias, popped in H;
  cbn [store adj num_node Sorted layer_names def_name_count
       skip_non_trainable_layers aliases untracked
       name type input_layers output_layers num_inputs num_outputs
       input_dim output_dim activation_type flatten trainable loss_type
       setName set_input_layers set_output_layers set_num_inputs
       set_num_outputs set_input_dim set_output_dim setActivation
       createLayer layer index fst snd] in H.

(** Keep a store that grew by one object in the shape [old ++ [new]]. *)
Ltac norm_store :=
  repeat first
    [ rewrite insert_snoc by solve_len
    | rewrite insert_snoc_lt by solve_len
    | rewrite list_insert_insert_eq ].

Ltac solve_lookup :=
  gsimpl;
  repeat first
    [ rewrite lookup_snoc by solve_len
    | rewrite lookup_snoc_lt by solve_len
    | rewrite list_lookup_insert_eq by solve_len
    | rewrite list_lookup_insert_ne by lia ];
  first [eassumption | reflexivity].

(** Run the first primitive of a sequence. *)
Ltac mstep :=
  lazymatch goal with
  | |- bind get _ ?s = _ => rewrite (bind_run get _ s s s eq_refl)
  | |- bind (deref ?h) _ ?s = _ =>
      let H := fresh in
      eassert (store s !! h = Some _) as H by solve_lookup;
      rewrite (bind_run _ _ _ _ _ (deref_run _ _ _ H)); clear H
  | |- bind (update ?h ?f) _ ?s = _ =>
      let H := fresh in
      eassert (store s !! h = Some _) as H by solve_lookup;
      rewrite (bind_run _ _ _ _ _ (update_run _ _ _ f H)); clear H
  | |- bind (alloc ?l) _ ?s = _ => rewrite (bind_run (alloc l) _ s _ _ eq_refl)
  | |- bind (modify ?f) _ ?s = _ => rewrite (bind_run (modify f) _ s _ _ eq_refl)
  | |- bind (ret ?a) _ ?s = _ => rewrite (bind_run (ret a) _ s _ _ eq_refl)
  | |- bind (bind _ _) _ _ = _ => rewrite bind_assoc
  end;
  gsimpl; norm_store.

(** ** realizeActivationType *)

(** C9.  For a layer with a known, non-trivial activation that is not
    itself an activation layer, a declared output count other than 1
    makes [realizeActivationType] return
    [ML_ERROR_INVALID_PARAMETER]; no node has been added to the graph. *)
Theorem realizeActivationType_single_output
    (g : NetworkGraph) (current : handle) (layers : list handle) (cur : Layer) :
  store g !! current = Some cur →
  activation_type cur ≠ ACT_NONE →
  activation_type cur ≠ ACT_UNKNOWN →
  type cur ≠ LayerType.activation →
  num_outputs cur ≠ 1 →
  ∃ g', realizeActivationType current layers g
          = (Ret ML_ERROR_INVALID_PARAMETER, g') ∧
        adj g' = adj g ∧ num_node g' = num_node g.
Proof.
  intros Hcur Hnone Hunk Hty Hout.
  unfold realizeActivationType.
  rewrite (bind_run _ _ _ _ _ (deref_run _ _ _ Hcur)).
  rewrite bool_decide_eq_false_2 by done.
  rewrite (bind_run get _ g g g eq_refl).
  destruct (num_node g =? 0) eqn:Hn.
  { by exists g. }
  rewrite !bool_decide_eq_false_2 by done.
  rewrite (bind_run (alloc _) _ g _ _ eq_refl).
  set (g1 := set_store (store g ++ [createLayer "activation"]) g).
  assert (store g1 !! length (store g) = Some (createLayer "activation")) as Hnew
    by (by apply lookup_snoc).
  destruct (ensureName_run (length (store g)) (name cur) false g1 _ Hnew)
    as (nm & c & Hrun & _).
  rewrite (bind_run _ _ _ _ _ Hrun). clear Hrun Hnew. subst g1.
  eexists. split.
  - do 4 mstep.
    apply Nat.eqb_neq in Hout. rewrite Hout. cbn [negb]. reflexivity.
  - done.
Qed.

(** ** Node lookup in a well-formed graph *)

Lemma wf_nodesb_spec g : wf_nodesb g = true → wf_nodes g.
Proof.
  unfold wf_nodesb, wf_nodes. intros H.
  apply andb_true_iff in H as [Hlen Hall]. apply Nat.eqb_eq in Hlen.
  split; [done|]. intros i Hi.
  rewrite forallb_forall in Hall.
  specialize (Hall i). rewrite bool_decide_eq_true in Hall.
  apply Hall, in_seq. lia.
Qed.

Lemma getLayerNode_loop_found rows ith start len n :
  (∀ j, start ≤ j < start + len → index <$> (rows !! j ≫= head) = Some j) →
  start ≤ ith < start + len →
  (rows !! ith ≫= head) = Some n →
  getLayerNode_loop rows ith (seq start len) = Ret n.
Proof.
  revert start. induction len as [|len IH]; intros start Hrows Hith Hn; [lia|].
  simpl. pose proof (Hrows start ltac:(lia)) as Hs.
  destruct (rows !! start) as [[|m row]|] eqn:Hrow; simpl in Hs; try done.
  injection Hs as Hs.
  destruct (decide (start = ith)) as [->|Hne].
  - rewrite Hrow in Hn. simpl in Hn. injection Hn as ->.
    by rewrite Hs, Nat.eqb_refl.
  - assert ((index m =? ith) = false) as -> by (apply Nat.eqb_neq; lia).
    apply IH; [|lia|done]. intros j Hj. apply Hrows. lia.
Qed.

Lemma getLayerNode_wf g i :
  wf_nodes g → i < num_node g →
  ∃ n, getLayerNode g i = Ret n ∧ node_at g i = Some n ∧ index n = i.
Proof.
  intros [Hlen Hrows] Hi.
  pose proof (Hrows i Hi) as Hn.
  destruct (node_at g i) as [n|] eqn:Hnode; [|done].
  injection Hn as Hn. exists n. split; [|done].
  unfold getLayerNode. apply getLayerNode_loop_found; [|lia|done].
  intros j Hj. apply Hrows. lia.
Qed.

Lemma getLayerNode_last_wf g n :
  wf_nodes g → 0 < num_node g → node_at g (num_node g - 1) = Some n →
  getLayerNode_last g = Ret n.
Proof.
  intros Hwf Hpos Hn. unfold getLayerNode_last.
  destruct (num_node g) as [|k] eqn:Hk; [lia|].
  destruct (getLayerNode_wf g k Hwf ltac:(lia)) as (m & Hrun & Hm & _).
  replace (S k - 1) with k in Hn by lia. congruence.
Qed.

Lemma wf_nodes_popped g : wf_nodes g → wf_nodes (popped g).
Proof.
  intros [Hlen Hrows]. unfold wf_nodes, popped, node_at in *. simpl.
  rewrite length_take. split; [lia|].
  intros i Hi. rewrite <- (Hrows i) by lia.
  by rewrite lookup_take_lt by lia.
Qed.

Lemma node_at_store_adj g st : node_at (set_store st g) = node_at g.
Proof. done. Qed.

(** ** addLossLayer: the cross-entropy block *)

Lemma addLossLayer_entropy_run g n l :
  wf_nodes g →
  0 < num_node g →
  node_at g (num_node g - 1) = Some n →
  store g !! layer n = Some l →
  type l = LayerType.activation →
  addLossLayer_entropy g
  = (Ret (match activation_type l with
          | ACT_SIGMOID => inr LOSS_ENTROPY_SIGMOID
          | ACT_SOFTMAX => inr LOSS_ENTROPY_SOFTMAX
          | _ => inl ML_ERROR_NOT_SUPPORTED
          end), popped g).
Proof.
  intros Hwf Hpos Hn Hl Hty.
  pose proof (getLayerNode_last_wf g n Hwf Hpos Hn) as Hlast.
  unfold addLossLayer_entropy.
  rewrite (bind_run get _ g g g eq_refl).
  rewrite (bind_run (lift _) _ g n g) by (unfold lift; by rewrite Hlast).
  rewrite (bind_run _ _ _ _ _ (deref_run _ _ _ Hl)).
  rewrite bool_decide_eq_true_2 by done. cbn [negb].
  rewrite (bind_run (lift _) _ g n g) by (unfold lift; by rewrite Hlast).
  assert (pop_node g = (Ret tt, popped g)) as Hpop.
  { unfold pop_node, bind, get, modify, popped.
    destruct Hwf as [Hlen _].
    destruct (adj g) as [|r rs]; [simpl in Hlen; lia|done]. }
  rewrite (bind_run _ _ _ _ _ Hpop).
  assert (store (popped g) !! layer n = Some l) as Hl' by done.
  rewrite (bind_run _ _ _ _ _ (deref_run _ _ _ Hl')).
  by destruct (activation_type l).
Qed.

(** C1 (as the code behaves).  When the last node is an activation
    layer whose kind is neither sigmoid nor softmax, [addLossLayer]
    with [LOSS_ENTROPY] returns [ML_ERROR_NOT_SUPPORTED]; the state it
    leaves is the one after [adj.pop_back(); num_node--;]: the
    activation node is gone, nothing else has changed and no loss node
    was added. *)
Theorem addLossLayer_entropy_rejected
    (g : NetworkGraph) (n : LayerNode) (l : Layer) :
  wf_nodes g →
  0 < num_node g →
  node_at g (num_node g - 1) = Some n →
  store g !! layer n = Some l →
  type l = LayerType.activation →
  activation_type l ≠ ACT_SIGMOID →
  activation_type l ≠ ACT_SOFTMAX →
  addLossLayer LOSS_ENTROPY g = (Ret ML_ERROR_NOT_SUPPORTED, popped g).
Proof.
  intros Hwf Hpos Hn Hl Hty Hsig Hsoft.
  unfold addLossLayer. rewrite (bind_run get _ g g g eq_refl).
  assert ((num_node g =? 0) = false) as -> by (apply Nat.eqb_neq; lia).
  rewrite bool_decide_eq_true_2 by done.
  rewrite (bind_run _ _ _ _ _ (addLossLayer_entropy_run g n l Hwf Hpos Hn Hl Hty)).
  by destruct (activation_type l).
Qed.

(** ** addLossLayer: attaching the loss node *)

Lemma wf_nodes_set_store g st : wf_nodes g → wf_nodes (set_store st g).
Proof. done. Qed.

Lemma wf_nodes_set_count g c : wf_nodes g → wf_nodes (set_def_name_count c g).
Proof. done. Qed.

Lemma addLossLayer_attach_run g p pl t :
  wf_nodes g →
  0 < num_node g →
  node_at g (num_node g - 1) = Some p →
  store g !! layer p = Some pl →
  ∃ c',
    addLossLayer_attach t g
    = (Ret ML_ERROR_NONE,
       mkGraph
         (<[layer p := set_output_layers ["loss" +:+ pretty c']
                         (set_num_outputs 1 pl)]> (store g)
          ++ [mkLayer ("loss" +:+ pretty c') LayerType.loss [name pl]
                ["__exit__"] 1 1 [0] [0] ACT_NONE false true t])
         (adj g ++ [[mkNode (length (store g)) (num_node g)]])
         (S (num_node g)) (Sorted g) (layer_names g) (S c')
         (skip_non_trainable_layers g) (aliases g) (untracked g)) ∧
    def_name_count g ≤ c' ∧
    ("loss" +:+ pretty c') ∉ layer_names g.
Proof.
  intros Hwf Hpos Hp Hpl.
  pose proof (lookup_lt_Some _ _ _ Hpl) as Hlt.
  pose proof (getLayerNode_last_wf g p Hwf Hpos Hp) as Hlast.
  destruct (ensureName_run (length (store g)) "" false
              (set_store (store g ++ [createLayer LayerType.loss]) g)
              (createLayer LayerType.loss))
    as (nm & c & Hrun & Hfresh & _ & _ & _ & Hloop); [solve_lookup|].
  destruct Hloop as (c' & -> & -> & Hc' & _); [by left|by left|].
  gsimpl_in Hfresh. simpl "+:+" in *.
  exists c'. split; [|done].
  unfold addLossLayer_attach.
  mstep.
  rewrite (bind_run (lift _) _ g p g) by (unfold lift; by rewrite Hlast).
  do 2 mstep.
  gsimpl_in Hrun. rewrite insert_snoc in Hrun by done.
  rewrite (bind_run _ _ _ _ _ Hrun). clear Hrun.
  mstep.
  match goal with |- bind (lift _) _ ?s = _ =>
    rewrite (bind_run (lift _) _ s p s) by (unfold lift; by rewrite <- Hlast)
  end.
  do 8 mstep.
  cbn [length Nat.eqb].
  do 6 mstep. unfold setLoss. mstep.
  unfold NN_RETURN_STATUS. rewrite decide_True by done. unfold addLayerNode.
  mstep.
  match goal with |- bind (ensureName ?h _ _) _ ?s = _ =>
    destruct (ensureName_run h "" false s
                (mkLayer ("loss" +:+ pretty c') LayerType.loss [name pl]
                   ["__exit__"] 1 1 [0] [0] ACT_NONE false true t))
      as (nm & c & Hrun & _ & _ & Hkeep & _); [solve_lookup|]
  end.
  destruct Hkeep as [-> ->]; [done|done|done|].
  rewrite (bind_run _ _ _ _ _ Hrun). clear Hrun. gsimpl. norm_store.
  do 5 mstep. reflexivity.
Qed.

(** ** topologicalSort *)

Lemma path_ranked g (rank : nat → nat) :
  (∀ u v, edge g u v → rank u < rank v) →
  ∀ u v, path g u v → rank u < rank v.
Proof.
  intros Hasc u v Hp. induction Hp as [u v He|u v w He _ IH].
  - by apply Hasc.
  - apply Hasc in He. lia.
Qed.

Lemma edges_rankedb_spec rank g : edges_rankedb rank g = true → acyclic g.
Proof.
  intros H u Hp.
  enough (rank u < rank u) by lia.
  eapply (path_ranked g rank); [|exact Hp]. clear u Hp.
  intros u v (row & Hrow & Hv).
  unfold edges_rankedb in H. rewrite forallb_forall in H.
  specialize (H u). rewrite Hrow in H.
  assert (u < length (adj g)) as Hu by (by eapply lookup_lt_Some).
  specialize (H ltac:(apply in_seq; lia)).
  rewrite forallb_forall in H.
  apply list_elem_of_fmap in Hv as (n & -> & Hn).
  apply list_elem_of_In in Hn. specialize (H n Hn). by apply Nat.ltb_lt.
Qed.

Lemma path_snoc g u v w : path g u v → edge g v w → path g u w.
Proof.
  intros Hp He. induction Hp as [u v Huv|u v x Huv _ IH].
  - eapply path_step; [done|]. by apply path_edge.
  - eapply path_step; [done|]. by apply IH.
Qed.

Lemma unvisited_insert vis i :
  vis !! i = Some false → unvisited vis = S (unvisited (<[i := true]> vis)).
Proof.
  unfold unvisited. revert i. induction vis as [|b vis IH]; intros i Hi; [done|].
  destruct i as [|i]; simpl in *.
  - injection Hi as ->. rewrite filter_cons_True by done.
    by rewrite filter_cons_False by done.
  - specialize (IH i Hi). destruct b.
    + rewrite !filter_cons_False by done. done.
    + rewrite !filter_cons_True by done. simpl. by rewrite IH.
Qed.

Lemma unvisited_replicate n : unvisited (replicate n false) = n.
Proof.
  unfold unvisited. induction n as [|n IH]; [done|]. cbn [replicate].
  rewrite filter_cons_True by done. simpl. by rewrite IH.
Qed.

Lemma position_app_notin u s1 s2 :
  u ∉ index <$> s1 →
  position u (s1 ++ s2) = (λ p, length s1 + p) <$> position u s2.
Proof.
  induction s1 as [|n s1 IH]; intros Hnot; simpl.
  - by destruct (position u s2).
  - rewrite fmap_cons, not_elem_of_cons in Hnot. destruct Hnot as [Hne Hnot].
    assert ((index n =? u) = false) as -> by (apply Nat.eqb_neq; congruence).
    rewrite (IH Hnot). by destruct (position u s2).
Qed.

Lemma position_elem u s :
  u ∈ index <$> s → ∃ p, position u s = Some p.
Proof.
  induction s as [|n s IH]; intros Hin; simpl.
  - by apply elem_of_nil in Hin.
  - destruct (index n =? u) eqn:E; [by eexists|].
    apply Nat.eqb_neq in E. rewrite fmap_cons in Hin.
    apply elem_of_cons in Hin as [->|Hin]; [done|].
    destruct (IH Hin) as [p ->]. by eexists.
Qed.

Lemma topologicalSortUtil_S fuel g ith vs :
  topologicalSortUtil (S fuel) g ith vs =
  if decide (ith < length vs.1) then
    match adj g !! ith with
    | Some row =>
        rbind
          (rfold
             (λ vs' n,
                match vs'.1 !! index n with
                | Some false => topologicalSortUtil fuel g (index n) vs'
                | Some true => Ret vs'
                | None => Undefined
                end)
             row (<[ith := true]> vs.1, vs.2))
          (λ vs', rbind (getLayerNode g ith)
                    (λ node, Ret (vs'.1, node :: vs'.2)))
    | None => Undefined
    end
  else Undefined.
Proof. done. Qed.

Lemma marked_unique vis i : marked vis i → vis !! i = Some false → False.
Proof. unfold marked. congruence. Qed.

Lemma on_stack_app s1 s2 i : on_stack (s1 ++ s2) i ↔ on_stack s1 i ∨ on_stack s2 i.
Proof. unfold on_stack. rewrite fmap_app. apply elem_of_app. Qed.

Lemma on_stack_elem stk n : n ∈ stk → on_stack stk (index n).
Proof. intros. unfold on_stack. by apply list_elem_of_fmap_2. Qed.

Section topological_sort.
Variable g : NetworkGraph.
Hypothesis Hwf : wf_nodes g.
Hypothesis Hedges : wf_edges g.
Hypothesis Hacyc : acyclic g.

Lemma unmarked_back vis vis' i :
  length vis = length vis' →
  (∀ x, marked vis x → marked vis' x) →
  vis' !! i = Some false → vis !! i = Some false.
Proof.
  intros Hlen Hmono Hi.
  assert (i < length vis) as Hlt
    by (rewrite Hlen; by eapply lookup_lt_Some).
  destruct (lookup_lt_is_Some_2 _ _ Hlt) as [[|] Hb]; [|done].
  specialize (Hmono i Hb). unfold marked in Hmono. congruence.
Qed.

Lemma sort_loop fuel ith :
  util_contract g fuel →
  ∀ ns vis stk,
    sort_inv g vis stk →
    marked vis ith →
    ¬ on_stack stk ith →
    (∀ x, marked vis x → ¬ on_stack stk x → x = ith ∨ path g x ith) →
    (∀ n, n ∈ ns →
          index n < num_node g ∧ (index n ≠ ith → edge g ith (index n))) →
    unvisited vis ≤ fuel →
    ∃ vis' new,
      rfold
        (λ vs' n,
           match vs'.1 !! index n with
           | Some false => topologicalSortUtil fuel g (index n) vs'
           | Some true => Ret vs'
           | None => Undefined
           end) ns (vis, stk) = Ret (vis', new ++ stk) ∧
      sort_inv g vis' (new ++ stk) ∧
      (∀ x, marked vis x → marked vis' x) ∧
      (∀ x, marked vis' x → marked vis x ∨ on_stack new x) ∧
      (∀ n, n ∈ new → vis !! index n = Some false) ∧
      (∀ n, n ∈ ns → marked vis' (index n)) ∧
      unvisited vis' ≤ unvisited vis.
Proof.
  intros IHutil ns. induction ns as [|n ns IHns];
    intros vis stk Hinv Hith Hoff Hgray Hns Hfuel.
  - exists vis, []. simpl. split_and!; auto.
    + intros n Hn. by apply elem_of_nil in Hn.
    + intros n Hn. by apply elem_of_nil in Hn.
  - destruct (Hns n ltac:(left)) as [Hlt Hedge].
    rewrite <- (inv_len _ _ _ Hinv) in Hlt.
    destruct (lookup_lt_is_Some_2 _ _ Hlt) as [b Hb].
    cbn [rfold fst]. rewrite Hb. destruct b.
    + cbn [rbind].
      destruct (IHns vis stk) as (vis' & new & Hrun & Hinv' & Hmono & Hnew & Hfresh & Hall & Hcnt);
        auto.
      { intros m Hm. apply Hns. by right. }
      exists vis', new. split_and!; auto.
      intros m Hm. apply elem_of_cons in Hm as [->|Hm]; [by apply Hmono|auto].
    + assert (index n ≠ ith) as Hne.
      { intros Heq. rewrite Heq in Hb. by eapply marked_unique. }
      destruct (IHutil (index n) vis stk) as
        (vis1 & new1 & Hrun1 & Hinv1 & Hmono1 & Hnew1 & Hon1 & Hfresh1 & Hcnt1);
        auto.
      { intros x Hx Hxoff. destruct (Hgray x Hx Hxoff) as [->|Hp].
        - apply path_edge. auto.
        - eapply path_snoc; eauto. }
      rewrite Hrun1. cbn [rbind].
      destruct (IHns vis1 (new1 ++ stk)) as
        (vis2 & new2 & Hrun2 & Hinv2 & Hmono2 & Hnew2 & Hfresh2 & Hall2 & Hcnt2);
        auto.
      { rewrite on_stack_app. intros [Hin|Hin]; [|done].
        unfold on_stack in Hin. apply list_elem_of_fmap in Hin as (m & Hm & Hin).
        specialize (Hfresh1 m Hin). rewrite <- Hm in Hfresh1.
        by eapply marked_unique. }
      { intros x Hx Hxoff. rewrite on_stack_app in Hxoff.
        destruct (Hnew1 x Hx) as [Hold|Hon]; [|tauto].
        apply Hgray; tauto. }
      { intros m Hm. apply Hns. by right. }
      { lia. }
      exists vis2, (new2 ++ new1). rewrite <- !app_assoc.
      split; [done|]. split; [done|]. split; [auto|]. split.
      { intros x Hx. rewrite on_stack_app.
        destruct (Hnew2 x Hx) as [Hx1|?]; [|tauto].
        destruct (Hnew1 x Hx1); tauto. }
      split.
      { intros m Hm. apply elem_of_app in Hm as [Hm|Hm]; [|auto].
        eapply (unmarked_back vis vis1); eauto.
        rewrite (inv_len _ _ _ Hinv). by rewrite (inv_len _ _ _ Hinv1). }
      split; [|lia].
      intros m Hm. apply elem_of_cons in Hm as [->|Hm]; [|auto].
      apply Hmono2. unfold on_stack in Hon1.
      apply list_elem_of_fmap in Hon1 as (m & Hm & Hin).
      rewrite Hm. apply (inv_marked _ _ _ Hinv1). apply elem_of_app. by left.
Qed.

Lemma row_of_node ith :
  ith < num_node g →
  ∃ hd tl, adj g !! ith = Some (hd :: tl) ∧ index hd = ith ∧
           node_at g ith = Some hd.
Proof.
  intros Hlt. destruct Hwf as [_ Hrows]. specialize (Hrows ith Hlt).
  unfold node_at in *. destruct (adj g !! ith) as [[|hd tl]|]; try done.
  simpl in Hrows. injection Hrows as Hhd. by exists hd, tl.
Qed.

Lemma util_contract_all fuel : util_contract g fuel.
Proof.
  induction fuel as [|fuel IH]; intros ith vis stk Hinv Hith Hgray Hfuel.
  { rewrite (unvisited_insert vis ith Hith) in Hfuel. lia. }
  pose proof (lookup_lt_Some _ _ _ Hith) as Hlt.
  rewrite topologicalSortUtil_S. cbn [fst snd].
  rewrite decide_True by done.
  rewrite (inv_len _ _ _ Hinv) in Hlt.
  destruct (row_of_node ith Hlt) as (hd & tl & Hrow & Hhd & Hnode).
  rewrite Hrow.
  assert (¬ on_stack stk ith) as Hoff.
  { intros Hon. unfold on_stack in Hon.
    apply list_elem_of_fmap in Hon as (m & Hm & Hin).
    pose proof (inv_marked _ _ _ Hinv m Hin) as Hmk. rewrite <- Hm in Hmk.
    by eapply marked_unique. }
  assert (marked (<[ith := true]> vis) ith) as Hmk1.
  { apply list_lookup_insert_eq. rewrite (inv_len _ _ _ Hinv). lia. }
  assert (∀ x, marked vis x → marked (<[ith := true]> vis) x) as Hmono1.
  { intros x Hx. unfold marked.
    destruct (decide (x = ith)) as [->|Hne]; [done|].
    by rewrite list_lookup_insert_ne. }
  assert (∀ x, marked (<[ith := true]> vis) x → x = ith ∨ marked vis x)
    as Hback1.
  { intros x Hx. destruct (decide (x = ith)) as [->|Hne]; [by left|right].
    unfold marked in *. by rewrite list_lookup_insert_ne in Hx. }
  destruct (sort_loop fuel ith IH (hd :: tl) (<[ith := true]> vis) stk)
    as (visf & new & Hrun & Hinvf & Hmonof & Hnewf & Hfreshf & Hallf & Hcntf).
  { destruct Hinv. split; auto.
    by rewrite length_insert. }
  { done. }
  { done. }
  { intros x Hx Hxoff. destruct (Hback1 x Hx); auto. }
  { intros n Hn. split.
    - apply (Hedges (hd :: tl)); [|done].
      eapply list_elem_of_lookup_2; eauto.
    - intros Hne. exists (hd :: tl). split; [done|]. simpl.
      apply elem_of_cons in Hn as [->|Hn]; [done|].
      by apply list_elem_of_fmap_2. }
  { pose proof (unvisited_insert vis ith Hith). lia. }
  rewrite Hrun. cbn [rbind fst snd].
  destruct (getLayerNode_wf g ith Hwf Hlt) as (node & Hget & Hnode' & _).
  rewrite Hget. cbn [rbind].
  assert (node = hd) as -> by congruence.
  assert (¬ on_stack (new ++ stk) ith) as Hofff.
  { rewrite on_stack_app. intros [Hon|Hon]; [|done].
    unfold on_stack in Hon. apply list_elem_of_fmap in Hon as (m & Hm & Hin).
    specialize (Hfreshf m Hin). rewrite <- Hm in Hfreshf.
    by eapply marked_unique. }
  exists visf, (hd :: new). split; [done|]. split_and!.
  - destruct Hinvf as [Hlen Hmarked Hnodes Hnodup Hclosed]. split.
    + done.
    + intros n Hn. apply elem_of_cons in Hn as [->|Hn]; [|auto].
      rewrite Hhd. auto.
    + intros n Hn. apply elem_of_cons in Hn as [->|Hn]; [|auto].
      by rewrite Hhd.
    + cbn [app]. rewrite fmap_cons. apply NoDup_cons. split; [|done].
      by rewrite Hhd.
    + intros s1 n s2 Heq v Hev. destruct s1 as [|m s1]; simpl in Heq.
      * injection Heq as <- <-. rewrite Hhd in Hev.
        destruct Hev as (row & Hrow' & Hv).
        assert (row = hd :: tl) as -> by congruence. simpl in Hv.
        apply list_elem_of_fmap in Hv as (n & -> & Hn).
        specialize (Hallf n ltac:(by right)).
        assert (edge g ith (index n)) as He.
        { exists (hd :: tl). split; [done|]. simpl.
          by apply list_elem_of_fmap_2. }
        destruct (Hnewf _ Hallf) as [Hold|Hon].
        -- destruct (Hback1 _ Hold) as [Heq|Hold'].
           { exfalso. apply (Hacyc ith). apply path_edge. by rewrite <- Heq at 2. }
           destruct (decide (index n ∈ index <$> stk)) as [Hin|Hnin].
           { rewrite fmap_app. apply elem_of_app. by right. }
           exfalso. apply (Hacyc (index n)).
           eapply path_snoc; [|exact He]. by apply Hgray.
        -- rewrite fmap_app. apply elem_of_app. by left.
      * injection Heq as <- Heq. eapply Hclosed; eauto.
  - auto.
  - intros x Hx. destruct (Hnewf x Hx) as [Hold|Hon].
    + destruct (Hback1 x Hold) as [->|?]; [|by left].
      right. unfold on_stack. rewrite fmap_cons, Hhd. by left.
    + right. unfold on_stack in *. rewrite fmap_cons. by right.
  - unfold on_stack. rewrite fmap_cons, Hhd. by left.
  - intros n Hn. apply elem_of_cons in Hn as [->|Hn]; [by rewrite Hhd|].
    specialize (Hfreshf n Hn).
    destruct (decide (index n = ith)) as [Heq|Hne].
    + rewrite Heq in Hfreshf. exfalso. by eapply marked_unique.
    + by rewrite list_lookup_insert_ne in Hfreshf.
  - pose proof (unvisited_insert vis ith Hith). lia.
Qed.

Lemma roots_loop fuel :
  ∀ range vis stk,
    sort_inv g vis stk →
    (∀ x, marked vis x → on_stack stk x) →
    (∀ i, i ∈ range → i < num_node g) →
    unvisited vis ≤ fuel →
    ∃ vis' stk',
      rfold
        (λ vs i,
           match vs.1 !! i with
           | Some false => topologicalSortUtil fuel g i vs
           | Some true => Ret vs
           | None => Undefined
           end) range (vis, stk) = Ret (vis', stk') ∧
      sort_inv g vis' stk' ∧
      (∀ x, marked vis' x → on_stack stk' x) ∧
      (∀ x, marked vis x → marked vis' x) ∧
      (∀ i, i ∈ range → marked vis' i) ∧
      unvisited vis' ≤ unvisited vis.
Proof.
  intros range. induction range as [|i range IH];
    intros vis stk Hinv Hdone Hrange Hfuel.
  - exists vis, stk. simpl. split_and!; auto.
    intros i Hi. by apply elem_of_nil in Hi.
  - pose proof (Hrange i ltac:(left)) as Hlt.
    rewrite <- (inv_len _ _ _ Hinv) in Hlt.
    destruct (lookup_lt_is_Some_2 _ _ Hlt) as [b Hb].
    cbn [rfold fst]. rewrite Hb. destruct b; cbn [rbind].
    + destruct (IH vis stk) as (vis' & stk' & Hrun & Hinv' & Hdone' & Hmono & Hall & Hcnt);
        auto.
      { intros j Hj. apply Hrange. by right. }
      exists vis', stk'. split_and!; auto.
      intros j Hj. apply elem_of_cons in Hj as [->|Hj]; auto.
    + destruct (util_contract_all fuel i vis stk) as
        (vis1 & new1 & Hrun1 & Hinv1 & Hmono1 & Hnew1 & Hon1 & Hfresh1 & Hcnt1);
        auto.
      { intros x Hx Hoff. exfalso. auto. }
      rewrite Hrun1. cbn [rbind].
      destruct (IH vis1 (new1 ++ stk)) as
        (vis' & stk' & Hrun & Hinv' & Hdone' & Hmono & Hall & Hcnt); auto.
      { intros x Hx. rewrite on_stack_app.
        destruct (Hnew1 x Hx); auto. }
      { intros j Hj. apply Hrange. by right. }
      { lia. }
      exists vis', stk'. split_and!; auto with lia.
      intros j Hj. apply elem_of_cons in Hj as [->|Hj]; auto.
      apply Hmono. unfold on_stack in Hon1.
      apply list_elem_of_fmap in Hon1 as (m & Hm & Hin).
      rewrite Hm. apply (inv_marked _ _ _ Hinv1). apply elem_of_app. by left.
Qed.

Lemma topologicalSort_roots_run fuel :
  num_node g ≤ fuel →
  ∃ vis stk,
    topologicalSort_roots fuel g = Ret (vis, stk) ∧
    sort_inv g vis stk ∧
    ∀ i, i < num_node g → on_stack stk i.
Proof.
  intros Hfuel. unfold topologicalSort_roots.
  destruct (roots_loop fuel (seq 0 (num_node g))
              (replicate (num_node g) false) [])
    as (vis & stk & Hrun & Hinv & Hdone & _ & Hall & _).
  - split.
    + by rewrite length_replicate.
    + intros n Hn. by apply elem_of_nil in Hn.
    + intros n Hn. by apply elem_of_nil in Hn.
    + simpl. apply NoDup_nil_2.
    + intros [|] ? ? ?; done.
  - intros x Hx. unfold marked in Hx.
    apply lookup_replicate in Hx as [? _]. done.
  - intros i Hi. apply elem_of_seq in Hi. lia.
  - by rewrite unvisited_replicate.
  - exists vis, stk. split; [done|]. split; [done|].
    intros i Hi. apply Hdone, Hall. apply elem_of_seq. lia.
Qed.

Lemma sorted_stack_order vis stk u v :
  sort_inv g vis stk →
  (∀ i, i < num_node g → on_stack stk i) →
  edge g u v →
  ∃ pu pv, position u stk = Some pu ∧ position v stk = Some pv ∧ pu < pv.
Proof.
  intros Hinv Hall He.
  assert (u < num_node g) as Hu.
  { destruct He as (row & Hrow & _). destruct Hwf as [<- _].
    by eapply lookup_lt_Some. }
  specialize (Hall u Hu). unfold on_stack in Hall.
  apply list_elem_of_fmap in Hall as (n & -> & Hn).
  apply list_elem_of_split in Hn as (s1 & s2 & ->).
  pose proof (inv_closed _ _ _ Hinv s1 n s2 eq_refl v He) as Hv.
  pose proof (inv_nodup _ _ _ Hinv) as Hnd.
  rewrite fmap_app, fmap_cons in Hnd.
  apply NoDup_app in Hnd as (_ & Hdisj & Hnd2).
  apply NoDup_cons in Hnd2 as [Hnotin _].
  assert (index n ∉ index <$> s1) as Hn1.
  { intros Hin. apply (Hdisj _ Hin). by left. }
  assert (v ∉ index <$> s1) as Hv1.
  { intros Hin. apply (Hdisj _ Hin). by right. }
  assert (v ≠ index n) as Hvn by (intros ->; done).
  destruct (position_elem v s2 Hv) as [p Hp].
  exists (length s1 + 0), (length s1 + S p).
  rewrite !position_app_notin by done. simpl.
  rewrite Nat.eqb_refl.
  assert ((index n =? v) = false) as -> by (apply Nat.eqb_neq; congruence).
  rewrite Hp. simpl. split_and!; auto with lia.
Qed.

Lemma sorted_stack_nodes vis stk :
  sort_inv g vis stk → ∀ n, n ∈ stk → n ∈ nodes g.
Proof.
  intros Hinv n Hn. pose proof (inv_nodes _ _ _ Hinv n Hn) as Hnode.
  unfold node_at, nodes in *.
  destruct (adj g !! index n) as [row|] eqn:Hrow; [|done].
  apply list_elem_of_omap. exists row. split; [|done].
  eapply list_elem_of_lookup_2; eauto.
Qed.
End topological_sort.

Lemma wf_store_elem g n :
  wf_store g → n ∈ nodes g → is_Some (store g !! layer n).
Proof. unfold wf_store. rewrite Forall_forall. auto. Qed.

(** ** Sorted nodes are graph nodes *)

Lemma rfold_inv {A S} (P : S → Prop) (f : S → A → result S) l :
  (∀ s x s', x ∈ l → f s x = Ret s' → P s → P s') →
  ∀ s s', rfold f l s = Ret s' → P s → P s'.
Proof.
  induction l as [|x l IH]; intros Hstep s s' Hrun Hs; simpl in Hrun.
  - by injection Hrun as <-.
  - destruct (f s x) as [s1| | |] eqn:Hf; try done. simpl in Hrun.
    eapply IH; [|exact Hrun|].
    + intros ? ? ? ?. apply Hstep. by right.
    + eapply Hstep; [by left|done|done].
Qed.

Lemma getLayerNode_loop_nodes rows ith range n :
  getLayerNode_loop rows ith range = Ret n → n ∈ omap head rows.
Proof.
  induction range as [|i range IH]; simpl; [done|].
  destruct (rows !! i) as [[|m row]|] eqn:Hrow; try done.
  destruct (index m =? ith); [|done].
  intros [= <-]. apply list_elem_of_omap. exists (m :: row).
  split; [|done]. eapply list_elem_of_lookup_2; eauto.
Qed.

Lemma topologicalSortUtil_nodes g fuel :
  ∀ ith vs vs',
    topologicalSortUtil fuel g ith vs = Ret vs' →
    (∀ n, n ∈ vs.2 → n ∈ nodes g) → ∀ n, n ∈ vs'.2 → n ∈ nodes g.
Proof.
  induction fuel as [|fuel IH]; intros ith vs vs' Hrun Hvs; [done|].
  rewrite topologicalSortUtil_S in Hrun.
  destruct (decide (ith < length vs.1)); [|done].
  destruct (adj g !! ith) as [row|]; [|done].
  match type of Hrun with rbind ?r _ = _ => destruct r as [vs1| | |] eqn:Hloop end;
    try done.
  cbn [rbind] in Hrun.
  destruct (getLayerNode g ith) as [node| | |] eqn:Hget; try done.
  cbn [rbind] in Hrun. injection Hrun as <-. cbn [snd].
  assert (∀ n, n ∈ vs1.2 → n ∈ nodes g) as Hvs1.
  { eapply (rfold_inv (λ s : list bool * list LayerNode,
                         ∀ n, n ∈ s.2 → n ∈ nodes g)); [|exact Hloop|exact Hvs].
    intros s x s' _ Hstep Hs. cbn beta in Hstep.
    destruct (s.1 !! index x) as [[|]|]; try done.
    - by injection Hstep as <-.
    - by eapply IH. }
  intros n Hn. apply elem_of_cons in Hn as [->|Hn]; [|auto].
  by eapply getLayerNode_loop_nodes.
Qed.

Lemma topologicalSort_sorted_nodes g fuel r g' :
  topologicalSort fuel g = (r, g') →
  (∀ n, n ∈ Sorted g → n ∈ nodes g) →
  ∀ n, n ∈ Sorted g' → n ∈ nodes g.
Proof.
  unfold topologicalSort, bind, get, lift, modify.
  destruct (topologicalSort_roots fuel g) as [vs| | |] eqn:Hroots;
    try (intros [= <- <-]; done).
  unfold countNonTrainableLayersAtBegin, bind, get, lift, modify, ret.
  cbn [store Sorted set_Sorted].
  assert (∀ n, n ∈ vs.2 → n ∈ nodes g) as Hvs.
  { unfold topologicalSort_roots in Hroots.
    eapply (rfold_inv (λ s : list bool * list LayerNode,
                         ∀ n, n ∈ s.2 → n ∈ nodes g)); [|exact Hroots|].
    - intros s x s' _ Hstep Hs. cbn beta in Hstep.
      destruct (s.1 !! x) as [[|]|]; try done.
      + by injection Hstep as <-.
      + by eapply topologicalSortUtil_nodes.
    - intros n Hn. by apply elem_of_nil in Hn. }
  intros Hrun Hold n Hn.
  assert (Sorted g' = Sorted g ++ vs.2) as Heq.
  { destruct (first_trainable _ _ _) as [[p|]| | |];
      injection Hrun as <- <-; done. }
  rewrite Heq in Hn. apply elem_of_app in Hn as [Hn|Hn]; auto.
Qed.

(** ** setEdge keeps the nodes *)

Lemma forM_inv {A} (P : NetworkGraph → Prop) (body : A → M unit) l :
  (∀ x s r s', body x s = (r, s') → P s → P s') →
  ∀ s r s', forM_ l body s = (r, s') → P s → P s'.
Proof.
  intros Hbody. induction l as [|x l IH]; intros s r s' Hrun Hs; simpl in Hrun.
  - by injection Hrun as <- <-.
  - unfold bind in Hrun. destruct (body x s) as [[[]| | |] s1] eqn:Hb;
      try (injection Hrun as <- <-; by eapply Hbody).
    eapply IH; [exact Hrun|]. by eapply Hbody.
Qed.

Lemma addEdge_same_nodes g ith node s r s' :
  wf_nodes g → same_nodes g s →
  addEdge ith node s = (r, s') → same_nodes g s'.
Proof.
  intros [Hlen Hrows] (Hst & Hnum & Hsorted & Hadj & Hnodes).
  unfold addEdge, bind, get, throw, modify, undefined.
  destruct (negb (num_node s =? 0) && (num_node s - 1 <? ith));
    [by intros [= <- <-]|].
  destruct (adj s !! ith) as [row|] eqn:Hrow; [|by intros [= <- <-]].
  intros [= <- <-]. unfold same_nodes, node_at in *. cbn.
  rewrite length_insert. split_and!; try done.
  intros i. rewrite <- Hnodes.
  destruct (decide (i = ith)) as [->|Hne]; [|by rewrite list_lookup_insert_ne].
  rewrite list_lookup_insert_eq by (by eapply lookup_lt_Some).
  rewrite Hrow. simpl.
  pose proof (lookup_lt_Some _ _ _ Hrow) as Hlt.
  specialize (Hrows ith ltac:(lia)). rewrite <- Hnodes, Hrow in Hrows.
  by destruct row.
Qed.

Lemma setEdge_same_nodes g r g' :
  wf_nodes g → setEdge g = (r, g') → same_nodes g g'.
Proof.
  intros Hwf. unfold setEdge.
  rewrite (bind_run get _ g g g eq_refl). unfold bind.
  destruct (forM_ _ _ g) as [r0 s] eqn:Hloop.
  assert (same_nodes g s) as Hs.
  { eapply (forM_inv (same_nodes g)); [|exact Hloop|done].
    clear Hloop. intros i s1 r1 s1'. unfold setEdge_row.
    rename s1 into t.
    rewrite (bind_run get _ t t t eq_refl).
    destruct (adj t !! i) as [[|node row]|]; try (by intros [= <- <-]).
    unfold bind at 1. unfold deref.
    destruct (store t !! layer node) as [l|]; [|by intros [= <- <-]].
    destruct (input_dim l !! 0) as [d|]; [|by intros [= <- <-]].
    destruct (negb (d =? 0)); [by intros [= <- <-]|].
    apply forM_inv. intros inp u r2 u'.
    destruct (istrequal inp "__data__"); [by intros [= <- <-]|].
    rewrite (bind_run get _ u u u eq_refl). unfold bind at 1. unfold lift.
    destruct (getLayerNode_name u inp); try (by intros [= <- <-]).
    intros Hrun Hu. eapply addEdge_same_nodes; eauto. }
  destruct r0; intros [= <- <-]; done.
Qed.

Lemma omap_head_ext (l1 l2 : list (list LayerNode)) :
  length l1 = length l2 →
  (∀ i, (l1 !! i ≫= head) = (l2 !! i ≫= head)) →
  omap head l1 = omap head l2.
Proof.
  revert l2. induction l1 as [|r1 l1 IH]; intros [|r2 l2] Hlen Hext;
    try done.
  simpl in Hlen. pose proof (Hext 0) as H0. simpl in H0.
  cbn [omap list_omap]. rewrite H0.
  rewrite (IH l2); [done|lia|]. intros i. apply (Hext (S i)).
Qed.

Lemma same_nodes_nodes g s : same_nodes g s → nodes s = nodes g.
Proof.
  intros (_ & _ & _ & Hlen & Hnodes). by apply omap_head_ext.
Qed.

Lemma nodes_elem_node_at g n : n ∈ nodes g → ∃ i, node_at g i = Some n.
Proof.
  unfold nodes, node_at. intros Hn.
  apply list_elem_of_omap in Hn as (row & Hrow & Hhead).
  apply list_elem_of_lookup in Hrow as [i Hi]. exists i. by rewrite Hi.
Qed.

(** ** addLossLayer: cross entropy fused with the activation *)

(** C5 (as the code behaves).  With at least one node before the final
    activation node, and that activation softmax or sigmoid,
    [addLossLayer] with [LOSS_ENTROPY] succeeds: the activation node's
    row is removed, one loss node is appended in its place, the loss
    layer records the fused loss kind and takes as its only input the
    name of the node that is now last, whose only output becomes the
    loss layer.  The removed activation node is not a node of the
    resulting graph and does not occur in the order a later
    [setEdge] and [topologicalSort] produce. *)
Theorem addLossLayer_entropy_fused
    (g : NetworkGraph) (act p : LayerNode) (al pl : Layer) :
  wf_nodes g →
  2 ≤ num_node g →
  node_at g (num_node g - 1) = Some act →
  store g !! layer act = Some al →
  type al = LayerType.activation →
  activation_type al = ACT_SOFTMAX ∨ activation_type al = ACT_SIGMOID →
  node_at g (num_node g - 2) = Some p →
  store g !! layer p = Some pl →
  Sorted g = [] →
  ∃ (c' : nat) g',
    addLossLayer LOSS_ENTROPY g = (Ret ML_ERROR_NONE, g') ∧
    adj g' = take (num_node g - 1) (adj g)
             ++ [[mkNode (length (store g)) (num_node g - 1)]] ∧
    num_node g' = num_node g ∧
    store g' !! length (store g)
      = Some (mkLayer ("loss" +:+ pretty c') LayerType.loss [name pl]
                ["__exit__"] 1 1 [0] [0] ACT_NONE false true
                (fused_loss (activation_type al))) ∧
    store g' !! layer p
      = Some (set_output_layers ["loss" +:+ pretty c'] (set_num_outputs 1 pl)) ∧
    (act ∉ nodes g') ∧
    ∀ fuel r1 g2 r2 g3,
      setEdge g' = (r1, g2) → topologicalSort fuel g2 = (r2, g3) →
      act ∉ Sorted g3.
Proof.
  intros Hwf Hnum Hact Hal Hty Hkind Hp Hpl Hsorted.
  pose proof (addLossLayer_entropy_run g act al Hwf ltac:(lia) Hact Hal Hty)
    as Hent.
  pose proof (wf_nodes_popped g Hwf) as Hwfp.
  assert (node_at (popped g) (num_node (popped g) - 1) = Some p) as Hp'.
  { destruct Hwf as [Hlen _]. unfold popped, node_at in *. cbn.
    rewrite lookup_take_lt by lia.
    by replace (num_node g - 1 - 1) with (num_node g - 2) by lia. }
  destruct (addLossLayer_attach_run (popped g) p pl
              (fused_loss (activation_type al)) Hwfp)
    as (c' & Hattach & _ & _); [cbn; lia|done|done|].
  assert (addLossLayer LOSS_ENTROPY g
          = addLossLayer_attach (fused_loss (activation_type al)) (popped g))
    as Hrun.
  { unfold addLossLayer. rewrite (bind_run get _ g g g eq_refl).
    assert ((num_node g =? 0) = false) as -> by (apply Nat.eqb_neq; lia).
    rewrite bool_decide_eq_true_2 by done.
    rewrite (bind_run _ _ _ _ _ Hent).
    by destruct Hkind as [-> | ->]. }
  rewrite Hattach in Hrun. clear Hattach Hent.
  exists c'. eexists. split; [exact Hrun|]. clear Hrun.
  pose proof (lookup_lt_Some _ _ _ Hpl) as Hplt.
  pose proof (lookup_lt_Some _ _ _ Hal) as Halt.
  destruct Hwf as [Hlen Hrows].
  cbn [adj num_node store popped set_num_node set_adj].
  rewrite Hlen.
  assert (S (num_node g - 1) = num_node g) as -> by lia.
  split; [done|]. split; [done|].
  split; [by apply lookup_snoc; rewrite length_insert|].
  split.
  { rewrite lookup_snoc_lt by (by rewrite length_insert).
    by rewrite list_lookup_insert_eq. }
  match goal with |- (_ ∉ nodes ?s) ∧ _ => set (g' := s) end.
  assert (wf_nodes g') as Hwf'.
  { split; cbn; [rewrite length_app, length_take; simpl; lia|].
    intros i Hi. unfold node_at. cbn.
    destruct (decide (i = num_node g - 1)) as [->|Hne].
    - rewrite lookup_snoc by (rewrite length_take; lia). done.
    - rewrite lookup_snoc_lt by (rewrite length_take; lia).
      rewrite lookup_take_lt by lia. apply Hrows. lia. }
  assert (act ∉ nodes g') as Hnot.
  { intros Hin. apply nodes_elem_node_at in Hin as [i Hi].
    unfold node_at in Hi. cbn in Hi.
    destruct (decide (i < num_node g - 1)) as [Hlt|Hge].
    - rewrite lookup_snoc_lt in Hi by (rewrite length_take; lia).
      rewrite lookup_take_lt in Hi by lia.
      pose proof (Hrows i ltac:(lia)) as Hidx. unfold node_at in Hidx.
      rewrite Hi in Hidx. injection Hidx as Hidx.
      pose proof (Hrows (num_node g - 1) ltac:(lia)) as Hidx'.
      rewrite Hact in Hidx'. injection Hidx' as Hidx'. lia.
    - destruct (decide (i = num_node g - 1)) as [->|Hne].
      + rewrite lookup_snoc in Hi by (rewrite length_take; lia).
        injection Hi as <-. cbn in Halt. lia.
      + rewrite lookup_ge_None_2 in Hi; [done|].
        rewrite length_app, length_take. simpl. lia. }
  split; [done|].
  intros fuel r1 g2 r2 g3 Hedge Hsort Hin.
  pose proof (setEdge_same_nodes g' r1 g2 Hwf' Hedge) as Hsame.
  apply Hnot. rewrite <- (same_nodes_nodes _ _ Hsame).
  eapply topologicalSort_sorted_nodes; [exact Hsort| |exact Hin].
  destruct Hsame as (_ & _ & -> & _). cbn. rewrite Hsorted.
  intros n Hn. by apply elem_of_nil in Hn.
Qed.

(** ** realizeMultiInputType *)

(** C7.  For a layer that is neither an addition nor a concat layer and
    declares three inputs, lines 429-433 of [setGraphNode] succeed and
    add exactly one node, at the end of the graph: a new addition layer
    whose inputs are the three declared names, with three input slots
    and one output slot.  The original layer is left with one input,
    the name given to that addition layer. *)
Theorem setGraphNode_multi_input_three
    (g : NetworkGraph) (l : handle) (cur : Layer) (a b c : string) :
  store g !! l = Some cur →
  type cur ≠ LayerType.addition →
  type cur ≠ LayerType.concat →
  num_inputs cur = 3 →
  input_layers cur = [a; b; c] →
  ∃ (k : nat),
    let nm := (name cur +:+ LayerType.addition) +:+ pretty k in
    setGraphNode_multi_input l g
    = (Ret ML_ERROR_NONE,
       mkGraph
         (<[l := set_input_layers [nm] (set_num_inputs 1 cur)]> (store g)
          ++ [mkLayer nm LayerType.addition [a; b; c] [] 3 1 [0; 0; 0] [0]
                ACT_NONE false true LOSS_UNKNOWN])
         (adj g ++ [[mkNode (length (store g)) (num_node g)]])
         (S (num_node g)) (Sorted g) (layer_names g) (S k)
         (skip_non_trainable_layers g) (aliases g) (untracked g)).
Proof.
  intros Hcur Hadd Hcat Hnum Hins.
  pose proof (lookup_lt_Some _ _ _ Hcur) as Hlt.
  destruct (ensureName_run (length (store g)) (name cur) false
              (set_store (store g ++ [createLayer LayerType.addition]) g)
              (createLayer LayerType.addition))
    as (nm & c0 & Hrun & Hfresh & _ & _ & _ & Hloop); [solve_lookup|].
  destruct Hloop as (k & -> & -> & _ & _); [by left|by left|].
  cbn [createLayer name type] in Hrun, Hfresh.
  rewrite bool_decide_eq_true_2 in Hrun, Hfresh by done.
  gsimpl_in Hfresh.
  exists k. cbn zeta.
  unfold setGraphNode_multi_input. mstep.
  rewrite !bool_decide_eq_false_2 by done. cbn [negb andb].
  unfold realizeMultiInputType. mstep.
  rewrite Hnum. cbn [Nat.eqb]. mstep.
  gsimpl_in Hrun. rewrite insert_snoc in Hrun by done.
  rewrite (bind_run _ _ _ _ _ Hrun). clear Hrun.
  do 8 mstep. unfold addLayerNode. mstep.
  match goal with |- bind (ensureName ?h _ _) _ ?s = _ =>
    destruct (ensureName_run h "" false s
                (mkLayer ((name cur +:+ LayerType.addition) +:+ pretty k)
                   LayerType.addition [a; b; c] [] 3 1 [0; 0; 0] [0]
                   ACT_NONE false true LOSS_UNKNOWN))
      as (nm & c0 & Hrun & _ & _ & Hkeep & _);
      [gsimpl; rewrite lookup_snoc by solve_len; by rewrite Hins|]
  end.
  destruct Hkeep as [-> ->]; [|done|done|].
  { apply string_app_nonempty_l, string_app_nonempty_r. done. }
  rewrite (bind_run _ _ _ _ _ Hrun). clear Hrun. gsimpl. norm_store.
  do 5 mstep. reflexivity.
Qed.

(** ** inPlaceOptimize *)

Lemma pass_step_refl s : pass_step s s.
Proof. split_and!; try done. exists []. by rewrite app_nil_r. Qed.

Lemma pass_step_trans s1 s2 s3 :
  pass_step s1 s2 → pass_step s2 s3 → pass_step s1 s3.
Proof.
  intros (Hst & Hadj & Hso & m1 & Hm1) (Hst' & Hadj' & Hso' & m2 & Hm2).
  split_and!; try congruence.
  exists (m1 ++ m2). by rewrite Hm2, Hm1, app_assoc.
Qed.

Lemma forM_step {A} (R : NetworkGraph → NetworkGraph → Prop)
    (body : A → M unit) l :
  (∀ s, R s s) →
  (∀ s1 s2 s3, R s1 s2 → R s2 s3 → R s1 s3) →
  (∀ x s r s', body x s = (r, s') → R s s') →
  ∀ s r s', forM_ l body s = (r, s') → R s s'.
Proof.
  intros Hrefl Htrans Hbody. induction l as [|x l IH]; intros s r s' Hrun;
    simpl in Hrun.
  - injection Hrun as <- <-. apply Hrefl.
  - unfold bind in Hrun. destruct (body x s) as [[[]| | |] s1] eqn:Hb;
      try (injection Hrun as <- <-; by eapply Hbody).
    eapply Htrans; [by eapply Hbody|by eapply IH].
Qed.

Lemma forM_elem {A} (R : NetworkGraph → NetworkGraph → Prop)
    (body : A → M unit) l :
  (∀ s, R s s) →
  (∀ s1 s2 s3, R s1 s2 → R s2 s3 → R s1 s3) →
  (∀ x s r s', body x s = (r, s') → R s s') →
  ∀ x s s', x ∈ l → forM_ l body s = (Ret tt, s') →
    ∃ s1 s2, R s s1 ∧ body x s1 = (Ret tt, s2) ∧ R s2 s'.
Proof.
  intros Hrefl Htrans Hbody x. induction l as [|y l IH]; intros s s' Hx Hrun.
  - by apply elem_of_nil in Hx.
  - simpl in Hrun. unfold bind in Hrun.
    destruct (body y s) as [[[]| | |] s1] eqn:Hb; try done.
    apply elem_of_cons in Hx as [->|Hx].
    + exists s, s1. split_and!; [apply Hrefl|done|].
      by eapply (forM_step R body l).
    + destruct (IH s1 s' Hx Hrun) as (t1 & t2 & Ht1 & Ht & Ht2).
      exists t1, t2. split_and!; [|done|done].
      eapply Htrans; [by eapply Hbody|done].
Qed.

Lemma existsb_in_place t :
  existsb (λ t', bool_decide (t = t')) in_place_layers = false →
  t ∉ in_place_layers.
Proof.
  intros Hex Hin. apply list_elem_of_In in Hin.
  assert (existsb (λ t', bool_decide (t = t')) in_place_layers = true) as Ht.
  { apply existsb_exists. exists t. split; [done|]. by apply bool_decide_eq_true. }
  congruence.
Qed.

Lemma single_input (ins : list string) inp :
  (length ins =? 1) = true → ins !! 0 = Some inp → ins = [inp].
Proof.
  intros Hlen Hinp. apply Nat.eqb_eq in Hlen.
  destruct ins as [|x [|y ins]]; simpl in *; try done. congruence.
Qed.

(** One sorted node: either nothing is recorded, or exactly one
    decision for this node, and then the call returned. *)
Lemma inPlaceOptimize_node_step g t n s r s' :
  t ∈ in_place_layers →
  store s = store g → adj s = adj g →
  inPlaceOptimize_node t n s = (r, s') →
  store s' = store s ∧ adj s' = adj s ∧ Sorted s' = Sorted s ∧
  (aliases s' = aliases s ∨
   ∃ a, aliases s' = aliases s ++ [a] ∧ alias_node a = layer n ∧
        alias_ok g a ∧ r = Ret tt ∧
        (t = LayerType.batch_normalization → alias_kind a = AliasBatchNorm)).
Proof.
  intros Ht Hst Hadj.
  unfold inPlaceOptimize_node, bind, deref, get, lift, throw, undefined,
    modify, ret.
  destruct (store s !! layer n) as [l|] eqn:Hl; [|intros [= <- <-]; auto].
  destruct (bool_decide (type l = t)) eqn:Hty; cbn [andb];
    [|intros [= <- <-]; auto].
  destruct (bool_decide (activation_type l = ACT_SOFTMAX)) eqn:Hsoft;
    cbn [negb]; [intros [= <- <-]; auto|].
  apply bool_decide_eq_true in Hty. apply bool_decide_eq_false in Hsoft.
  destruct (length (input_layers l) =? 1) eqn:Hlen; cbn [negb];
    [|intros [= <- <-]; auto].
  destruct (input_layers l !! 0) as [inp|] eqn:Hinp; [|intros [= <- <-]; auto].
  pose proof (single_input _ _ Hlen Hinp) as Hins.
  destruct (getLayerNode_name s inp) as [pn| | |] eqn:Hpn;
    try (intros [= <- <-]; auto).
  destruct (store s !! layer pn) as [pl|] eqn:Hpl; [|intros [= <- <-]; auto].
  destruct (find_loc (output_layers pl) (name l) =? length (output_layers pl));
    [intros [= <- <-]; auto|].
  destruct (bool_decide (type pl = LayerType.input)) eqn:Hin;
    [intros [= <- <-]; auto|].
  apply bool_decide_eq_false in Hin.
  destruct (existsb _ in_place_layers) eqn:Hex; [intros [= <- <-]; auto|].
  apply existsb_in_place in Hex.
  assert (∀ k, alias_ok g (mkAlias (layer n) (layer pn)
                             (find_loc (output_layers pl) (name l)) k))
    as Hok.
  { intros k. exists l, inp, pn, pl. cbn [alias_node alias_prev].
    rewrite <- Hst. split_and!; try done.
    - by rewrite Hty.
    - unfold getLayerNode_name in *. by rewrite <- Hst, <- Hadj. }
  destruct (bool_decide (type l = LayerType.batch_normalization)) eqn:Hbn.
  { intros [= <- <-]. split_and!; try done. right.
    eexists. split_and!; try done. }
  apply bool_decide_eq_false in Hbn.
  destruct (bool_decide (type l = LayerType.activation)) eqn:Hact.
  { intros [= <- <-]. split_and!; try done. right.
    eexists. split_and!; try done. intros ->. by rewrite <- Hty in Hbn. }
  intros [= <- <-]. auto.
Qed.

Lemma inPlaceOptimize_node_pass g t n s r s' :
  t ∈ in_place_layers →
  pass_step g s → (∀ a, a ∈ aliases s → alias_ok g a) →
  inPlaceOptimize_node t n s = (r, s') →
  pass_step s s' ∧ ∀ a, a ∈ aliases s' → alias_ok g a.
Proof.
  intros Ht (Hst & Hadj & _ & _) Hall Hrun.
  destruct (inPlaceOptimize_node_step g t n s r s' Ht Hst Hadj Hrun)
    as (Hst' & Hadj' & Hso' & [Hal|(a & Hal & _ & Hok & _)]).
  - split.
    + split_and!; try done. exists []. by rewrite app_nil_r.
    + by rewrite Hal.
  - split.
    + split_and!; try done. by exists [a].
    + rewrite Hal. intros b Hb. apply elem_of_app in Hb as [Hb|Hb]; [auto|].
      apply list_elem_of_singleton in Hb as ->. done.
Qed.

Lemma inPlaceOptimize_type_pass g t s r s' :
  t ∈ in_place_layers →
  pass_step g s → (∀ a, a ∈ aliases s → alias_ok g a) →
  inPlaceOptimize_type t s = (r, s') →
  pass_step g s' ∧ ∀ a, a ∈ aliases s' → alias_ok g a.
Proof.
  intros Ht Hs Hall. unfold inPlaceOptimize_type.
  rewrite (bind_run get _ s s s eq_refl). intros Hrun.
  eapply (forM_inv (λ u, pass_step g u ∧ ∀ a, a ∈ aliases u → alias_ok g a));
    [|exact Hrun|done].
  clear Hrun. intros n u r1 u' Hrun [Hu Hallu].
  destruct (inPlaceOptimize_node_pass g t n u r1 u' Ht Hu Hallu Hrun).
  split; [|done]. by eapply pass_step_trans.
Qed.

Lemma in_place_activation : LayerType.activation ∈ in_place_layers.
Proof. by left. Qed.

Lemma in_place_batch_normalization :
  LayerType.batch_normalization ∈ in_place_layers.
Proof. right. by left. Qed.

Lemma inPlaceOptimize_node_frame t n s r s' :
  t ∈ in_place_layers →
  inPlaceOptimize_node t n s = (r, s') → pass_step s s'.
Proof.
  intros Ht Hrun.
  destruct (inPlaceOptimize_node_step s t n s r s' Ht eq_refl eq_refl Hrun)
    as (Hst & Hadj & Hso & [Hal|(a & Hal & _)]).
  - split_and!; try done. exists []. by rewrite app_nil_r.
  - split_and!; try done. by exists [a].
Qed.

(** The batch-normalization layer of a chain, when it is reached and
    the call returns, is made to share the convolution's output. *)
Lemma inPlaceOptimize_node_bn g nc nb lc lb inp s s' :
  store s = store g → adj s = adj g →
  store g !! layer nb = Some lb →
  type lb = LayerType.batch_normalization →
  activation_type lb ≠ ACT_SOFTMAX →
  input_layers lb = [inp] →
  getLayerNode_name g inp = Ret nc →
  store g !! layer nc = Some lc →
  type lc = LayerType.conv2d →
  inPlaceOptimize_node LayerType.batch_normalization nb s = (Ret tt, s') →
  ∃ loc, aliases s' = aliases s
                      ++ [mkAlias (layer nb) (layer nc) loc AliasBatchNorm].
Proof.
  intros Hst Hadj Hlb Htb Hsoft Hin Hget Hlc Htc.
  unfold inPlaceOptimize_node, bind, deref, get, lift, throw, undefined,
    modify, ret.
  rewrite Hst, Hlb, Htb.
  rewrite bool_decide_eq_true_2 by done.
  rewrite bool_decide_eq_false_2 by done. cbn [andb negb].
  rewrite Hin. cbn [length Nat.eqb negb lookup list_lookup].
  unfold getLayerNode_name in *. rewrite Hst, Hadj, Hget, Hlc, Htc.
  destruct (find_loc (output_layers lc) (name lb) =? length (output_layers lc));
    [done|].
  rewrite bool_decide_eq_false_2 by done.
  cbn [existsb in_place_layers]. rewrite !bool_decide_eq_false_2 by done.
  cbn [orb]. intros [= <-]. by eexists.
Qed.

(** C6 (as the code behaves).  Whatever the outcome of
    [inPlaceOptimize], every recorded decision is for a layer of an
    in-place kind that is not softmax, whose predecessor is neither an
    input layer nor of an in-place kind; hence no layer made to work in
    place has a predecessor that was made to work in place.  In a chain
    conv -> batchnorm -> activation the activation layer is never made
    to work in place; neither is the batch-normalization layer when its
    own activation kind is softmax; otherwise, when the pass returns,
    the batch-normalization layer is, with the convolution as its
    predecessor. *)
Theorem inPlaceOptimize_exclusion
    (g : NetworkGraph) (r : result unit) (g' : NetworkGraph) :
  aliases g = [] →
  inPlaceOptimize g = (r, g') →
  (∀ a, a ∈ aliases g' → alias_ok g a) ∧
  (∀ a b, a ∈ aliases g' → b ∈ aliases g' → alias_prev a ≠ alias_node b) ∧
  (∀ nc nb na lc lb la,
     bn_act_chain g nc nb na lc lb la →
     ¬ aliased g' (layer na) ∧
     (activation_type lb = ACT_SOFTMAX → ¬ aliased g' (layer nb)) ∧
     (activation_type lb ≠ ACT_SOFTMAX → r = Ret tt →
        ∃ a, a ∈ aliases g' ∧ alias_node a = layer nb ∧
             alias_prev a = layer nc ∧ alias_kind a = AliasBatchNorm)).
Proof.
  intros Hempty Hrun.
  unfold inPlaceOptimize, in_place_layers in Hrun. cbn [forM_] in Hrun.
  unfold bind in Hrun.
  destruct (inPlaceOptimize_type LayerType.activation g) as [r1 s1] eqn:H1.
  destruct (inPlaceOptimize_type_pass g _ g r1 s1 in_place_activation
              (pass_step_refl g)) as [Hs1 Hall1]; [|done|].
  { rewrite Hempty. intros a Ha. by apply elem_of_nil in Ha. }
  assert (pass_step g g' ∧ (∀ a, a ∈ aliases g' → alias_ok g a) ∧
          (r = Ret tt →
           inPlaceOptimize_type LayerType.batch_normalization s1 = (Ret tt, g')))
    as (Hg' & Hall & Hsecond).
  { destruct r1 as [[]| | |]; try (injection Hrun as <- <-; by split_and!).
    destruct (inPlaceOptimize_type LayerType.batch_normalization s1)
      as [r2 s2] eqn:H2.
    destruct (inPlaceOptimize_type_pass g _ s1 r2 s2
                in_place_batch_normalization Hs1 Hall1 H2) as [Hs2 Hall2].
    destruct r2 as [[]| | |]; injection Hrun as <- <-; by split_and!. }
  split; [done|]. split.
  { intros a b Ha Hb Heq.
    destruct (Hall a Ha) as (_ & _ & pn & pl & _ & _ & _ & _ & _ & Hprev & Hpl & _ & Hnot).
    destruct (Hall b Hb) as (l & _ & _ & _ & Hl & Hin & _).
    rewrite <- Heq, Hprev, Hpl in Hl. injection Hl as <-. done. }
  intros nc nb na lc lb la [Hlc Htc Hlb Htb (ib & Hib & Hgb) Hsorted
                              Hla Hta (ia & Hia & Hga)].
  split_and!.
  - intros (a & Ha & Hnode).
    destruct (Hall a Ha) as (l & inp & pn & pl & Hl & _ & _ & Hins & Hget & _ & Hpl & _ & Hnot).
    rewrite Hnode, Hla in Hl. injection Hl as <-.
    rewrite Hia in Hins. injection Hins as <-.
    rewrite Hga in Hget. injection Hget as <-.
    rewrite Hlb in Hpl. injection Hpl as <-.
    apply Hnot. rewrite Htb. apply in_place_batch_normalization.
  - intros Hsoft (a & Ha & Hnode).
    destruct (Hall a Ha) as (l & _ & _ & _ & Hl & _ & Hns & _).
    rewrite Hnode, Hlb in Hl. injection Hl as <-. done.
  - intros Hsoft ->. specialize (Hsecond eq_refl).
    unfold inPlaceOptimize_type in Hsecond.
    rewrite (bind_run get _ s1 s1 s1 eq_refl) in Hsecond.
    destruct Hs1 as (Hst1 & Hadj1 & Hso1 & _).
    rewrite Hso1 in Hsecond.
    destruct (forM_elem pass_step _ _ pass_step_refl pass_step_trans
                (λ x s r s', inPlaceOptimize_node_frame _ x s r s'
                               in_place_batch_normalization)
                nb s1 g' Hsorted Hsecond)
      as (t1 & t2 & (Hstt & Hadjt & _) & Hnode & (_ & _ & _ & more & Hmore)).
    destruct (inPlaceOptimize_node_bn g nc nb lc lb ib t1 t2) as [loc Hal];
      try done; try congruence.
    exists (mkAlias (layer nb) (layer nc) loc AliasBatchNorm).
    split; [|done]. rewrite Hmore, Hal.
    apply elem_of_app. left. apply elem_of_app. right. by left.
Qed.

(** ** The pipeline depends on the flat list and the registry only *)































Lemma upto_skip_set_skip k g : upto_skip (set_skip k g) g.
Proof. done. Qed.

Lemma upto_skip_trans g1 g2 g3 :
  upto_skip g1 g2 → upto_skip g2 g3 → upto_skip g1 g3.
Proof. unfold upto_skip. congruence. Qed.



Lemma rfold_ext {A S} (f f' : S → A → result S) l s :
  (∀ s x, f s x = f' s x) → rfold f l s = rfold f' l s.
Proof.
  intros Hext. revert s. induction l as [|x l IH]; intros s; simpl; [done|].
  rewrite Hext. destruct (f' s x); simpl; auto.
Qed.

Lemma topologicalSortUtil_ext g g' fuel :
  adj g = adj g' → num_node g = num_node g' →
  ∀ ith vs, topologicalSortUtil fuel g ith vs = topologicalSortUtil fuel g' ith vs.
Proof.
  intros Hadj Hnum. induction fuel as [|fuel IH]; intros ith vs; [done|].
  rewrite !topologicalSortUtil_S. unfold getLayerNode. rewrite Hadj, Hnum.
  destruct (decide _); [|done]. destruct (adj g' !! ith); [|done].
  f_equal. apply rfold_ext. intros s x. by rewrite IH.
Qed.




(** *** The build does not depend on where the layer objects are *)



Section shifted.
Variable heap : list Layer.















(** *** The searches *)







(** *** The sort *)





































End shifted.





(** ** The graph keeps its shape during realization *)

Lemma pres_ret {A} P (a : A) : preserves P (ret a).
Proof. by intros g r g' [= <- <-]. Qed.

Lemma pres_throw {A} P e : preserves P (@throw A e).
Proof. by intros g r g' [= <- <-]. Qed.

Lemma pres_undefined {A} P : preserves P (@undefined A).
Proof. by intros g r g' [= <- <-]. Qed.

Lemma pres_lift {A} P (x : result A) : preserves P (lift x).
Proof. by intros g r g' [= <- <-]. Qed.

Lemma pres_deref P h : preserves P (deref h).
Proof.
  intros g r g'. unfold deref. by destruct (store g !! h); intros [= <- <-].
Qed.

Lemma pres_bind {A B} P (m : M A) (f : A → M B) :
  preserves P m → (∀ a, preserves P (f a)) → preserves P (bind m f).
Proof.
  intros Hm Hf g r g'. unfold bind.
  destruct (m g) as [[a| | |] g1] eqn:Hrun; intros Hk Hg;
    try (injection Hk as <- <-; by eapply Hm).
  eapply Hf; [exact Hk|]. by eapply Hm.
Qed.

Lemma pres_get {A} P (f : NetworkGraph → M A) :
  (∀ g0, preserves P (f g0)) → preserves P (bind get f).
Proof. intros Hf g r g'. unfold bind, get. apply Hf. Qed.

Lemma pres_forM {A} P (l : list A) (body : A → M unit) :
  (∀ x, preserves P (body x)) → preserves P (forM_ l body).
Proof.
  intros Hbody. induction l as [|x l IH]; simpl.
  - apply pres_ret.
  - apply pres_bind; [apply Hbody|]. intros _. apply IH.
Qed.

Lemma pres_NN_RETURN_STATUS P st k :
  preserves P k → preserves P (NN_RETURN_STATUS st k).
Proof.
  intros Hk. unfold NN_RETURN_STATUS. destruct (decide _); [done|].
  apply pres_ret.
Qed.

Lemma realized_set_store g st :
  length (store g) ≤ length st → realized g → realized (set_store st g).
Proof.
  intros Hlen (Hadj & Hso & Hrows). split_and!; try done.
  intros i row Hrow. destruct (Hrows i row Hrow) as (h & -> & Hh).
  exists h. split; [done|]. cbn. lia.
Qed.

Lemma pres_update h f : preserves realized (update h f).
Proof.
  intros g r g'. unfold update.
  destruct (store g !! h); intros [= <- <-]; [|done].
  apply realized_set_store. by rewrite length_insert.
Qed.

Lemma pres_alloc l : preserves realized (alloc l).
Proof.
  intros g r g' [= <- <-]. apply realized_set_store.
  rewrite length_app. lia.
Qed.

Lemma pres_set_def_name_count c :
  preserves realized (modify (set_def_name_count c)).
Proof. by intros g r g' [= <- <-]. Qed.

Ltac pres_step :=
  lazymatch goal with
  | |- preserves _ (ret _) => apply pres_ret
  | |- preserves _ (throw _) => apply pres_throw
  | |- preserves _ undefined => apply pres_undefined
  | |- preserves _ (lift _) => apply pres_lift
  | |- preserves _ (deref _) => apply pres_deref
  | |- preserves _ (update _ _) => apply pres_update
  | |- preserves _ (alloc _) => apply pres_alloc
  | |- preserves _ (modify (set_def_name_count _)) =>
      apply pres_set_def_name_count
  | |- preserves _ (bind get _) => apply pres_get; intros ?
  | |- preserves _ (bind _ _) => apply pres_bind; [|intros ?]
  | |- preserves _ (forM_ _ _) => apply pres_forM; intros ?
  | |- preserves _ (NN_RETURN_STATUS _ _) => apply pres_NN_RETURN_STATUS
  | |- preserves _ (if ?c then _ else _) => destruct c
  | |- preserves _ (match ?c with _ => _ end) => destruct c
  | |- _ => solve [eauto]
  end.

Ltac pres := repeat pres_step.

Lemma pres_updateNameInLayers layers cname nm :
  preserves realized (updateNameInLayers layers cname nm).
Proof. induction layers as [|h layers IH]; simpl; pres. Qed.

Lemma pres_ensureName h prefix force :
  preserves realized (ensureName h prefix force).
Proof. unfold ensureName. pres. Qed.

Lemma ensureName_live h prefix force g g' :
  ensureName h prefix force g = (Ret tt, g') →
  h < length (store g') ∧ adj g' = adj g ∧ num_node g' = num_node g.
Proof.
  destruct (store g !! h) as [l|] eqn:Hl.
  - destruct (ensureName_run h prefix force g l Hl) as (nm & c & -> & _).
    intros [= <-]. cbn. rewrite length_insert.
    split; [by eapply lookup_lt_Some|done].
  - unfold ensureName, bind, deref. by rewrite Hl.
Qed.

Lemma pres_addLayerNode h : preserves realized (addLayerNode h).
Proof.
  intros g r g'. unfold addLayerNode, bind.
  destruct (ensureName h "" false g) as [[[]| | |] g1] eqn:Hname;
    try (intros [= <- <-]; by eapply pres_ensureName).
  unfold get, modify. intros [= <- <-] Hg.
  destruct (ensureName_live _ _ _ _ _ Hname) as (Hlive & _ & _).
  destruct (pres_ensureName _ _ _ _ _ _ Hname Hg) as (Hadj & Hso & Hrows).
  split_and!; cbn.
  - rewrite length_app. simpl. lia.
  - done.
  - intros i row Hrow.
    destruct (decide (i < length (adj g1))) as [Hlt|Hge].
    + rewrite lookup_app_l in Hrow by done. eauto.
    + rewrite lookup_app_r in Hrow by lia.
      destruct (i - length (adj g1)) as [|k] eqn:Hk; [|done].
      injection Hrow as <-. exists h. split; [|done].
      do 2 f_equal. lia.
Qed.

Lemma pres_pop_node : preserves realized pop_node.
Proof.
  intros g r g'. unfold pop_node. rewrite (bind_run get _ g g g eq_refl).
  destruct (adj g) as [|r0 rows] eqn:Hadj; [by intros [= <- <-]|].
  unfold bind, modify. intros [= <- <-] (Hlen & Hso & Hrows).
  rewrite Hadj in Hlen. cbn [length] in Hlen.
  split_and!; cbn [adj num_node Sorted store set_adj set_num_node].
  - rewrite length_take. cbn [length]. lia.
  - done.
  - intros i row Hrow. apply lookup_take_Some in Hrow as [Hrow _].
    rewrite <- Hadj in Hrow. eauto.
Qed.

Lemma pres_realizeMultiInputType h :
  preserves realized (realizeMultiInputType h).
Proof.
  unfold realizeMultiInputType.
  pose proof pres_ensureName. pose proof pres_addLayerNode. pres.
Qed.

Lemma pres_realizeFlattenType h layers :
  preserves realized (realizeFlattenType h layers).
Proof.
  unfold realizeFlattenType.
  pose proof pres_ensureName. pose proof pres_addLayerNode. pres.
Qed.

Lemma pres_realizeActivationType h layers :
  preserves realized (realizeActivationType h layers).
Proof.
  unfold realizeActivationType.
  pose proof pres_ensureName. pose proof pres_addLayerNode.
  pose proof pres_updateNameInLayers. pres.
Qed.

Lemma pres_realizeMultiOutputType h layers :
  preserves realized (realizeMultiOutputType h layers).
Proof.
  unfold realizeMultiOutputType.
  pose proof pres_ensureName. pose proof pres_addLayerNode.
  pose proof pres_updateNameInLayers. pres.
Qed.

Lemma pres_addLossLayer t : preserves realized (addLossLayer t).
Proof.
  unfold addLossLayer, addLossLayer_entropy, addLossLayer_attach.
  pose proof pres_ensureName. pose proof pres_addLayerNode.
  pose proof pres_pop_node. pres.
Qed.

Lemma pres_setOutputLayers layers : preserves realized (setOutputLayers layers).
Proof.
  unfold setOutputLayers, setOutputLayers_pair, setOutputLayers_sync. pres.
Qed.

Lemma pres_setGraphNode_layer layers l :
  preserves realized (setGraphNode_layer layers l).
Proof.
  unfold setGraphNode_layer, setGraphNode_source, setGraphNode_multi_input.
  pose proof pres_addLayerNode. pose proof pres_realizeMultiInputType.
  pose proof pres_realizeActivationType. pose proof pres_realizeMultiOutputType.
  pose proof pres_realizeFlattenType. pres.
Qed.

Lemma pres_setGraphNode_loop layers rest :
  preserves realized (setGraphNode_loop layers rest).
Proof.
  induction rest as [|l rest IH]; simpl; pose proof pres_setGraphNode_layer;
    pres.
Qed.

Lemma pres_setGraphNode layers t : preserves realized (setGraphNode layers t).
Proof.
  unfold setGraphNode.
  pose proof pres_setOutputLayers. pose proof pres_setGraphNode_loop.
  pose proof pres_addLossLayer. pres.
Qed.

Lemma realized_fresh layers names count skip :
  realized (fresh_graph layers names count skip).
Proof. by split_and!. Qed.

(** ** The resolved graph is well formed *)

Lemma realized_wf_nodes g : realized g → wf_nodes g.
Proof.
  intros (Hlen & _ & Hrows). split; [done|]. intros i Hi.
  unfold node_at. rewrite <- Hlen in Hi.
  destruct (lookup_lt_is_Some_2 _ _ Hi) as [row Hrow]. rewrite Hrow.
  by destruct (Hrows i row Hrow) as (h & -> & _).
Qed.

Lemma realized_wf_store g : realized g → wf_store g.
Proof.
  intros (_ & _ & Hrows). apply Forall_forall. intros n Hn.
  apply nodes_elem_node_at in Hn as [i Hi]. unfold node_at in Hi.
  destruct (adj g !! i) as [row|] eqn:Hrow; [|done].
  destruct (Hrows i row Hrow) as (h & -> & Hh). injection Hi as <-.
  by apply lookup_lt_is_Some_2.
Qed.

Lemma realized_wf_edges g : realized g → wf_edges g.
Proof.
  intros (Hlen & _ & Hrows) row n Hrow Hn.
  apply list_elem_of_lookup in Hrow as [i Hi].
  destruct (Hrows i row Hi) as (h & -> & _).
  apply list_elem_of_singleton in Hn as ->. cbn.
  rewrite <- Hlen. by eapply lookup_lt_Some.
Qed.

Lemma addEdge_wf_edges n ith node s r s' :
  index node < n →
  addEdge ith node s = (r, s') →
  (∀ row m, row ∈ adj s → m ∈ row → index m < n) →
  ∀ row m, row ∈ adj s' → m ∈ row → index m < n.
Proof.
  intros Hnode. unfold addEdge, bind, get, throw, modify, undefined.
  destruct (negb (num_node s =? 0) && (num_node s - 1 <? ith));
    [by intros [= <- <-]|].
  destruct (adj s !! ith) as [row0|] eqn:Hrow0; [|by intros [= <- <-]].
  intros [= <- <-] Hall row m Hrow Hm. cbn in Hrow.
  apply list_elem_of_lookup in Hrow as [i Hi].
  destruct (decide (i = ith)) as [->|Hne].
  - rewrite list_lookup_insert_eq in Hi by (by eapply lookup_lt_Some).
    injection Hi as <-. apply elem_of_app in Hm as [Hm|Hm].
    + eapply Hall; [|exact Hm]. by eapply list_elem_of_lookup_2.
    + by apply list_elem_of_singleton in Hm as ->.
  - rewrite list_lookup_insert_ne in Hi by done.
    eapply Hall; [|exact Hm]. by eapply list_elem_of_lookup_2.
Qed.

Lemma setEdge_wf g r g' :
  realized g → setEdge g = (r, g') →
  wf_nodes g' ∧ wf_edges g' ∧ wf_store g' ∧ Sorted g' = [].
Proof.
  intros Hg Hrun.
  pose proof (realized_wf_nodes g Hg) as Hwf.
  pose proof (setEdge_same_nodes g r g' Hwf Hrun) as Hsame.
  pose proof (same_nodes_nodes _ _ Hsame) as Hnodes.
  destruct Hsame as (Hst & Hnum & Hso & Hlen & Hnode).
  split_and!.
  - destruct Hwf as [Hl Hrows]. split; [congruence|].
    intros i Hi. rewrite Hnode. apply Hrows. congruence.
  - unfold wf_edges. rewrite Hnum.
    revert Hrun. unfold setEdge.
    rewrite (bind_run get _ g g g eq_refl). unfold bind.
    destruct (forM_ _ _ g) as [r0 s] eqn:Hloop. intros Hrun.
    assert (same_nodes g s ∧
            ∀ row m, row ∈ adj s → m ∈ row → index m < num_node g) as [_ Hs].
    { eapply (forM_inv (λ s, same_nodes g s ∧
                ∀ row m, row ∈ adj s → m ∈ row → index m < num_node g));
        [|exact Hloop|].
      - clear Hloop Hrun. intros i t r1 t'. cbn beta. unfold setEdge_row.
        rewrite (bind_run get _ t t t eq_refl).
        destruct (adj t !! i) as [[|node row]|] eqn:Hrow;
          try (by intros [= <- <-]).
        unfold bind at 1. unfold deref.
        destruct (store t !! layer node) as [l|]; [|by intros [= <- <-]].
        destruct (input_dim l !! 0) as [d|]; [|by intros [= <- <-]].
        destruct (negb (d =? 0)); [by intros [= <- <-]|].
        intros Hinner [Hsame Hall].
        assert (index node < num_node g) as Hidx.
        { destruct Hsame as (_ & _ & _ & Hl' & Hn').
          pose proof (lookup_lt_Some _ _ _ Hrow) as Hi.
          destruct Hwf as [Hl Hrows].
          specialize (Hrows i ltac:(lia)). rewrite <- Hn' in Hrows.
          unfold node_at in Hrows. rewrite Hrow in Hrows.
          injection Hrows as ->. lia. }
        eapply (forM_inv (λ s, same_nodes g s ∧
                  ∀ row m, row ∈ adj s → m ∈ row → index m < num_node g));
          [|exact Hinner|done].
        intros inp u r2 u'. cbn beta.
        destruct (istrequal inp "__data__"); [by intros [= <- <-]|].
        rewrite (bind_run get _ u u u eq_refl). unfold bind at 1. unfold lift.
        destruct (getLayerNode_name u inp); try (by intros [= <- <-]).
        intros Hadd [Hu Hallu]. split.
        + by eapply addEdge_same_nodes.
        + by eapply addEdge_wf_edges.
      - split; [|by apply realized_wf_edges].
        split_and!; done. }
    revert Hrun. destruct r0; intros [= <- <-]; done.
  - unfold wf_store. rewrite Hnodes, Hst. by apply realized_wf_store.
  - destruct Hg as (_ & Hsorted & _). congruence.
Qed.

Lemma resolved_graph_wf layers loss_type names count skip r g :
  resolved_graph layers loss_type names count skip = (r, g) →
  r = Ret ML_ERROR_NONE →
  wf_nodes g ∧ wf_edges g ∧ wf_store g ∧ Sorted g = [].
Proof.
  unfold resolved_graph, bind. intros Hrun ->.
  destruct (setGraphNode _ _ _) as [[st| | |] g1] eqn:Hreal; try done.
  pose proof (pres_setGraphNode _ _ _ _ _ Hreal
                (realized_fresh layers names count skip)) as Hg1.
  unfold NN_RETURN_STATUS in Hrun. destruct (decide _); [|by injection Hrun].
  by eapply setEdge_wf.
Qed.

(** C2.  For every build: when realization and edge resolution of a
    flat layer list succeed and the resolved adjacency relation is
    acyclic, [topologicalSort] returns (a recursion budget of
    [num_node] is enough), leaves the adjacency as it was, and produces
    in [Sorted] an order in which, for every structural edge [u -> v]
    recorded by [setEdge], the node with index [u] stands strictly
    before the node with index [v]. *)
Theorem topologicalSort_valid
    (layers : list Layer) (loss_type : LossType) (names : gset string)
    (count skip fuel : nat) (g : NetworkGraph) :
  resolved_graph layers loss_type names count skip = (Ret ML_ERROR_NONE, g) →
  acyclic g →
  num_node g ≤ fuel →
  ∃ g', topologicalSort fuel g = (Ret tt, g') ∧
        adj g' = adj g ∧
        ∀ u v, edge g u v →
          ∃ pu pv, position u (Sorted g') = Some pu ∧
                   position v (Sorted g') = Some pv ∧ pu < pv.
Proof.
  intros Hbuild Hacyc Hfuel.
  destruct (resolved_graph_wf _ _ _ _ _ _ _ Hbuild eq_refl)
    as (Hnodes & Hedges & Hstore & Hsorted).
  destruct (topologicalSort_roots_run g Hnodes Hedges Hacyc fuel Hfuel)
    as (vis & stk & Hrun & Hinv & Hall).
  unfold topologicalSort.
  rewrite (bind_run get _ g g g eq_refl).
  rewrite (bind_run (lift _) _ g (vis, stk) g) by (unfold lift; by rewrite Hrun).
  rewrite (bind_run (modify _) _ g _ _ eq_refl).
  rewrite Hsorted. cbn [app snd].
  destruct (countNonTrainableLayersAtBegin_returns (set_Sorted stk g))
    as (g' & Hcount & Hg').
  { apply Forall_forall. intros n Hn. cbn [Sorted set_Sorted] in Hn.
    apply (wf_store_elem g); [done|].
    by eapply (sorted_stack_nodes g). }
  exists g'. split; [done|]. rewrite Hg'. split; [done|].
  intros u v He. cbn [Sorted set_skip set_Sorted].
  by eapply (sorted_stack_order g).
Qed.

(** * The properties on concrete graphs *)

Lemma countNonTrainableLayersAtBegin_frame_witness :
  ∃ g', countNonTrainableLayersAtBegin frozen_then_trainable = (Ret tt, g') ∧
        skip_non_trainable_layers g' = 1 ∧
        countNonTrainableLayersAtBegin all_frozen = (Ret tt, all_frozen).
Proof.
  destruct (countNonTrainableLayersAtBegin_frame frozen_then_trainable)
    as (g' & Hrun & _ & Hfirst & _).
  { repeat constructor; by eexists. }
  destruct (countNonTrainableLayersAtBegin_frame all_frozen)
    as (g'' & Hrun' & _ & _ & Hnone).
  { repeat constructor; by eexists. }
  exists g'. split; [exact Hrun|]. split.
  - apply (Hfirst 1 (mkNode 1 1)); [reflexivity|reflexivity|].
    intros [|j] m Hj Hm; [|lia]. by injection Hm as <-.
  - rewrite Hrun'. f_equal. apply Hnone.
    intros n Hn. apply list_elem_of_In in Hn.
    destruct Hn as [<-|[<-|[]]]; reflexivity.
Defined.

Lemma realizeActivationType_single_output_witness :
  ∃ g', realizeActivationType 0 [0] two_outputs
          = (Ret ML_ERROR_INVALID_PARAMETER, g') ∧
        adj g' = adj two_outputs ∧ num_node g' = num_node two_outputs.
Proof.
  apply (realizeActivationType_single_output two_outputs 0 [0]
           (mkLayer "fc" "fully_connected" ["__data__"] ["p"; "q"] 1 2 [4]
              [0; 0] ACT_RELU false true LOSS_UNKNOWN));
    [reflexivity|discriminate|discriminate|discriminate|simpl; lia].
Defined.

Lemma setGraphNode_multi_input_three_witness :
  ∃ k : nat,
    (setGraphNode_multi_input 3 (fresh_graph fan_in ∅ 0 0)).1
      = Ret ML_ERROR_NONE ∧
    adj (setGraphNode_multi_input 3 (fresh_graph fan_in ∅ 0 0)).2
      = [[mkNode 4 0]] ∧
    store (setGraphNode_multi_input 3 (fresh_graph fan_in ∅ 0 0)).2 !! 4
      = Some (mkLayer (("d" +:+ "addition") +:+ pretty k) "addition"
                ["a"; "b"; "c"] [] 3 1 [0; 0; 0] [0] ACT_NONE false true
                LOSS_UNKNOWN).
Proof.
  destruct (setGraphNode_multi_input_three (fresh_graph fan_in ∅ 0 0) 3
              (declared "d" "fully_connected" ["a"; "b"; "c"] ACT_NONE 0)
              "a" "b" "c") as [k Hrun];
    [reflexivity|discriminate|discriminate|reflexivity|reflexivity|].
  exists k. cbn zeta in Hrun. rewrite Hrun. done.
Defined.

Lemma topologicalSort_valid_witness :
  ∃ g', topologicalSort 4 out_of_order_graph = (Ret tt, g') ∧
        adj g' = adj out_of_order_graph ∧
        ∀ u v, edge out_of_order_graph u v →
          ∃ pu pv, position u (Sorted g') = Some pu ∧
                   position v (Sorted g') = Some pv ∧ pu < pv.
Proof.
  apply (topologicalSort_valid out_of_order LOSS_NONE ∅ 0 0).
  - unfold out_of_order_graph.
    assert ((resolved_graph out_of_order LOSS_NONE ∅ 0 0).1
            = Ret ML_ERROR_NONE) as Hst by (vm_compute; reflexivity).
    destruct (resolved_graph out_of_order LOSS_NONE ∅ 0 0) as [r g].
    cbn [fst snd] in *. by rewrite Hst.
  - apply (edges_rankedb_spec out_of_order_rank). vm_compute. reflexivity.
  - vm_compute. lia.
Defined.

Lemma addLossLayer_entropy_rejected_witness :
  addLossLayer LOSS_ENTROPY relu_graph
  = (Ret ML_ERROR_NOT_SUPPORTED, popped relu_graph).
Proof.
  apply (addLossLayer_entropy_rejected relu_graph (mkNode 1 1)
           (mkLayer "act" "activation" ["fc"] ["__exit__"] 1 1 [0] [0]
              ACT_RELU false true LOSS_UNKNOWN)).
  - apply wf_nodesb_spec. vm_compute. reflexivity.
  - vm_compute. lia.
  - vm_compute. reflexivity.
  - vm_compute. reflexivity.
  - reflexivity.
  - discriminate.
  - discriminate.
Defined.

(** C1, at dense -> activation(relu): the call fails with
    [ML_ERROR_NOT_SUPPORTED], and when it does the node sequence is no
    longer the one it started from; the activation node has been
    removed. *)
Lemma addLossLayer_entropy_rejected_counterexample :
  nodes relu_graph = [mkNode 0 0; mkNode 1 1] ∧
  (type <$> store relu_graph !! 1) = Some "activation" ∧
  (activation_type <$> store relu_graph !! 1) = Some ACT_RELU ∧
  (addLossLayer LOSS_ENTROPY relu_graph).1 = Ret ML_ERROR_NOT_SUPPORTED ∧
  nodes (addLossLayer LOSS_ENTROPY relu_graph).2 = [mkNode 0 0] ∧
  adj (addLossLayer LOSS_ENTROPY relu_graph).2 ≠ adj relu_graph ∧
  (build_flat relu_chain LOSS_ENTROPY ∅ 0 0).1 = Ret ML_ERROR_NOT_SUPPORTED ∧
  nodes (build_flat relu_chain LOSS_ENTROPY ∅ 0 0).2 = [mkNode 0 0].
Proof.
  split_and!; try (vm_compute; reflexivity). vm_compute. discriminate.
Qed.

Lemma addLossLayer_entropy_fused_witness :
  ∃ (c' : nat) g',
    addLossLayer LOSS_ENTROPY (realized_graph softmax_chain)
    = (Ret ML_ERROR_NONE, g') ∧
    num_node g' = 2 ∧
    (loss_type <$> store g' !! 2) = Some LOSS_ENTROPY_SOFTMAX ∧
    (input_layers <$> store g' !! 2) = Some ["fc"] ∧
    mkNode 1 1 ∉ nodes g'.
Proof.
  destruct (addLossLayer_entropy_fused (realized_graph softmax_chain)
              (mkNode 1 1) (mkNode 0 0)
              (mkLayer "act" "activation" ["fc"] ["__exit__"] 1 1 [0] [0]
                 ACT_SOFTMAX false true LOSS_UNKNOWN)
              (mkLayer "fc" "fully_connected" ["__data__"] ["act"] 1 1 [4]
                 [0] ACT_NONE false true LOSS_UNKNOWN))
    as (c' & g' & Hrun & _ & Hnum & Hloss & _ & Hgone & _).
  - apply wf_nodesb_spec. vm_compute. reflexivity.
  - vm_compute. lia.
  - vm_compute. reflexivity.
  - vm_compute. reflexivity.
  - reflexivity.
  - by left.
  - vm_compute. reflexivity.
  - vm_compute. reflexivity.
  - vm_compute. reflexivity.
  - exists c', g'. split; [exact Hrun|]. split; [exact Hnum|].
    change (length (store (realized_graph softmax_chain))) with 2 in Hloss.
    rewrite Hloss. split_and!; [reflexivity|reflexivity|exact Hgone].
Defined.

(** C5, at a lone softmax activation layer: the last realized node is
    a softmax activation node and cross entropy is requested, yet no
    loss node is appended; the call removes the activation node and
    then throws, and so does the build. *)
Lemma addLossLayer_entropy_alone_counterexample :
  nodes (realized_graph softmax_alone) = [mkNode 0 0] ∧
  (type <$> store (realized_graph softmax_alone) !! 0) = Some "activation" ∧
  (activation_type <$> store (realized_graph softmax_alone) !! 0)
    = Some ACT_SOFTMAX ∧
  (addLossLayer LOSS_ENTROPY (realized_graph softmax_alone)).1
    = Throw (invalid_argument "Cannot find Layer") ∧
  nodes (addLossLayer LOSS_ENTROPY (realized_graph softmax_alone)).2 = [] ∧
  (build_flat softmax_alone LOSS_ENTROPY ∅ 0 0).1
    = Throw (invalid_argument "Cannot find Layer") ∧
  nodes (build_flat softmax_alone LOSS_ENTROPY ∅ 0 0).2 = [].
Proof. split_and!; vm_compute; reflexivity. Qed.

Lemma bn_relu_chain :
  bn_act_chain (sorted_graph (bn_chain ACT_RELU) LOSS_NONE).2
    (mkNode 1 1) (mkNode 2 2) (mkNode 3 3)
    (mkLayer "conv" "conv2d" ["in"] ["bn"] 1 1 [0] [0]
       ACT_NONE false true LOSS_UNKNOWN)
    (mkLayer "bn" "batch_normalization" ["conv"] ["bnactivation0"] 1 1 [0] [0]
       ACT_RELU false true LOSS_UNKNOWN)
    (mkLayer "bnactivation0" "activation" ["bn"] ["__exit__"] 1 1 [0] [0]
       ACT_RELU false true LOSS_UNKNOWN).
Proof.
  split.
  - vm_compute; reflexivity.
  - reflexivity.
  - vm_compute; reflexivity.
  - reflexivity.
  - exists "conv". split; vm_compute; reflexivity.
  - apply list_elem_of_In. vm_compute. tauto.
  - vm_compute; reflexivity.
  - reflexivity.
  - exists "bn". split; vm_compute; reflexivity.
Qed.

Lemma bn_softmax_chain :
  bn_act_chain (sorted_graph (bn_chain ACT_SOFTMAX) LOSS_NONE).2
    (mkNode 1 1) (mkNode 2 2) (mkNode 3 3)
    (mkLayer "conv" "conv2d" ["in"] ["bn"] 1 1 [0] [0]
       ACT_NONE false true LOSS_UNKNOWN)
    (mkLayer "bn" "batch_normalization" ["conv"] ["bnactivation0"] 1 1 [0] [0]
       ACT_SOFTMAX false true LOSS_UNKNOWN)
    (mkLayer "bnactivation0" "activation" ["bn"] ["__exit__"] 1 1 [0] [0]
       ACT_SOFTMAX false true LOSS_UNKNOWN).
Proof.
  split.
  - vm_compute; reflexivity.
  - reflexivity.
  - vm_compute; reflexivity.
  - reflexivity.
  - exists "conv". split; vm_compute; reflexivity.
  - apply list_elem_of_In. vm_compute. tauto.
  - vm_compute; reflexivity.
  - reflexivity.
  - exists "bn". split; vm_compute; reflexivity.
Qed.

Lemma inPlaceOptimize_exclusion_witness :
  let g := (sorted_graph (bn_chain ACT_RELU) LOSS_NONE).2 in
  (∃ a, a ∈ aliases (inPlaceOptimize g).2 ∧ alias_node a = 2 ∧
        alias_prev a = 1 ∧ alias_kind a = AliasBatchNorm) ∧
  ¬ aliased (inPlaceOptimize g).2 3.
Proof.
  intros g.
  destruct (inPlaceOptimize_exclusion g (inPlaceOptimize g).1
              (inPlaceOptimize g).2) as (_ & _ & Hchain).
  - vm_compute. reflexivity.
  - apply surjective_pairing.
  - destruct (Hchain _ _ _ _ _ _ bn_relu_chain) as (Hact & _ & Hbn).
    split; [|exact Hact].
    apply Hbn; [discriminate|vm_compute; reflexivity].
Defined.

(** C6, at in -> conv -> batchnorm(softmax) -> activation(softmax),
    as realization builds it: the chain conv -> batchnorm -> activation
    is there, the pass returns, and neither the batch-normalization
    layer nor the activation layer is made to work in place. *)
Lemma inPlaceOptimize_softmax_counterexample :
  let g := (sorted_graph (bn_chain ACT_SOFTMAX) LOSS_NONE).2 in
  (∃ lc lb la, bn_act_chain g (mkNode 1 1) (mkNode 2 2) (mkNode 3 3) lc lb la) ∧
  (sorted_graph (bn_chain ACT_SOFTMAX) LOSS_NONE).1 = Ret tt ∧
  (inPlaceOptimize g).1 = Ret tt ∧
  aliases (inPlaceOptimize g).2 = [] ∧
  ¬ aliased (inPlaceOptimize g).2 2 ∧
  ¬ aliased (inPlaceOptimize g).2 3.
Proof.
  intros g.
  assert (aliases (inPlaceOptimize g).2 = []) as Hnone
    by (vm_compute; reflexivity).
  split; [eexists _, _, _; exact bn_softmax_chain|].
  split; [vm_compute; reflexivity|].
  split; [vm_compute; reflexivity|].
  split; [exact Hnone|].
  split.
  - intros (a & Ha & _). rewrite Hnone in Ha. by apply elem_of_nil in Ha.
  - intros (a & Ha & _). rewrite Hnone in Ha. by apply elem_of_nil in Ha.
Qed.


(** ** Names are not registered *)

(** C4, the code at a failing input.  A fresh addition layer is named
    with prefix "x" on an empty registry: the call returns, writes
    "xaddition0" into the layer and advances the counter, but the name
    is not in the used-name set afterwards, which is still empty. *)
Theorem ensureName_not_registered :
  let g := fresh_graph [createLayer LayerType.addition] ∅ 0 0 in
  (ensureName 0 "x" false g).1 = Ret tt ∧
  (name <$> store (ensureName 0 "x" false g).2 !! 0) = Some "xaddition0" ∧
  def_name_count (ensureName 0 "x" false g).2 = 1 ∧
  ("xaddition0" ∉ layer_names (ensureName 0 "x" false g).2) ∧
  layer_names (ensureName 0 "x" false g).2 = ∅.
Proof.
  intros g.
  assert (layer_names (ensureName 0 "x" false g).2 = ∅) as Hnames
    by (vm_compute; reflexivity).
  split; [vm_compute; reflexivity|].
  split; [vm_compute; reflexivity|].
  split; [vm_compute; reflexivity|].
  split; [|exact Hnames].
  rewrite Hnames. apply not_elem_of_empty.
Qed.

(** C3, the code at a failing input.  The flat list holds two layers
    with different names, "x" (asking for a relu activation) and
    "xactivation0" (reading "x").  The build succeeds, and two distinct
    nodes of the sorted graph, the synthesized activation layer and the
    user's layer, are both named "xactivation0". *)
Theorem build_duplicate_names :
  let r := build_flat clash LOSS_NONE ∅ 0 0 in
  name <$> clash = ["x"; "xactivation0"] ∧
  r.1 = Ret ML_ERROR_NONE ∧
  Sorted r.2 = [mkNode 0 0; mkNode 2 1; mkNode 1 2] ∧
  sorted_names r.2 = [Some "x"; Some "xactivation0"; Some "xactivation0"] ∧
  (type <$> store r.2 !! 2) = Some "activation" ∧
  (type <$> store r.2 !! 1) = Some "fully_connected" ∧
  layer_names r.2 = ∅.
Proof. cbn zeta. split_and!; vm_compute; reflexivity. Qed.

(** * Further properties *)

(** ** ensureName, again *)

Lemma pretty_N_go_length x s :
  String.length s ≤ String.length (pretty_N_go x s).
Proof.
  revert s. induction (N.lt_wf_0 x) as [x _ IH]; intros s.
  destruct (decide (x = 0)%N) as [->|Hx].
  - by rewrite pretty_N_go_0.
  - rewrite pretty_N_go_step by lia.
    etrans; [|apply IH; apply N.div_lt; lia]. simpl. lia.
Qed.

Lemma pretty_nat_nonempty (c : nat) : pretty c ≠ "".
Proof.
  unfold pretty, pretty_nat, pretty, pretty_N.
  destruct (decide _) as [|Hx]; [done|].
  rewrite pretty_N_go_step by lia. intros Heq.
  pose proof (pretty_N_go_length (N.of_nat c `div` 10)
                (String (pretty_N_char (N.of_nat c `mod` 10)) "")) as Hlen.
  rewrite Heq in Hlen. simpl in Hlen. lia.
Qed.

Lemma ensureName_returns h prefix force g r g' :
  ensureName h prefix force g = (r, g') → r = Ret tt →
  ∃ l, store g !! h = Some l.
Proof.
  unfold ensureName, bind, deref. destruct (store g !! h) as [l|]; [eauto|].
  by intros [= <- <-].
Qed.

Lemma ensureName_name h prefix force g l :
  store g !! h = Some l →
  ∃ nm c,
    ensureName h prefix force g
      = (Ret tt, set_def_name_count c
                   (set_store (<[h := setName nm l]> (store g)) g)) ∧
    nm ≠ "" ∧ (nm ∉ layer_names g) ∧ def_name_count g ≤ c.
Proof.
  intros Hl.
  destruct (ensureName_run h prefix force g l Hl)
    as (nm & c & Hrun & Hfresh & Hle & Hkeep & Hdirect & Hloop).
  exists nm, c. split_and!; try done.
  destruct (decide (name l = "")) as [He|He].
  - destruct Hloop as (c' & -> & _); [by left|by left|].
    apply string_app_nonempty_r, pretty_nat_nonempty.
  - destruct (decide ((prefix +:+ name l) ∈ layer_names g)) as [Hp|Hp].
    + destruct force.
      * destruct Hloop as (c' & -> & _); [by right|by right; left|].
        apply string_app_nonempty_r, pretty_nat_nonempty.
      * destruct (decide (name l ∈ layer_names g)) as [Ho|Ho].
        -- destruct Hloop as (c' & -> & _); [by right|by right; right|].
           apply string_app_nonempty_r, pretty_nat_nonempty.
        -- destruct Hkeep as [-> _]; done.
    + destruct force.
      * destruct Hdirect as [-> _]; [done|by left|done|].
        by apply string_app_nonempty_r.
      * destruct (decide (name l ∈ layer_names g)) as [Ho|Ho].
        -- destruct Hdirect as [-> _]; [done|by right|done|].
           by apply string_app_nonempty_r.
        -- destruct Hkeep as [-> _]; done.
Qed.

(** X1.  Once [ensureName] has named a layer, a further call that does
    not force a renaming changes nothing, whatever its prefix: the name
    is non-empty and is not in [layer_names], so the first test
    returns. *)
Theorem ensureName_idempotent
    (h : handle) (prefix prefix' : string) (force : bool)
    (g g1 : NetworkGraph) :
  ensureName h prefix force g = (Ret tt, g1) →
  ensureName h prefix' false g1 = (Ret tt, g1).
Proof.
  intros Hrun.
  destruct (ensureName_returns _ _ _ _ _ _ Hrun eq_refl) as [l Hl].
  destruct (ensureName_name h prefix force g l Hl)
    as (nm & c & Hrun' & Hne & Hfresh & _).
  rewrite Hrun in Hrun'. injection Hrun' as ->.
  unfold ensureName, bind, deref, get. gsimpl.
  rewrite list_lookup_insert_eq by (by eapply lookup_lt_Some). gsimpl.
  rewrite (bool_decide_eq_false_2 (nm = "")) by done.
  rewrite (bool_decide_eq_true_2 (nm ∉ layer_names g)) by done.
  done.
Qed.

(** ** getLayerNode and addLayerNode *)

Lemma getLayerNode_loop_missing rows ith start len :
  (∀ j, start ≤ j < start + len → index <$> (rows !! j ≫= head) = Some j) →
  ¬ (start ≤ ith < start + len) →
  getLayerNode_loop rows ith (seq start len)
  = Throw (invalid_argument "Cannot find Layer").
Proof.
  revert start. induction len as [|len IH]; intros start Hrows Hout; [done|].
  simpl. pose proof (Hrows start ltac:(lia)) as Hhead.
  destruct (rows !! start) as [[|n row]|]; try done.
  simpl in Hhead. injection Hhead as Hidx. rewrite Hidx.
  destruct (start =? ith) eqn:He; [apply Nat.eqb_eq in He; lia|].
  apply IH; [intros j Hj; apply Hrows; lia|lia].
Qed.

(** X2.  On a graph built by [addLayerNode], [getLayerNode(ith)] returns
    the node of row [ith] when [ith] is the index of a node, and throws
    [invalid_argument] for every other index: it never reads a row that
    does not exist. *)
Theorem getLayerNode_bounds (g : NetworkGraph) :
  wf_nodes g →
  (∀ i, i < num_node g →
     ∃ n, getLayerNode g i = Ret n ∧ node_at g i = Some n ∧ index n = i) ∧
  (∀ i, num_node g ≤ i →
     getLayerNode g i = Throw (invalid_argument "Cannot find Layer")).
Proof.
  intros Hwf. split.
  - intros i Hi. by apply getLayerNode_wf.
  - intros i Hi. unfold getLayerNode. apply getLayerNode_loop_missing.
    + intros j Hj. apply Hwf. lia.
    + lia.
Qed.

(** X3.  [addLayerNode] followed by [getLayerNode]: on a graph built by
    [addLayerNode], adding a live layer returns, the graph keeps its
    shape, the new node gets the next index and wraps the layer that
    was passed, [getLayerNode] finds it under that index, and every
    node found before is still found under its index. *)
Theorem addLayerNode_getLayerNode
    (g : NetworkGraph) (h : handle) (l : Layer) :
  wf_nodes g →
  store g !! h = Some l →
  ∃ g', addLayerNode h g = (Ret tt, g') ∧
        wf_nodes g' ∧
        num_node g' = S (num_node g) ∧
        getLayerNode g' (num_node g) = Ret (mkNode h (num_node g)) ∧
        ∀ i, i < num_node g → getLayerNode g' i = getLayerNode g i.
Proof.
  intros Hwf Hl.
  destruct (ensureName_name h "" false g l Hl) as (nm & c & Hrun & _).
  set (g' := set_num_node (S (num_node g))
              (set_adj (adj g ++ [[mkNode h (num_node g)]])
                 (set_def_name_count c
                    (set_store (<[h := setName nm l]> (store g)) g)))).
  exists g'. split.
  { unfold addLayerNode. rewrite (bind_run _ _ _ _ _ Hrun). by do 2 mstep. }
  assert (wf_nodes g') as Hwf'.
  { destruct Hwf as [Hlen Hrows]. split; [subst g'; gsimpl; solve_len|].
    subst g'. gsimpl. intros i Hi. unfold node_at. gsimpl.
    destruct (decide (i = num_node g)) as [->|Hne].
    - by rewrite lookup_snoc.
    - rewrite lookup_snoc_lt by lia. apply Hrows. lia. }
  split; [done|]. split; [done|]. split.
  - destruct (getLayerNode_wf g' (num_node g) Hwf') as (n & Hget & Hat & _);
      [subst g'; gsimpl; lia|].
    rewrite Hget. f_equal. revert Hat. unfold node_at. subst g'. gsimpl.
    rewrite lookup_snoc by apply Hwf. by intros [= <-].
  - intros i Hi.
    destruct (getLayerNode_wf g' i Hwf') as (n & Hget & Hat & _);
      [subst g'; gsimpl; lia|].
    destruct (getLayerNode_wf g i Hwf Hi) as (n0 & Hget0 & Hat0 & _).
    rewrite Hget, Hget0. f_equal.
    revert Hat. unfold node_at in *. subst g'. gsimpl.
    destruct Hwf as [Hlen _].
    rewrite lookup_snoc_lt by lia. rewrite Hat0. by intros [= <-].
Qed.

(** ** addEdge *)

(** X4.  The bound check of [addEdge] on a graph with one row per node:
    an index past the last node throws [invalid_argument] and leaves
    the graph alone; an index of a node appends the entry to that row
    and to no other.  On a graph without nodes the unsigned bound wraps
    and the check cannot fire: whatever the index, the call goes on to
    index the empty [adj]. *)
Theorem addEdge_bounds (g : NetworkGraph) (ith : nat) (node : LayerNode) :
  length (adj g) = num_node g →
  (num_node g = 0 → addEdge ith node g = (Undefined, g)) ∧
  (0 < num_node g → num_node g ≤ ith →
     addEdge ith node g
     = (Throw (invalid_argument "Exceed total number of layer"), g)) ∧
  (ith < num_node g →
     ∃ row, adj g !! ith = Some row ∧
       addEdge ith node g
       = (Ret tt, set_adj (<[ith := row ++ [node]]> (adj g)) g)).
Proof.
  intros Hlen. unfold addEdge. rewrite (bind_run get _ g g g eq_refl).
  split_and!.
  - intros Hz. rewrite Hz. cbn [Nat.eqb negb andb].
    destruct (adj g) as [|row rows] eqn:Hadj; [done|].
    simpl in Hlen. lia.
  - intros Hpos Hge.
    destruct (num_node g =? 0) eqn:Hz; [apply Nat.eqb_eq in Hz; lia|].
    destruct (num_node g - 1 <? ith) eqn:Hlt; [done|].
    apply Nat.ltb_ge in Hlt. lia.
  - intros Hlt.
    destruct (lookup_lt_is_Some_2 (adj g) ith ltac:(lia)) as [row Hrow].
    exists row. split; [done|].
    destruct (num_node g =? 0) eqn:Hz; [apply Nat.eqb_eq in Hz; lia|].
    destruct (num_node g - 1 <? ith) eqn:Hlt'; [apply Nat.ltb_lt in Hlt'; lia|].
    cbn [negb andb]. by rewrite Hrow.
Qed.

(** ** getLayerNode by name *)

Lemma getLayerNode_name_loop_first st rows key :
  (∀ row, row ∈ rows → ∃ n tl, row = n :: tl ∧ is_Some (st !! layer n)) →
  (∃ i n l,
     getLayerNode_name_loop st rows key = Ret n ∧
     (rows !! i ≫= head) = Some n ∧ st !! layer n = Some l ∧
     istrequal (name l) key = true ∧
     ∀ j m l', j < i → (rows !! j ≫= head) = Some m →
       st !! layer m = Some l' → istrequal (name l') key = false) ∨
  (getLayerNode_name_loop st rows key
     = Throw (invalid_argument "Cannot find Layer") ∧
   ∀ m l', m ∈ omap head rows → st !! layer m = Some l' →
     istrequal (name l') key = false).
Proof.
  induction rows as [|row rows IH]; intros Hrows.
  - right. split; [done|]. intros m l' Hm. by apply elem_of_nil in Hm.
  - destruct (Hrows row) as (n & tl & -> & [l Hl]); [left|].
    simpl. rewrite Hl. destruct (istrequal (name l) key) eqn:He.
    + left. exists 0, n, l. split_and!; try done. intros j m l' Hj. lia.
    + destruct IH as [(i & n' & l' & Hrun & Hat & Hl' & Hm & Hbefore)|[Hrun Hnone]].
      { intros r Hr. apply Hrows. by right. }
      * left. exists (S i), n', l'. split_and!; try done.
        intros [|j] m l'' Hj Hat' Hl''.
        -- simpl in Hat'. injection Hat' as <-. congruence.
        -- eapply Hbefore; [|exact Hat'|exact Hl'']. lia.
      * right. split; [done|]. intros m l' Hm Hl'.
        apply elem_of_cons in Hm as [->|Hm]; [congruence|].
        by eapply Hnone.
Qed.

Lemma wf_rows g :
  wf_nodes g → wf_store g →
  ∀ row, row ∈ adj g → ∃ n tl, row = n :: tl ∧ is_Some (store g !! layer n).
Proof.
  intros [Hlen Hrows] Hst row Hrow.
  apply list_elem_of_lookup in Hrow as [i Hi].
  pose proof (lookup_lt_Some _ _ _ Hi) as Hlt.
  specialize (Hrows i ltac:(lia)). unfold node_at in Hrows.
  rewrite Hi in Hrows. destruct row as [|n tl]; [done|].
  exists n, tl. split; [done|]. apply (wf_store_elem g); [done|].
  unfold nodes. apply list_elem_of_omap. exists (n :: tl).
  split; [|done]. by eapply list_elem_of_lookup_2.
Qed.

(** X5.  The lookup by name on a graph whose nodes wrap live layers:
    it returns the first node, in insertion order, whose layer name
    equals the key without regard to case, so of two nodes with such a
    name the later one is never returned; when no node has such a name
    it throws [invalid_argument]. *)
Theorem getLayerNode_name_first (g : NetworkGraph) (key : string) :
  wf_nodes g → wf_store g →
  (∃ i n l,
     getLayerNode_name g key = Ret n ∧
     node_at g i = Some n ∧ store g !! layer n = Some l ∧
     istrequal (name l) key = true ∧
     ∀ j m l', j < i → node_at g j = Some m →
       store g !! layer m = Some l' → istrequal (name l') key = false) ∨
  (getLayerNode_name g key = Throw (invalid_argument "Cannot find Layer") ∧
   ∀ m l', m ∈ nodes g → store g !! layer m = Some l' →
     istrequal (name l') key = false).
Proof.
  intros Hwf Hst. apply getLayerNode_name_loop_first. by apply wf_rows.
Qed.

(** ** updateNameInLayers *)

Lemma replace_first_spec cname nm ins :
  match replace_first cname nm ins with
  | Some ins' =>
      ∃ pre x post, ins = pre ++ x :: post ∧ ins' = pre ++ nm :: post ∧
        istrequal x cname = true ∧ ∀ y, y ∈ pre → istrequal y cname = false
  | None => ∀ y, y ∈ ins → istrequal y cname = false
  end.
Proof.
  induction ins as [|x ins IH]; simpl.
  - intros y Hy. by apply elem_of_nil in Hy.
  - destruct (istrequal x cname) eqn:He.
    + exists [], x, ins. split_and!; try done.
      intros y Hy. by apply elem_of_nil in Hy.
    + destruct (replace_first cname nm ins) as [ins'|]; simpl.
      * destruct IH as (pre & z & post & -> & -> & Hz & Hpre).
        exists (x :: pre), z, post. split_and!; try done.
        intros y Hy. apply elem_of_cons in Hy as [->|Hy]; [done|by apply Hpre].
      * intros y Hy. apply elem_of_cons in Hy as [->|Hy]; [done|by apply IH].
Qed.

(** X6.  [updateNameInLayers] rewrites one entry at most: the first
    input, of the first layer of the list that has one, equal to
    [cname] without regard to case.  It stops there; later entries and
    later layers that name [cname] keep it.  When no layer of the list
    names [cname] nothing changes. *)
Theorem updateNameInLayers_first_match
    (g : NetworkGraph) (layers : list handle) (cname nm : string) :
  (∀ h, h ∈ layers → is_Some (store g !! h)) →
  (updateNameInLayers layers cname nm g = (Ret tt, g) ∧
   ∀ h l x, h ∈ layers → store g !! h = Some l → x ∈ input_layers l →
     istrequal x cname = false) ∨
  (∃ k h l pre x post,
     layers !! k = Some h ∧ store g !! h = Some l ∧
     input_layers l = pre ++ x :: post ∧
     istrequal x cname = true ∧
     (∀ y, y ∈ pre → istrequal y cname = false) ∧
     (∀ k' h' l' y, k' < k → layers !! k' = Some h' →
        store g !! h' = Some l' → y ∈ input_layers l' →
        istrequal y cname = false) ∧
     updateNameInLayers layers cname nm g
     = (Ret tt,
        set_store (<[h := set_input_layers (pre ++ nm :: post) l]> (store g))
          g)).
Proof.
  induction layers as [|h rest IH]; intros Hlive.
  - left. split; [done|]. intros h l x Hh. by apply elem_of_nil in Hh.
  - destruct (Hlive h) as [l Hl]; [left|].
    cbn [updateNameInLayers]. rewrite (bind_run _ _ _ _ _ (deref_run _ _ _ Hl)).
    pose proof (replace_first_spec cname nm (input_layers l)) as Hspec.
    destruct (replace_first cname nm (input_layers l)) as [ins'|].
    + destruct Hspec as (pre & x & post & Hins & -> & Hx & Hpre).
      right. exists 0, h, l, pre, x, post. split_and!; try done.
      * intros k' h' l' y Hk. lia.
      * by rewrite (update_run _ _ _ _ Hl).
    + destruct IH as [[Hrun Hnone]|(k & h' & l' & pre & x & post & Hk & Hl'
                                     & Hins & Hx & Hpre & Hbefore & Hrun)].
      { intros h' Hh'. apply Hlive. by right. }
      * left. split; [done|]. intros h' l' x Hh' Hl' Hx.
        apply elem_of_cons in Hh' as [->|Hh'].
        -- rewrite Hl in Hl'. injection Hl' as <-. by apply Hspec.
        -- by eapply Hnone.
      * right. exists (S k), h', l', pre, x, post. split_and!; try done.
        intros [|k'] h'' l'' y Hlt Hk' Hl'' Hy.
        -- simpl in Hk'. injection Hk' as <-. rewrite Hl in Hl''.
           injection Hl'' as <-. by apply Hspec.
        -- eapply Hbefore; [|exact Hk'|exact Hl''|exact Hy]. lia.
Qed.

Lemma visit_loop g fuel :
  visit_contract g fuel →
  ∀ ns vis stk,
    visit_inv g vis stk →
    (∀ n, n ∈ ns → index n < num_node g) →
    unvisited vis ≤ fuel →
    ∃ vis' new,
      rfold
        (λ vs' n,
           match vs'.1 !! index n with
           | Some false => topologicalSortUtil fuel g (index n) vs'
           | Some true => Ret vs'
           | None => Undefined
           end) ns (vis, stk) = Ret (vis', new ++ stk) ∧
      visit_inv g vis' (new ++ stk) ∧
      (∀ x, marked vis x → marked vis' x) ∧
      (∀ x, marked vis' x → marked vis x ∨ on_stack new x) ∧
      (∀ n, n ∈ new → vis !! index n = Some false) ∧
      unvisited vis' ≤ unvisited vis.
Proof.
  intros IHutil ns. induction ns as [|n ns IHns]; intros vis stk Hinv Hns Hfuel.
  - exists vis, []. simpl. split_and!; auto.
    intros n Hn. by apply elem_of_nil in Hn.
  - pose proof (Hns n ltac:(left)) as Hlt.
    destruct Hinv as (Hlen & Hinv).
    rewrite <- Hlen in Hlt.
    destruct (lookup_lt_is_Some_2 _ _ Hlt) as [b Hb].
    cbn [rfold fst]. rewrite Hb. destruct b.
    + cbn [rbind]. apply IHns; [done| |done].
      intros m Hm. apply Hns. by right.
    + destruct (IHutil (index n) vis stk) as
        (vis1 & new1 & Hrun1 & Hinv1 & Hmono1 & Hnew1 & Hon1 & Hfresh1 & Hcnt1);
        [done|done|done|].
      rewrite Hrun1. cbn [rbind].
      destruct (IHns vis1 (new1 ++ stk)) as
        (vis2 & new2 & Hrun2 & Hinv2 & Hmono2 & Hnew2 & Hfresh2 & Hcnt2);
        [done| |lia|].
      { intros m Hm. apply Hns. by right. }
      exists vis2, (new2 ++ new1). rewrite <- !app_assoc.
      split; [done|]. split; [done|]. split; [auto|]. split.
      { intros x Hx. rewrite on_stack_app.
        destruct (Hnew2 x Hx) as [Hx1|?]; [|tauto].
        destruct (Hnew1 x Hx1); tauto. }
      split; [|lia].
      intros m Hm. apply elem_of_app in Hm as [Hm|Hm]; [|auto].
      eapply (unmarked_back vis vis1); eauto.
      destruct Hinv1 as [Hlen1 _]. congruence.
Qed.

Lemma visit_contract_all g fuel : wf_nodes g → wf_edges g → visit_contract g fuel.
Proof.
  intros Hwf Hedges.
  induction fuel as [|fuel IH]; intros ith vis stk Hinv Hith Hfuel.
  { rewrite (unvisited_insert vis ith Hith) in Hfuel. lia. }
  pose proof (lookup_lt_Some _ _ _ Hith) as Hlt.
  rewrite topologicalSortUtil_S. cbn [fst snd].
  rewrite decide_True by done.
  destruct Hinv as (Hlen & Hmarked & Hnodes & Hnodup).
  rewrite Hlen in Hlt.
  destruct (row_of_node g Hwf ith Hlt) as (hd & tl & Hrow & Hhd & Hnode).
  rewrite Hrow.
  assert (¬ on_stack stk ith) as Hoff.
  { intros Hon. unfold on_stack in Hon.
    apply list_elem_of_fmap in Hon as (m & Hm & Hin).
    pose proof (Hmarked m Hin) as Hmk. rewrite <- Hm in Hmk.
    by eapply marked_unique. }
  assert (∀ x, marked vis x → marked (<[ith := true]> vis) x) as Hmono1.
  { intros x Hx. unfold marked.
    destruct (decide (x = ith)) as [->|Hne]; [|by rewrite list_lookup_insert_ne].
    apply list_lookup_insert_eq. lia. }
  assert (∀ x, marked (<[ith := true]> vis) x → x = ith ∨ marked vis x)
    as Hback1.
  { intros x Hx. destruct (decide (x = ith)) as [->|Hne]; [by left|right].
    unfold marked in *. by rewrite list_lookup_insert_ne in Hx. }
  destruct (visit_loop g fuel IH (hd :: tl) (<[ith := true]> vis) stk)
    as (visf & new & Hrun & Hinvf & Hmonof & Hnewf & Hfreshf & Hcntf).
  { split_and!; auto. by rewrite length_insert. }
  { intros n Hn. apply (Hedges (hd :: tl)); [|done].
    by eapply list_elem_of_lookup_2. }
  { pose proof (unvisited_insert vis ith Hith). lia. }
  rewrite Hrun. cbn [rbind fst snd].
  destruct (getLayerNode_wf g ith Hwf Hlt) as (node & Hget & Hnode' & _).
  rewrite Hget. cbn [rbind].
  assert (node = hd) as -> by congruence.
  assert (¬ on_stack (new ++ stk) ith) as Hofff.
  { rewrite on_stack_app. intros [Hon|Hon]; [|done].
    unfold on_stack in Hon. apply list_elem_of_fmap in Hon as (m & Hm & Hin).
    specialize (Hfreshf m Hin). rewrite <- Hm in Hfreshf.
    eapply marked_unique; [|exact Hfreshf].
    apply list_lookup_insert_eq. lia. }
  exists visf, (hd :: new). split; [done|]. split_and!.
  - destruct Hinvf as (Hlenf & Hmarkedf & Hnodesf & Hnodupf). split_and!.
    + done.
    + intros n Hn. apply elem_of_cons in Hn as [->|Hn]; [|auto].
      rewrite Hhd. apply Hmonof. apply list_lookup_insert_eq. lia.
    + intros n Hn. apply elem_of_cons in Hn as [->|Hn]; [|auto].
      by rewrite Hhd.
    + cbn [app]. rewrite fmap_cons. apply NoDup_cons. split; [|done].
      by rewrite Hhd.
  - auto.
  - intros x Hx. destruct (Hnewf x Hx) as [Hold|Hon].
    + destruct (Hback1 x Hold) as [->|?]; [|by left].
      right. unfold on_stack. rewrite fmap_cons, Hhd. by left.
    + right. unfold on_stack in *. rewrite fmap_cons. by right.
  - unfold on_stack. rewrite fmap_cons, Hhd. by left.
  - intros n Hn. apply elem_of_cons in Hn as [->|Hn]; [by rewrite Hhd|].
    specialize (Hfreshf n Hn).
    destruct (decide (index n = ith)) as [Heq|Hne].
    + rewrite Heq in Hfreshf. exfalso.
      eapply marked_unique; [|exact Hfreshf]. apply list_lookup_insert_eq. lia.
    + by rewrite list_lookup_insert_ne in Hfreshf.
  - pose proof (unvisited_insert vis ith Hith). lia.
Qed.

Lemma visit_roots g fuel :
  wf_nodes g → wf_edges g →
  ∀ range vis stk,
    visit_inv g vis stk →
    (∀ x, marked vis x → on_stack stk x) →
    (∀ i, i ∈ range → i < num_node g) →
    unvisited vis ≤ fuel →
    ∃ vis' stk',
      rfold
        (λ vs i,
           match vs.1 !! i with
           | Some false => topologicalSortUtil fuel g i vs
           | Some true => Ret vs
           | None => Undefined
           end) range (vis, stk) = Ret (vis', stk') ∧
      visit_inv g vis' stk' ∧
      (∀ x, marked vis' x → on_stack stk' x) ∧
      (∀ x, marked vis x → marked vis' x) ∧
      (∀ i, i ∈ range → marked vis' i) ∧
      unvisited vis' ≤ unvisited vis.
Proof.
  intros Hwf Hedges range. induction range as [|i range IH];
    intros vis stk Hinv Hdone Hrange Hfuel.
  - exists vis, stk. simpl. split_and!; auto.
    intros i Hi. by apply elem_of_nil in Hi.
  - pose proof (Hrange i ltac:(left)) as Hlt.
    pose proof Hinv as (Hlen & _).
    rewrite <- Hlen in Hlt.
    destruct (lookup_lt_is_Some_2 _ _ Hlt) as [b Hb].
    cbn [rfold fst]. rewrite Hb. destruct b; cbn [rbind].
    + destruct (IH vis stk)
        as (vis' & stk' & Hrun & Hinv' & Hdone' & Hmono & Hall & Hcnt); auto.
      { intros j Hj. apply Hrange. by right. }
      exists vis', stk'. split_and!; auto.
      intros j Hj. apply elem_of_cons in Hj as [->|Hj]; auto.
    + destruct (visit_contract_all g fuel Hwf Hedges i vis stk) as
        (vis1 & new1 & Hrun1 & Hinv1 & Hmono1 & Hnew1 & Hon1 & Hfresh1 & Hcnt1);
        auto.
      rewrite Hrun1. cbn [rbind].
      destruct (IH vis1 (new1 ++ stk)) as
        (vis' & stk' & Hrun & Hinv' & Hdone' & Hmono & Hall & Hcnt); auto.
      { intros x Hx. rewrite on_stack_app.
        destruct (Hnew1 x Hx); auto. }
      { intros j Hj. apply Hrange. by right. }
      { lia. }
      exists vis', stk'. split_and!; auto with lia.
      intros j Hj. apply elem_of_cons in Hj as [->|Hj]; auto.
      apply Hmono. unfold on_stack in Hon1.
      apply list_elem_of_fmap in Hon1 as (m & Hm & Hin).
      rewrite Hm. destruct Hinv1 as (_ & Hmk & _). apply Hmk.
      apply elem_of_app. by left.
Qed.

Lemma topologicalSort_roots_all g fuel :
  wf_nodes g → wf_edges g → num_node g ≤ fuel →
  ∃ vis stk,
    topologicalSort_roots fuel g = Ret (vis, stk) ∧
    index <$> stk ≡ₚ seq 0 (num_node g) ∧
    ∀ n, n ∈ stk → node_at g (index n) = Some n.
Proof.
  intros Hwf Hedges Hfuel. unfold topologicalSort_roots.
  destruct (visit_roots g fuel Hwf Hedges (seq 0 (num_node g))
              (replicate (num_node g) false) [])
    as (vis & stk & Hrun & Hinv & Hdone & _ & Hall & _).
  - split_and!.
    + by rewrite length_replicate.
    + intros n Hn. by apply elem_of_nil in Hn.
    + intros n Hn. by apply elem_of_nil in Hn.
    + simpl. apply NoDup_nil_2.
  - intros x Hx. unfold marked in Hx.
    apply lookup_replicate in Hx as [? _]. done.
  - intros i Hi. apply elem_of_seq in Hi. lia.
  - by rewrite unvisited_replicate.
  - exists vis, stk. split; [done|].
    destruct Hinv as (_ & _ & Hnodes & Hnodup). split; [|done].
    apply NoDup_Permutation; [done|apply NoDup_seq|].
    intros i. rewrite elem_of_seq. split.
    + intros Hi. apply list_elem_of_fmap in Hi as (n & -> & Hn).
      specialize (Hnodes n Hn). unfold node_at in Hnodes.
      destruct (adj g !! index n) as [row|] eqn:Hrow; [|done].
      apply lookup_lt_Some in Hrow. destruct Hwf as [Hlen _]. lia.
    + intros Hi. apply Hdone, Hall. apply elem_of_seq. lia.
Qed.

(** X7.  The sort on any graph left by realization and edge resolution,
    cyclic or not: [topologicalSort] returns with a recursion budget of
    [num_node], changes nothing but [Sorted] and
    [skip_non_trainable_layers], and appends to [Sorted] every node of
    the graph exactly once. *)
Theorem topologicalSort_permutation
    (layers : list Layer) (loss_type : LossType) (names : gset string)
    (count skip fuel : nat) (g : NetworkGraph) :
  resolved_graph layers loss_type names count skip = (Ret ML_ERROR_NONE, g) →
  num_node g ≤ fuel →
  ∃ g', topologicalSort fuel g = (Ret tt, g') ∧
        g' = set_skip (skip_non_trainable_layers g') (set_Sorted (Sorted g') g) ∧
        index <$> Sorted g' ≡ₚ seq 0 (num_node g) ∧
        ∀ n, n ∈ Sorted g' → node_at g (index n) = Some n.
Proof.
  intros Hres Hfuel.
  destruct (resolved_graph_wf _ _ _ _ _ _ _ Hres eq_refl)
    as (Hwf & Hedges & Hstore & Hsorted).
  destruct (topologicalSort_roots_all g fuel Hwf Hedges Hfuel)
    as (vis & stk & Hrun & Hperm & Hnodes).
  unfold topologicalSort.
  rewrite (bind_run get _ g g g eq_refl).
  rewrite (bind_run (lift _) _ g (vis, stk) g) by (unfold lift; by rewrite Hrun).
  rewrite (bind_run (modify _) _ g _ _ eq_refl).
  rewrite Hsorted. cbn [app snd].
  destruct (countNonTrainableLayersAtBegin_returns (set_Sorted stk g))
    as (g' & Hcount & Hg').
  { apply Forall_forall. intros n Hn. cbn [Sorted set_Sorted] in Hn.
    apply (wf_store_elem g); [done|].
    specialize (Hnodes n Hn). unfold node_at, nodes in *.
    destruct (adj g !! index n) as [row|] eqn:Hrow; [|done].
    apply list_elem_of_omap. exists row. split; [|done].
    by eapply list_elem_of_lookup_2. }
  exists g'. split; [done|].
  assert (Sorted g' = stk) as Hs by (by rewrite Hg').
  rewrite Hs. split; [|done].
  rewrite Hg' at 1. by destruct g.
Qed.

Lemma getSortedLayerNode_loop_elem sorted n :
  NoDup (index <$> sorted) → n ∈ sorted →
  getSortedLayerNode_loop sorted (index n) = Ret n.
Proof.
  induction sorted as [|m sorted IH]; intros Hnd Hn.
  - by apply elem_of_nil in Hn.
  - rewrite fmap_cons in Hnd. apply NoDup_cons in Hnd as [Hm Hnd]. simpl.
    apply elem_of_cons in Hn as [->|Hn]; [by rewrite Nat.eqb_refl|].
    destruct (index m =? index n) eqn:He; [|by apply IH].
    apply Nat.eqb_eq in He. exfalso. apply Hm. rewrite He.
    by apply list_elem_of_fmap_2.
Qed.

Lemma getSortedLayerNode_loop_missing sorted i :
  i ∉ index <$> sorted →
  getSortedLayerNode_loop sorted i
  = Throw (invalid_argument "Cannot find Layer").
Proof.
  induction sorted as [|m sorted IH]; intros Hi; [done|].
  rewrite fmap_cons, not_elem_of_cons in Hi. destruct Hi as [Hne Hi]. simpl.
  destruct (index m =? i) eqn:He; [apply Nat.eqb_eq in He; congruence|].
  by apply IH.
Qed.

(** X8.  [topologicalSort] followed by [getSortedLayerNode]: once a
    resolved graph is sorted, the lookup in [Sorted] by index returns,
    for the index of every node, the very node that [getLayerNode]
    returned before the sort, and throws [invalid_argument] for every
    other index. *)
Theorem getSortedLayerNode_after_sort
    (layers : list Layer) (loss_type : LossType) (names : gset string)
    (count skip fuel : nat) (g : NetworkGraph) :
  resolved_graph layers loss_type names count skip = (Ret ML_ERROR_NONE, g) →
  num_node g ≤ fuel →
  ∃ g', topologicalSort fuel g = (Ret tt, g') ∧
        (∀ i, i < num_node g →
           ∃ n, getLayerNode g i = Ret n ∧ getSortedLayerNode g' i = Ret n) ∧
        (∀ i, num_node g ≤ i →
           getSortedLayerNode g' i
           = Throw (invalid_argument "Cannot find Layer")).
Proof.
  intros Hres Hfuel.
  destruct (resolved_graph_wf _ _ _ _ _ _ _ Hres eq_refl)
    as (Hwf & Hedges & Hstore & Hsorted).
  destruct (topologicalSort_roots_all g fuel Hwf Hedges Hfuel)
    as (vis & stk & Hrun & Hperm & Hnodes).
  unfold topologicalSort.
  rewrite (bind_run get _ g g g eq_refl).
  rewrite (bind_run (lift _) _ g (vis, stk) g) by (unfold lift; by rewrite Hrun).
  rewrite (bind_run (modify _) _ g _ _ eq_refl).
  rewrite Hsorted. cbn [app snd].
  destruct (countNonTrainableLayersAtBegin_returns (set_Sorted stk g))
    as (g' & Hcount & Hg').
  { apply Forall_forall. intros n Hn. cbn [Sorted set_Sorted] in Hn.
    apply (wf_store_elem g); [done|].
    specialize (Hnodes n Hn). unfold node_at, nodes in *.
    destruct (adj g !! index n) as [row|] eqn:Hrow; [|done].
    apply list_elem_of_omap. exists row. split; [|done].
    by eapply list_elem_of_lookup_2. }
  exists g'. split; [done|].
  assert (Sorted g' = stk) as Hs by (by rewrite Hg').
  unfold getSortedLayerNode. rewrite Hs. split.
  - intros i Hi.
    destruct (getLayerNode_wf g i Hwf Hi) as (n & Hget & Hat & Hidx).
    exists n. split; [done|].
    assert (i ∈ index <$> stk) as Hin
      by (rewrite Hperm; apply elem_of_seq; lia).
    apply list_elem_of_fmap in Hin as (m & -> & Hm).
    assert (m = n) as -> by (specialize (Hnodes m Hm); congruence).
    apply getSortedLayerNode_loop_elem; [|done].
    rewrite Hperm. apply NoDup_seq.
  - intros i Hi. apply getSortedLayerNode_loop_missing.
    rewrite Hperm, elem_of_seq. lia.
Qed.

Lemma topologicalSort_roots_ext g g' fuel :
  adj g = adj g' → num_node g = num_node g' →
  topologicalSort_roots fuel g = topologicalSort_roots fuel g'.
Proof.
  intros Hadj Hnum. unfold topologicalSort_roots. rewrite Hnum.
  apply rfold_ext. intros s x. destruct (s.1 !! x) as [[|]|]; try done.
  by apply topologicalSortUtil_ext.
Qed.

(** X9.  [topologicalSort] does not clear [Sorted]: it appends.  On a
    resolved graph a second sort returns as well, and leaves in
    [Sorted] the order of the first sort twice over, every node
    occurring twice. *)
Theorem topologicalSort_twice
    (layers : list Layer) (loss_type : LossType) (names : gset string)
    (count skip fuel : nat) (g : NetworkGraph) :
  resolved_graph layers loss_type names count skip = (Ret ML_ERROR_NONE, g) →
  num_node g ≤ fuel →
  ∃ g1 g2, topologicalSort fuel g = (Ret tt, g1) ∧
           topologicalSort fuel g1 = (Ret tt, g2) ∧
           Sorted g2 = Sorted g1 ++ Sorted g1.
Proof.
  intros Hres Hfuel.
  destruct (resolved_graph_wf _ _ _ _ _ _ _ Hres eq_refl)
    as (Hwf & Hedges & Hstore & Hsorted).
  destruct (topologicalSort_roots_all g fuel Hwf Hedges Hfuel)
    as (vis & stk & Hrun & Hperm & Hnodes).
  assert (∀ n, n ∈ stk → is_Some (store g !! layer n)) as Hlive.
  { intros n Hn. apply (wf_store_elem g); [done|].
    specialize (Hnodes n Hn). unfold node_at, nodes in *.
    destruct (adj g !! index n) as [row|] eqn:Hrow; [|done].
    apply list_elem_of_omap. exists row. split; [|done].
    by eapply list_elem_of_lookup_2. }
  destruct (countNonTrainableLayersAtBegin_returns (set_Sorted stk g))
    as (g1 & Hcount1 & Hg1).
  { apply Forall_forall. intros n Hn. by apply Hlive. }
  assert (store g1 = store g ∧ adj g1 = adj g ∧ num_node g1 = num_node g ∧
          Sorted g1 = stk) as (Hst1 & Hadj1 & Hnum1 & Hso1)
    by (by rewrite Hg1).
  destruct (countNonTrainableLayersAtBegin_returns
              (set_Sorted (stk ++ stk) g1)) as (g2 & Hcount2 & Hg2).
  { apply Forall_forall. intros n Hn. cbn [Sorted set_Sorted store] in *.
    rewrite Hst1. apply elem_of_app in Hn as [Hn|Hn]; by apply Hlive. }
  exists g1, g2. split_and!.
  - unfold topologicalSort.
    rewrite (bind_run get _ g g g eq_refl).
    rewrite (bind_run (lift _) _ g (vis, stk) g)
      by (unfold lift; by rewrite Hrun).
    rewrite (bind_run (modify _) _ g _ _ eq_refl).
    rewrite Hsorted. exact Hcount1.
  - unfold topologicalSort.
    rewrite (bind_run get _ g1 g1 g1 eq_refl).
    rewrite (bind_run (lift _) _ g1 (vis, stk) g1).
    2: { unfold lift.
         by rewrite (topologicalSort_roots_ext g1 g fuel Hadj1 Hnum1), Hrun. }
    rewrite (bind_run (modify _) _ g1 _ _ eq_refl).
    rewrite Hso1. exact Hcount2.
  - rewrite Hg2. cbn [Sorted set_skip set_Sorted]. by rewrite Hso1.
Qed.

(** ** realizeFlattenType *)

(** X10.  [realizeFlattenType] on a live layer.  On an empty graph, or
    for a layer that is itself a flatten layer, it returns
    [ML_ERROR_INVALID_PARAMETER] and changes nothing.  Otherwise it
    succeeds and appends one node: a new flatten layer, named after the
    layer, whose only input is the layer's name.  Nothing else is
    touched: the layer keeps its outputs, and no consumer of the layer
    is redirected to the flatten node. *)
Theorem realizeFlattenType_appends
    (g : NetworkGraph) (current : handle) (layers : list handle) (cur : Layer) :
  store g !! current = Some cur →
  (num_node g = 0 ∨ type cur = LayerType.flatten →
     realizeFlattenType current layers g = (Ret ML_ERROR_INVALID_PARAMETER, g)) ∧
  (num_node g ≠ 0 → type cur ≠ LayerType.flatten →
     ∃ k : nat,
       let nm := (name cur +:+ LayerType.flatten) +:+ pretty k in
       realizeFlattenType current layers g
       = (Ret ML_ERROR_NONE,
          mkGraph
            (store g
             ++ [mkLayer nm LayerType.flatten [name cur] [] 1 1 [0] [0]
                   ACT_NONE false true LOSS_UNKNOWN])
            (adj g ++ [[mkNode (length (store g)) (num_node g)]])
            (S (num_node g)) (Sorted g) (layer_names g) (S k)
            (skip_non_trainable_layers g) (aliases g) (untracked g))).
Proof.
  intros Hcur. split.
  - intros Hrej. unfold realizeFlattenType.
    rewrite (bind_run get _ g g g eq_refl).
    destruct (num_node g =? 0) eqn:Hn; [done|].
    apply Nat.eqb_neq in Hn. destruct Hrej as [?|Hty]; [done|].
    rewrite (bind_run _ _ _ _ _ (deref_run _ _ _ Hcur)).
    by rewrite bool_decide_eq_true_2.
  - intros Hn Hty.
    pose proof (lookup_lt_Some _ _ _ Hcur) as Hlt.
    destruct (ensureName_run (length (store g)) (name cur) false
                (set_store (store g ++ [createLayer LayerType.flatten]) g)
                (createLayer LayerType.flatten))
      as (nm & c0 & Hrun & Hfresh & _ & _ & _ & Hloop); [solve_lookup|].
    destruct Hloop as (k & -> & -> & _ & _); [by left|by left|].
    cbn [createLayer name type] in Hrun, Hfresh.
    rewrite bool_decide_eq_true_2 in Hrun, Hfresh by done.
    gsimpl_in Hfresh.
    exists k. cbn zeta.
    unfold realizeFlattenType. mstep.
    apply Nat.eqb_neq in Hn. rewrite Hn. mstep.
    rewrite bool_decide_eq_false_2 by done. mstep.
    gsimpl_in Hrun. rewrite insert_snoc in Hrun by done.
    rewrite (bind_run _ _ _ _ _ Hrun). clear Hrun.
    do 3 mstep. unfold addLayerNode. mstep.
    match goal with |- bind (ensureName ?h _ _) _ ?s = _ =>
      destruct (ensureName_run h "" false s
                  (mkLayer ((name cur +:+ LayerType.flatten) +:+ pretty k)
                     LayerType.flatten [name cur] [] 1 1 [0] [0]
                     ACT_NONE false true LOSS_UNKNOWN))
        as (nm & c0 & Hrun & _ & _ & Hkeep & _); [solve_lookup|]
    end.
    destruct Hkeep as [-> ->]; [|done|done|].
    { apply string_app_nonempty_l, string_app_nonempty_r. done. }
    rewrite (bind_run _ _ _ _ _ Hrun). clear Hrun. gsimpl. norm_store.
    do 5 mstep. reflexivity.
Qed.

(** ** realizeActivationType *)

(** X11.  The early returns of [realizeActivationType] on a live layer
    change nothing: no activation requested ([ACT_NONE]) is a success;
    an empty graph, a layer that is itself an activation layer, and an
    unknown activation kind are an [ML_ERROR_INVALID_PARAMETER]. *)
Theorem realizeActivationType_rejects
    (g : NetworkGraph) (current : handle) (layers : list handle) (cur : Layer) :
  store g !! current = Some cur →
  (activation_type cur = ACT_NONE →
     realizeActivationType current layers g = (Ret ML_ERROR_NONE, g)) ∧
  (activation_type cur ≠ ACT_NONE →
   num_node g = 0 ∨ type cur = LayerType.activation
   ∨ activation_type cur = ACT_UNKNOWN →
     realizeActivationType current layers g
     = (Ret ML_ERROR_INVALID_PARAMETER, g)).
Proof.
  intros Hcur. unfold realizeActivationType.
  rewrite (bind_run _ _ _ _ _ (deref_run _ _ _ Hcur)). split.
  - intros Hnone. by rewrite bool_decide_eq_true_2.
  - intros Hact Hrej. rewrite bool_decide_eq_false_2 by done.
    rewrite (bind_run get _ g g g eq_refl).
    destruct (num_node g =? 0) eqn:Hn; [done|].
    apply Nat.eqb_neq in Hn.
    destruct (bool_decide (type cur = LayerType.activation)) eqn:Hty; [done|].
    apply bool_decide_eq_false in Hty.
    destruct Hrej as [?|[?|Hunk]]; [done|done|].
    by rewrite bool_decide_eq_true_2.
Qed.

(** X12.  The success path of [realizeActivationType]: for a layer with
    one output that asks for a known activation, one node is appended,
    a new activation layer of that kind, named after the layer, that
    reads the layer and takes over its first output; the layer's only
    output becomes the new node, and its own activation kind stays as
    requested.  What remains is the call of [updateNameInLayers] that
    redirects a consumer of the layer to the new node. *)
Theorem realizeActivationType_appends
    (g : NetworkGraph) (current : handle) (layers : list handle) (cur : Layer)
    (o : string) (outs : list string) :
  store g !! current = Some cur →
  activation_type cur ≠ ACT_NONE →
  activation_type cur ≠ ACT_UNKNOWN →
  type cur ≠ LayerType.activation →
  num_node g ≠ 0 →
  num_outputs cur = 1 →
  output_layers cur = o :: outs →
  ∃ k : nat,
    let nm := (name cur +:+ LayerType.activation) +:+ pretty k in
    realizeActivationType current layers g
    = (updateNameInLayers layers (name cur) nm ;; ret ML_ERROR_NONE)
        (mkGraph
           (<[current := set_output_layers [nm] (set_num_outputs 1 cur)]>
              (store g)
            ++ [mkLayer nm LayerType.activation [name cur] [o] 1 1 [0] [0]
                  (activation_type cur) false true LOSS_UNKNOWN])
           (adj g ++ [[mkNode (length (store g)) (num_node g)]])
           (S (num_node g)) (Sorted g) (layer_names g) (S k)
           (skip_non_trainable_layers g) (aliases g) (untracked g)).
Proof.
  intros Hcur Hnone Hunk Hty Hn Hnum Houts.
  pose proof (lookup_lt_Some _ _ _ Hcur) as Hlt.
  destruct (ensureName_run (length (store g)) (name cur) false
              (set_store (store g ++ [createLayer "activation"]) g)
              (createLayer "activation"))
    as (nm & c0 & Hrun & Hfresh & _ & _ & _ & Hloop); [solve_lookup|].
  destruct Hloop as (k & -> & -> & _ & _); [by left|by left|].
  cbn [createLayer name type] in Hrun, Hfresh.
  rewrite bool_decide_eq_true_2 in Hrun, Hfresh by done.
  gsimpl_in Hfresh.
  exists k. cbn zeta.
  unfold realizeActivationType. mstep.
  rewrite bool_decide_eq_false_2 by done. mstep.
  apply Nat.eqb_neq in Hn. rewrite Hn.
  rewrite !bool_decide_eq_false_2 by done. mstep.
  gsimpl_in Hrun. rewrite insert_snoc in Hrun by done.
  rewrite (bind_run _ _ _ _ _ Hrun). clear Hrun.
  do 4 mstep. rewrite Hnum. cbn [Nat.eqb negb].
  do 3 mstep.
  rewrite Houts. unfold copy_prefix. rewrite decide_True by (simpl; lia).
  rewrite (bind_run (lift _) _ _ _ _ eq_refl). cbn [take].
  do 5 mstep. unfold addLayerNode. mstep.
  match goal with |- bind (ensureName ?h _ _) _ ?s = _ =>
    destruct (ensureName_run h "" false s
                (mkLayer ((name cur +:+ "activation") +:+ pretty k)
                   "activation" [name cur] [o] 1 1 [0] [0]
                   (activation_type cur) false true LOSS_UNKNOWN))
      as (nm & c0 & Hrun & _ & _ & Hkeep & _); [solve_lookup|]
  end.
  destruct Hkeep as [-> ->]; [|done|done|].
  { apply string_app_nonempty_l, string_app_nonempty_r. done. }
  rewrite (bind_run _ _ _ _ _ Hrun). clear Hrun. gsimpl. norm_store.
  repeat mstep. reflexivity.
Qed.

(** ** addLossLayer *)

(** X13.  The two failures of [addLossLayer] that change nothing: on an
    empty graph it returns [ML_ERROR_INVALID_PARAMETER]; with
    [LOSS_ENTROPY] and a last node that is not an activation layer it
    returns [ML_ERROR_NOT_SUPPORTED] before any node is removed. *)
Theorem addLossLayer_rejects
    (g : NetworkGraph) (loss_type : LossType) (n : LayerNode) (l : Layer) :
  (num_node g = 0 →
     addLossLayer loss_type g = (Ret ML_ERROR_INVALID_PARAMETER, g)) ∧
  (wf_nodes g → 0 < num_node g →
   node_at g (num_node g - 1) = Some n →
   store g !! layer n = Some l →
   type l ≠ LayerType.activation →
     addLossLayer LOSS_ENTROPY g = (Ret ML_ERROR_NOT_SUPPORTED, g)).
Proof.
  split.
  - intros Hz. unfold addLossLayer. rewrite (bind_run get _ g g g eq_refl).
    by rewrite Hz.
  - intros Hwf Hpos Hn Hl Hty.
    pose proof (getLayerNode_last_wf g n Hwf Hpos Hn) as Hlast.
    unfold addLossLayer. mstep.
    destruct (num_node g =? 0) eqn:Hz; [apply Nat.eqb_eq in Hz; lia|].
    rewrite bool_decide_eq_true_2 by done.
    unfold addLossLayer_entropy. mstep. mstep. mstep.
    rewrite (bind_run (lift _) _ g n g) by (unfold lift; by rewrite Hlast).
    mstep. mstep. rewrite bool_decide_eq_false_2 by done. cbn [negb].
    by mstep.
Qed.

(** X14.  Attaching a requested loss that needs no activation in front
    of it (the mean squared error, or one of the two fused
    cross-entropy kinds asked for as such) to a graph built by
    [addLayerNode]: the call succeeds and appends one node, a loss
    layer that records the requested kind, reads the node that was
    last, and ends the model ([__exit__]); the node that was last gets
    the loss layer as its only output.  No node is removed.  Nothing is
    said of a kind that is not set, or of no loss. *)
Theorem addLossLayer_plain
    (g : NetworkGraph) (loss_type : LossType) (p : LayerNode) (pl : Layer) :
  wf_nodes g →
  0 < num_node g →
  node_at g (num_node g - 1) = Some p →
  store g !! layer p = Some pl →
  loss_type = LOSS_MSE ∨ loss_type = LOSS_ENTROPY_SIGMOID
    ∨ loss_type = LOSS_ENTROPY_SOFTMAX →
  ∃ c' : nat,
    addLossLayer loss_type g
    = (Ret ML_ERROR_NONE,
       mkGraph
         (<[layer p := set_output_layers ["loss" +:+ pretty c']
                         (set_num_outputs 1 pl)]> (store g)
          ++ [mkLayer ("loss" +:+ pretty c') LayerType.loss [name pl]
                ["__exit__"] 1 1 [0] [0] ACT_NONE false true loss_type])
         (adj g ++ [[mkNode (length (store g)) (num_node g)]])
         (S (num_node g)) (Sorted g) (layer_names g) (S c')
         (skip_non_trainable_layers g) (aliases g) (untracked g)).
Proof.
  intros Hwf Hpos Hp Hpl Hloss.
  destruct (addLossLayer_attach_run g p pl loss_type Hwf Hpos Hp Hpl)
    as (c' & Hrun & _).
  exists c'. unfold addLossLayer. mstep.
  destruct (num_node g =? 0) eqn:Hz; [apply Nat.eqb_eq in Hz; lia|].
  rewrite bool_decide_eq_false_2; [done|].
  by destruct Hloss as [->| [->| ->]].
Qed.

(** ** The start of a [setGraphNode] iteration *)

Lemma existsb_zero (dims : list nat) :
  existsb (λ d, d =? 0) dims = true ↔ 0 ∈ dims.
Proof.
  rewrite existsb_exists. split.
  - intros (d & Hd & Hz). apply Nat.eqb_eq in Hz as ->.
    by apply list_elem_of_In.
  - intros Hz. exists 0. split; [by apply list_elem_of_In|done].
Qed.

(** X15.  Lines 418-427 of [setGraphNode], on a live layer.  A layer
    that declares an input is left alone.  A layer without input is a
    model input: if one of its input dimensions has length zero the
    call throws [invalid_argument] and nothing has changed; otherwise
    the layer gets one input slot that reads [__data__]. *)
Theorem setGraphNode_source_input
    (g : NetworkGraph) (l : handle) (cur : Layer) :
  store g !! l = Some cur →
  (input_layers cur ≠ [] → setGraphNode_source l g = (Ret tt, g)) ∧
  (input_layers cur = [] → 0 ∈ input_dim cur →
     setGraphNode_source l g
     = (Throw (invalid_argument "Input Dimension must be set"), g)) ∧
  (input_layers cur = [] → 0 ∉ input_dim cur →
     setGraphNode_source l g
     = (Ret tt,
        set_store
          (<[l := set_input_layers ["__data__"] (set_num_inputs 1 cur)]>
             (store g)) g)).
Proof.
  intros Hcur. unfold setGraphNode_source.
  rewrite (bind_run _ _ _ _ _ (deref_run _ _ _ Hcur)). split_and!.
  - intros Hne. by destruct (input_layers cur).
  - intros -> Hz. cbn [length Nat.ltb Nat.leb].
    apply existsb_zero in Hz. by rewrite Hz.
  - intros Hnil Hz. rewrite Hnil. cbn [length Nat.ltb Nat.leb].
    destruct (existsb _ _) eqn:He; [by apply existsb_zero in He|].
    pose proof (lookup_lt_Some _ _ _ Hcur) as Hlt.
    repeat mstep. unfold update. gsimpl.
    rewrite list_lookup_insert_eq by done.
    gsimpl. by rewrite list_insert_insert_eq.
Qed.

Lemma collect_consumer_spec idx_name i_name ins outs :
  collect_consumer idx_name i_name ins outs
  = outs ++ replicate
              (length (filter (λ inp, istrequal inp idx_name = true) ins))
              i_name.
Proof.
  unfold collect_consumer. revert outs.
  induction ins as [|inp ins IH]; intros outs; simpl.
  - by rewrite app_nil_r.
  - rewrite IH. destruct (istrequal inp idx_name) eqn:He.
    + rewrite filter_cons_True by done. simpl.
      by rewrite <- app_assoc.
    + rewrite filter_cons_False by (by rewrite He). done.
Qed.

Lemma same_but_outputs_refl l : same_but_outputs l l.
Proof. by repeat split. Qed.

Lemma same_but_outputs_trans l1 l2 l3 :
  same_but_outputs l1 l2 → same_but_outputs l2 l3 → same_but_outputs l1 l3.
Proof.
  unfold same_but_outputs. intros H1 H2. destruct_and!.
  split_and!; congruence.
Qed.

Lemma consumers_ext st st' layers nm :
  (∀ i l, i ∈ layers → st !! i = Some l →
     ∃ l', st' !! i = Some l' ∧ same_but_outputs l l') →
  (∀ i, i ∈ layers → st !! i = None → st' !! i = None) →
  consumers st layers nm = consumers st' layers nm.
Proof.
  intros Hsome Hnone. unfold consumers.
  induction layers as [|i layers IH]; [done|].
  rewrite !bind_cons. f_equal.
  - destruct (st !! i) as [l|] eqn:Hl.
    + destruct (Hsome i l) as (l' & -> & Hsame); [left|done|].
      destruct Hsame as (-> & _ & -> & _). done.
    + rewrite (Hnone i); [done|left|done].
  - apply IH.
    + intros j l Hj. apply Hsome. by right.
    + intros j Hj. apply Hnone. by right.
Qed.

Lemma set_store_id s : set_store (store s) s = s.
Proof. by destruct s. Qed.

Lemma set_store_set_store st st' s :
  set_store st (set_store st' s) = set_store st s.
Proof. done. Qed.

Lemma setOutputLayers_inner idx :
  ∀ range l0 s,
    store s !! idx = Some l0 →
    (∀ i, i ∈ range → is_Some (store s !! i)) →
    ∃ l1,
      forM_ range (λ i, setOutputLayers_pair idx i) s
        = (Ret tt, set_store (<[idx := l1]> (store s)) s) ∧
      same_but_outputs l0 l1 ∧
      num_outputs l1 = num_outputs l0 ∧ output_dim l1 = output_dim l0 ∧
      output_layers l1 = output_layers l0 ++ consumers (store s) range (name l0).
Proof.
  intros range. induction range as [|i range IH]; intros l0 s Hidx Hlive.
  - exists l0. cbn [forM_]. unfold ret.
    rewrite list_insert_id by done. rewrite set_store_id.
    split_and!; try done. unfold consumers. cbn. by rewrite app_nil_r.
  - destruct (Hlive i) as [li Hli]; [left|].
    cbn [forM_]. unfold setOutputLayers_pair at 1.
    rewrite bind_assoc. rewrite (bind_run _ _ _ _ _ (deref_run _ _ _ Hli)).
    rewrite bind_assoc. rewrite (bind_run _ _ _ _ _ (deref_run _ _ _ Hidx)).
    unfold consumers. rewrite bind_cons. fold (consumers (store s) range (name l0)).
    rewrite Hli.
    destruct (istrequal (name li) (name l0)) eqn:He.
    + rewrite (bind_run (ret tt) _ s tt s eq_refl).
      destruct (IH l0 s Hidx) as (l1 & Hrun & Hl1).
      { intros j Hj. apply Hlive. by right. }
      exists l1. split; [done|]. done.
    + rewrite (bind_run _ _ _ _ _ (update_run _ _ _ _ Hidx)).
      set (l0' := set_output_layers _ l0).
      pose proof (lookup_lt_Some _ _ _ Hidx) as Hlt.
      destruct (IH l0' (set_store (<[idx := l0']> (store s)) s))
        as (l1 & Hrun & Hsame & Hnum & Hdim & Houts).
      { cbn [store set_store]. by apply list_lookup_insert_eq. }
      { intros j Hj. cbn [store set_store].
        apply lookup_lt_is_Some. rewrite length_insert.
        apply lookup_lt_is_Some. apply Hlive. by right. }
      exists l1. rewrite Hrun. cbn [store set_store].
      rewrite list_insert_insert_eq, set_store_set_store.
      split; [done|]. split_and!; try done.
      rewrite Houts. subst l0'. cbn [output_layers set_output_layers name].
      rewrite collect_consumer_spec, <- app_assoc. do 2 f_equal.
      symmetry. apply consumers_ext.
      * intros j l Hj Hl. cbn [store set_store].
        destruct (decide (j = idx)) as [->|Hne].
        -- rewrite list_lookup_insert_eq by done. eexists. split; [done|].
           rewrite Hidx in Hl. injection Hl as <-. done.
        -- rewrite list_lookup_insert_ne by done. eexists. split; [done|].
           apply same_but_outputs_refl.
      * intros j Hj Hn. cbn [store set_store].
        apply lookup_ge_None. rewrite length_insert.
        by apply lookup_ge_None.
Qed.

Lemma setOutputLayers_iter layers idx l0 s :
  store s !! idx = Some l0 →
  (∀ i, i ∈ layers → is_Some (store s !! i)) →
  ∃ l1,
    (forM_ layers (λ i, setOutputLayers_pair idx i) ;;
     setOutputLayers_sync idx) s
      = (Ret tt, set_store (<[idx := l1]> (store s)) s) ∧
    same_but_outputs l0 l1 ∧
    output_layers l1 = output_layers l0 ++ consumers (store s) layers (name l0) ∧
    num_outputs l1 = length (output_layers l1).
Proof.
  intros Hidx Hlive.
  destruct (setOutputLayers_inner idx layers l0 s Hidx Hlive)
    as (l1 & Hrun & Hsame & Hnum & Hdim & Houts).
  pose proof (lookup_lt_Some _ _ _ Hidx) as Hlt.
  rewrite (bind_run _ _ _ _ _ Hrun). unfold setOutputLayers_sync.
  assert (store (set_store (<[idx := l1]> (store s)) s) !! idx = Some l1) as Hl1
    by (cbn [store set_store]; by apply list_lookup_insert_eq).
  rewrite (bind_run _ _ _ _ _ (deref_run _ _ _ Hl1)).
  destruct (num_outputs l1 =? length (output_layers l1)) eqn:He; cbn [negb].
  - apply Nat.eqb_eq in He. exists l1. done.
  - rewrite (bind_run _ _ _ _ _ (update_run _ _ _ _ Hl1)).
    cbn [store set_store]. rewrite list_insert_insert_eq, set_store_set_store.
    eexists. split.
    { unfold update. cbn [store set_store].
      rewrite list_lookup_insert_eq by done.
      rewrite list_insert_insert_eq, set_store_set_store. reflexivity. }
    split_and!; done.
Qed.

Lemma setOutputLayers_outer layers :
  ∀ os s,
    NoDup os →
    (∀ i, i ∈ layers → is_Some (store s !! i)) →
    (∀ i, i ∈ os → is_Some (store s !! i)) →
    ∃ s',
      forM_ os
        (λ idx, forM_ layers (λ i, setOutputLayers_pair idx i) ;;
                setOutputLayers_sync idx) s = (Ret tt, s') ∧
      s' = set_store (store s') s ∧
      length (store s') = length (store s) ∧
      (∀ h, h ∉ os → store s' !! h = store s !! h) ∧
      (∀ h l, h ∈ os → store s !! h = Some l →
         ∃ l', store s' !! h = Some l' ∧ same_but_outputs l l' ∧
               output_layers l'
               = output_layers l ++ consumers (store s) layers (name l) ∧
               num_outputs l' = length (output_layers l')).
Proof.
  intros os. induction os as [|idx os IH]; intros s Hnd Hlive Hos.
  - exists s. cbn [forM_]. split_and!; try done.
    + by rewrite set_store_id.
    + intros h l Hh. by apply elem_of_nil in Hh.
  - apply NoDup_cons in Hnd as [Hidx Hnd].
    destruct (Hos idx) as [l0 Hl0]; [left|].
    pose proof (lookup_lt_Some _ _ _ Hl0) as Hlt.
    destruct (setOutputLayers_iter layers idx l0 s Hl0 Hlive)
      as (l1 & Hrun1 & Hsame1 & Houts1 & Hnum1).
    set (s1 := set_store (<[idx := l1]> (store s)) s) in *.
    assert (∀ i, is_Some (store s !! i) → is_Some (store s1 !! i)) as Hkeep.
    { intros i Hi. subst s1. cbn [store set_store].
      apply lookup_lt_is_Some. rewrite length_insert.
      by apply lookup_lt_is_Some. }
    destruct (IH s1 Hnd) as (s' & Hrun & Hs' & Hlen & Hout & Hin).
    { intros i Hi. apply Hkeep, Hlive, Hi. }
    { intros i Hi. apply Hkeep, Hos. by right. }
    exists s'. cbn [forM_]. rewrite (bind_run _ _ _ _ _ Hrun1).
    split; [done|]. split_and!.
    + rewrite Hs'. done.
    + rewrite Hlen. subst s1. cbn [store set_store]. apply length_insert.
    + intros h Hh. apply not_elem_of_cons in Hh as [Hne Hh].
      rewrite (Hout h Hh). subst s1. cbn [store set_store].
      by rewrite list_lookup_insert_ne.
    + intros h l Hh Hl. apply elem_of_cons in Hh as [->|Hh].
      * rewrite Hl0 in Hl. injection Hl as <-. exists l1.
        rewrite (Hout idx Hidx). subst s1. cbn [store set_store].
        rewrite list_lookup_insert_eq by done. done.
      * assert (h ≠ idx) as Hne by (intros ->; done).
        destruct (Hin h l Hh) as (l' & Hl' & Hsame & Houts & Hnum).
        { subst s1. cbn [store set_store]. by rewrite list_lookup_insert_ne. }
        exists l'. split_and!; try done.
        rewrite Houts. f_equal. symmetry. apply consumers_ext.
        -- intros j lj Hj Hlj. subst s1. cbn [store set_store].
           destruct (decide (j = idx)) as [->|Hnej].
           ++ rewrite list_lookup_insert_eq by done. exists l1.
              split; [done|]. rewrite Hl0 in Hlj. by injection Hlj as <-.
           ++ rewrite list_lookup_insert_ne by done. exists lj.
              split; [done|]. apply same_but_outputs_refl.
        -- intros j Hj Hn. subst s1. cbn [store set_store].
           apply lookup_ge_None. rewrite length_insert.
           by apply lookup_ge_None.
Qed.

Lemma setOutputLayers_check :
  ∀ range s,
    (∀ i, i ∈ range → is_Some (store s !! i)) →
    (forM_ range
       (λ idx, l <- deref idx ;;
               if length (output_layers l) =? 0
               then throw (invalid_argument "There is un-connected node")
               else ret tt) s = (Ret tt, s) ∧
     ∀ h l, h ∈ range → store s !! h = Some l → output_layers l ≠ []) ∨
    (forM_ range
       (λ idx, l <- deref idx ;;
               if length (output_layers l) =? 0
               then throw (invalid_argument "There is un-connected node")
               else ret tt) s
       = (Throw (invalid_argument "There is un-connected node"), s) ∧
     ∃ h l, h ∈ range ∧ store s !! h = Some l ∧ output_layers l = []).
Proof.
  intros range. induction range as [|i range IH]; intros s Hlive.
  - left. split; [done|]. intros h l Hh. by apply elem_of_nil in Hh.
  - destruct (Hlive i) as [li Hli]; [left|].
    cbn [forM_]. rewrite bind_assoc.
    rewrite (bind_run _ _ _ _ _ (deref_run _ _ _ Hli)).
    destruct (output_layers li) as [|o outs] eqn:Houts.
    + right. split; [done|]. exists i, li. split_and!; [left|done|done].
    + cbn [length Nat.eqb]. rewrite (bind_run (ret tt) _ s tt s eq_refl).
      destruct (IH s) as [[Hrun Hall]|[Hrun (h & l & Hh & Hl & He)]].
      { intros j Hj. apply Hlive. by right. }
      * left. split; [done|]. intros h l Hh Hl.
        apply elem_of_cons in Hh as [->|Hh]; [|by eapply Hall].
        rewrite Hli in Hl. injection Hl as <-. by rewrite Houts.
      * right. split; [done|]. exists h, l. split_and!; [by right|done|done].
Qed.

(** X16.  What [setOutputLayers] computes, for a list of distinct live
    layers that is not empty.  It returns or throws
    [invalid_argument]; either way only the output names, output
    counts and output dimensions of the listed layers have changed.
    Every listed layer ends with its declared outputs followed by the
    names of its consumers, in list order, one entry per input that
    names it; the last layer of the list gets [__exit__] when that
    leaves it without output.  The output count of every listed layer
    equals the number of its output names.  The call throws exactly
    when some listed layer is left without output. *)
Theorem setOutputLayers_outputs (g : NetworkGraph) (layers : list handle) :
  NoDup layers → layers ≠ [] →
  (∀ h, h ∈ layers → is_Some (store g !! h)) →
  ∃ r g',
    setOutputLayers layers g = (r, g') ∧
    g' = set_store (store g') g ∧
    (∀ h, h ∉ layers → store g' !! h = store g !! h) ∧
    (∀ h l, h ∈ layers → store g !! h = Some l →
       ∃ l', store g' !! h = Some l' ∧ same_but_outputs l l' ∧
         num_outputs l' = length (output_layers l') ∧
         output_layers l'
         = let outs := output_layers l
                       ++ consumers (store g) layers (name l) in
           if decide (last layers = Some h ∧ outs = [])
           then ["__exit__"] else outs) ∧
    ((r = Ret tt ∧
      ∀ h l', h ∈ layers → store g' !! h = Some l' → output_layers l' ≠ []) ∨
     (r = Throw (invalid_argument "There is un-connected node") ∧
      ∃ h l', h ∈ layers ∧ store g' !! h = Some l' ∧ output_layers l' = [])).
Proof.
  intros Hnd Hne Hlive.
  destruct (setOutputLayers_outer layers layers g Hnd Hlive Hlive)
    as (s1 & Hrun1 & Hs1 & Hlen1 & Hout1 & Hin1).
  unfold setOutputLayers. rewrite (bind_run _ _ _ _ _ Hrun1).
  destruct (last layers) as [back|] eqn:Hlast;
    [|by apply last_None in Hlast].
  assert (back ∈ layers) as Hback.
  { apply last_Some in Hlast as [pre ->]. apply elem_of_app. right. by left. }
  destruct (Hlive back Hback) as [lb Hlb].
  destruct (Hin1 back lb Hback Hlb) as (lb' & Hlb' & Hsameb & Houtsb & Hnumb).
  pose proof (lookup_lt_Some _ _ _ Hlb') as Hltb.
  rewrite (bind_run _ _ _ _ _ (deref_run _ _ _ Hlb')).
  assert (∃ s2 lb2,
            (if num_outputs lb' =? 0
             then update back (set_num_outputs 1) ;;
                  update back
                    (λ l, set_output_dim (resize 1 0 (output_dim l)) l) ;;
                  update back
                    (λ l, set_output_layers (output_layers l ++ ["__exit__"]) l)
             else ret tt) s1 = (Ret tt, s2) ∧
            s2 = set_store (<[back := lb2]> (store s1)) s1 ∧
            same_but_outputs lb lb2 ∧
            num_outputs lb2 = length (output_layers lb2) ∧
            output_layers lb2
            = if decide (output_layers lb' = []) then ["__exit__"]
              else output_layers lb')
    as (s2 & lb2 & Hrun2 & Hs2 & Hsame2 & Hnum2 & Houts2).
  { destruct (num_outputs lb' =? 0) eqn:Hz.
    - apply Nat.eqb_eq in Hz.
      assert (output_layers lb' = []) as Hempty
        by (apply nil_length_inv; lia).
      eexists _, _. split.
      { rewrite (bind_run _ _ _ _ _ (update_run _ _ _ _ Hlb')).
        unfold bind, update. cbn [store set_store].
        rewrite list_lookup_insert_eq by done.
        rewrite list_insert_insert_eq.
        cbn [store set_store].
        rewrite list_lookup_insert_eq by done.
        rewrite list_insert_insert_eq. reflexivity. }
      rewrite set_store_set_store.
      split; [reflexivity|]. gsimpl. rewrite Hempty.
      rewrite decide_True by done. split_and!; done.
    - apply Nat.eqb_neq in Hz. exists s1, lb'. split; [done|].
      rewrite list_insert_id by done. rewrite set_store_id.
      split; [done|]. split_and!; try done.
      rewrite decide_False; [done|].
      intros Hempty. rewrite Hempty in Hnumb. simpl in Hnumb. lia. }
  rewrite (bind_run _ _ _ _ _ Hrun2).
  assert (∀ h, h ∈ layers → is_Some (store s2 !! h)) as Hlive2.
  { intros h Hh. rewrite Hs2. cbn [store set_store].
    apply lookup_lt_is_Some. rewrite length_insert, Hlen1.
    apply lookup_lt_is_Some. by apply Hlive. }
  assert (s2 = set_store (store s2) g) as Hframe.
  { rewrite Hs2. cbn [store set_store]. rewrite Hs1 at 2. done. }
  assert (∀ h, h ∉ layers → store s2 !! h = store g !! h) as Hout2.
  { intros h Hh. rewrite Hs2. cbn [store set_store].
    rewrite list_lookup_insert_ne by (intros ->; done). by apply Hout1. }
  assert (∀ h l, h ∈ layers → store g !! h = Some l →
            ∃ l', store s2 !! h = Some l' ∧ same_but_outputs l l' ∧
              num_outputs l' = length (output_layers l') ∧
              output_layers l'
              = let outs := output_layers l
                            ++ consumers (store g) layers (name l) in
                if decide (Some back = Some h ∧ outs = [])
                then ["__exit__"] else outs) as Hin2.
  { intros h l Hh Hl. rewrite Hs2. cbn [store set_store]; cbn zeta.
    destruct (decide (h = back)) as [->|Hneq].
    - rewrite list_lookup_insert_eq by done. exists lb2.
      rewrite Hlb in Hl. injection Hl as <-.
      split_and!; try done. rewrite Houts2, Houtsb.
      destruct (decide (output_layers lb
                        ++ consumers (store g) layers (name lb) = []))
        as [He|He].
      + by rewrite decide_True.
      + rewrite decide_False; [done|]. by intros [_ ?].
    - rewrite list_lookup_insert_ne by done.
      destruct (Hin1 h l Hh Hl) as (l' & Hl' & Hsame & Houts & Hnum).
      exists l'. split_and!; try done.
      rewrite decide_False; [done|]. intros [[= ->] _]. done. }
  destruct (setOutputLayers_check layers s2 Hlive2)
    as [[Hrun Hall]|[Hrun Hex]].
  - exists (Ret tt), s2. split; [done|]. split_and!; try done.
    left. done.
  - exists (Throw (invalid_argument "There is un-connected node")), s2.
    split; [done|]. split_and!; try done. right. done.
Qed.

(** X17.  An empty list of layers: [setOutputLayers], the first step of
    [setGraphNode], takes [layers.back()] of the empty vector. *)
Theorem setGraphNode_empty (loss_type : LossType) (g : NetworkGraph) :
  setGraphNode [] loss_type g = (Undefined, g).
Proof. done. Qed.

Lemma same_nodes_refl g : same_nodes g g.
Proof. by split_and!. Qed.

Lemma same_nodes_trans g1 g2 g3 :
  same_nodes g1 g2 → same_nodes g2 g3 → same_nodes g1 g3.
Proof.
  intros (? & ? & ? & ? & Hn12) (? & ? & ? & ? & Hn23).
  split_and!; congruence.
Qed.

Lemma same_nodes_wf g s : wf_nodes g → same_nodes g s → wf_nodes s.
Proof.
  intros [Hlen Hrows] (_ & Hnum & _ & Hadj & Hnodes). split; [congruence|].
  intros i Hi. rewrite Hnodes. apply Hrows. congruence.
Qed.

Lemma edges_grow_refl s : edges_grow s s.
Proof. intros _. split; [apply same_nodes_refl|done]. Qed.

Lemma edges_grow_trans s1 s2 s3 :
  edges_grow s1 s2 → edges_grow s2 s3 → edges_grow s1 s3.
Proof.
  intros H12 H23 Hwf. destruct (H12 Hwf) as [Hs12 He12].
  destruct (H23 (same_nodes_wf _ _ Hwf Hs12)) as [Hs23 He23].
  split; [by eapply same_nodes_trans|auto].
Qed.

Lemma getLayerNode_name_loop_heads st (rows rows' : list (list LayerNode)) key :
  length rows = length rows' →
  (∀ i, (rows !! i ≫= head) = (rows' !! i ≫= head)) →
  getLayerNode_name_loop st rows key = getLayerNode_name_loop st rows' key.
Proof.
  revert rows'. induction rows as [|row rows IH]; intros [|row' rows'] Hlen Hh;
    try done.
  pose proof (Hh 0) as H0. simpl in H0.
  assert (getLayerNode_name_loop st rows key
          = getLayerNode_name_loop st rows' key) as Hrest.
  { apply IH; [simpl in Hlen; lia|]. intros i. apply (Hh (S i)). }
  destruct row as [|n row], row' as [|n' row']; simpl in *; try done.
  injection H0 as <-. by rewrite Hrest.
Qed.

Lemma getLayerNode_name_same_nodes g s key :
  same_nodes g s → getLayerNode_name s key = getLayerNode_name g key.
Proof.
  intros (Hst & _ & _ & Hlen & Hnodes). unfold getLayerNode_name.
  rewrite Hst. by apply getLayerNode_name_loop_heads.
Qed.

Lemma addEdge_edges ith node s r s' :
  addEdge ith node s = (r, s') →
  (∀ u v, edge s u v → edge s' u v) ∧
  (∀ u v, edge s' u v → edge s u v ∨ (u = ith ∧ v = index node)) ∧
  (wf_nodes s → r = Ret tt → edge s' ith (index node)).
Proof.
  unfold addEdge, bind, get, throw, modify, undefined.
  destruct (negb (num_node s =? 0) && (num_node s - 1 <? ith)).
  { intros [= <- <-]. split_and!; auto. done. }
  destruct (adj s !! ith) as [row|] eqn:Hrow.
  2: { intros [= <- <-]. split_and!; auto. done. }
  intros [= <- <-].
  pose proof (lookup_lt_Some _ _ _ Hrow) as Hlt.
  split_and!.
  - intros u v (row' & Hrow' & Hv). unfold edge. cbn [adj set_adj].
    destruct (decide (u = ith)) as [->|Hne].
    + rewrite list_lookup_insert_eq by done. eexists. split; [done|].
      rewrite Hrow in Hrow'. injection Hrow' as <-.
      destruct row as [|hd tl]; [by apply elem_of_nil in Hv|].
      simpl in *. rewrite fmap_app. apply elem_of_app. by left.
    + rewrite list_lookup_insert_ne by done. by exists row'.
  - intros u v (row' & Hrow' & Hv). cbn [adj set_adj] in Hrow'.
    destruct (decide (u = ith)) as [->|Hne].
    + rewrite list_lookup_insert_eq in Hrow' by done. injection Hrow' as <-.
      destruct row as [|hd tl]; [by apply elem_of_nil in Hv|].
      simpl in Hv. rewrite fmap_app in Hv. apply elem_of_app in Hv as [Hv|Hv].
      * left. by exists (hd :: tl).
      * right. apply list_elem_of_singleton in Hv. done.
    + rewrite list_lookup_insert_ne in Hrow' by done. left. by exists row'.
  - intros [Hlen Hrows] _. unfold edge. cbn [adj set_adj].
    rewrite list_lookup_insert_eq by done. eexists. split; [done|].
    specialize (Hrows ith ltac:(lia)). unfold node_at in Hrows.
    rewrite Hrow in Hrows. destruct row as [|hd tl]; [done|].
    simpl. rewrite fmap_app. apply elem_of_app. right. by left.
Qed.

Lemma addEdge_edges_grow ith node s r s' :
  addEdge ith node s = (r, s') → edges_grow s s'.
Proof.
  intros Hrun Hwf. split.
  - eapply addEdge_same_nodes; [done|apply same_nodes_refl|done].
  - by apply (addEdge_edges _ _ _ _ _ Hrun).
Qed.

Lemma setEdge_input_grow node inp s r s' :
  (if istrequal inp "__data__" then ret tt
   else g <- get ;;
        to_node <- lift (getLayerNode_name g inp) ;;
        addEdge (index to_node) node) s = (r, s') →
  edges_grow s s'.
Proof.
  destruct (istrequal inp "__data__").
  { intros [= <- <-]. apply edges_grow_refl. }
  rewrite (bind_run get _ s s s eq_refl). unfold bind at 1. unfold lift.
  destruct (getLayerNode_name s inp);
    try (intros [= <- <-]; apply edges_grow_refl).
  apply addEdge_edges_grow.
Qed.

Lemma setEdge_row_grow i s r s' :
  setEdge_row i s = (r, s') → edges_grow s s'.
Proof.
  unfold setEdge_row. rewrite (bind_run get _ s s s eq_refl).
  destruct (adj s !! i) as [[|node row]|];
    try (intros [= <- <-]; apply edges_grow_refl).
  unfold bind at 1. unfold deref.
  destruct (store s !! layer node) as [l|];
    [|intros [= <- <-]; apply edges_grow_refl].
  destruct (input_dim l !! 0) as [d|];
    [|intros [= <- <-]; apply edges_grow_refl].
  destruct (negb (d =? 0)); [intros [= <- <-]; apply edges_grow_refl|].
  apply (forM_step edges_grow);
    [apply edges_grow_refl|apply edges_grow_trans|].
  intros inp t r1 t'. apply setEdge_input_grow.
Qed.

Lemma forM_inv_elem {A} (P : NetworkGraph → Prop) (body : A → M unit) l :
  (∀ x s r s', x ∈ l → body x s = (r, s') → P s → P s') →
  ∀ s r s', forM_ l body s = (r, s') → P s → P s'.
Proof.
  induction l as [|x l IH]; intros Hbody s r s' Hrun Hs; simpl in Hrun.
  - by injection Hrun as <- <-.
  - unfold bind in Hrun. destruct (body x s) as [[[]| | |] s1] eqn:Hb;
      try (injection Hrun as <- <-; eapply Hbody; [left|done|done]).
    eapply IH; [|exact Hrun|].
    + intros y t r1 t' Hy. apply Hbody. by right.
    + eapply Hbody; [left|done|done].
Qed.

Lemma realized_no_edge g u v : realized g → ¬ edge g u v.
Proof.
  intros (_ & _ & Hrows) (row & Hrow & Hv).
  destruct (Hrows u row Hrow) as (h & -> & _). by apply elem_of_nil in Hv.
Qed.

(** X18.  The edges [setEdge] records on a realized graph.  Whatever
    the outcome, every edge [u -> v] of the result comes from an input
    of the layer of node [v] that resolves, by name, to node [u]; the
    model input [__data__] and layers whose input dimension is set
    give no edge.  When [setEdge] returns, every such input has its
    edge. *)
Theorem setEdge_edges
    (g : NetworkGraph) (r : result status) (g' : NetworkGraph) :
  realized g →
  setEdge g = (r, g') →
  (∀ u v, edge g' u v → feeds g u v) ∧
  (r = Ret ML_ERROR_NONE → ∀ u v, feeds g u v → edge g' u v).
Proof.
  intros Hreal Hrun.
  pose proof (realized_wf_nodes g Hreal) as Hwf.
  unfold setEdge in Hrun.
  rewrite (bind_run get _ g g g eq_refl) in Hrun. unfold bind in Hrun.
  destruct (forM_ _ _ g) as [r0 s] eqn:Hloop.
  assert (g' = s) as -> by (destruct r0; by injection Hrun).
  split.
  - assert (same_nodes g s ∧ ∀ u v, edge s u v → feeds g u v) as [_ Hs];
      [|done].
    eapply (forM_inv (λ s, same_nodes g s ∧ ∀ u v, edge s u v → feeds g u v));
      [|exact Hloop|].
    2: { split; [apply same_nodes_refl|].
         intros u v He. by apply realized_no_edge in He. }
    clear Hloop Hrun. intros i t r1 t'. unfold setEdge_row.
    rewrite (bind_run get _ t t t eq_refl).
    destruct (adj t !! i) as [[|node row]|] eqn:Hrow;
      try (by intros [= <- <-]).
    unfold bind at 1. unfold deref.
    destruct (store t !! layer node) as [l|] eqn:Hl; [|by intros [= <- <-]].
    destruct (input_dim l !! 0) as [d|] eqn:Hd; [|by intros [= <- <-]].
    destruct (d =? 0) eqn:Hz; cbn [negb]; [|by intros [= <- <-]].
    apply Nat.eqb_eq in Hz. subst d.
    intros Hinner [Hsame Hsound].
    assert (node_at g i = Some node ∧ store g !! layer node = Some l ∧
            index node = i) as (Hnode & Hlg & Hidx).
    { destruct Hsame as (Hst & _ & _ & Hlen & Hn').
      rewrite <- Hn', <- Hst. unfold node_at. rewrite Hrow.
      split_and!; try done.
      pose proof (lookup_lt_Some _ _ _ Hrow) as Hi.
      destruct Hwf as [Hlg Hrows].
      specialize (Hrows i ltac:(lia)). rewrite <- Hn' in Hrows.
      unfold node_at in Hrows. rewrite Hrow in Hrows. by injection Hrows. }
    eapply (forM_inv_elem
              (λ s, same_nodes g s ∧ ∀ u v, edge s u v → feeds g u v));
      [|exact Hinner|done].
    intros inp u r2 u' Hinp. cbn beta.
    destruct (istrequal inp "__data__") eqn:Hdata; [by intros [= <- <-]|].
    rewrite (bind_run get _ u u u eq_refl). unfold bind at 1. unfold lift.
    destruct (getLayerNode_name u inp) as [to_node| | |] eqn:Hto;
      try (by intros [= <- <-]).
    intros Hadd Hp. cbn beta in Hp. destruct Hp as [Hu Hsoundu].
    split; [by eapply addEdge_same_nodes|].
    intros a b He.
    destruct (addEdge_edges _ _ _ _ _ Hadd) as (_ & Hback & _).
    destruct (Hback a b He) as [Hold|[-> ->]]; [auto|].
    exists node, l, inp, to_node. rewrite Hidx. split_and!; try done.
    by rewrite <- (getLayerNode_name_same_nodes g u).
  - intros -> u v (nv & lv & inp & nu & Hnv & Hlv & Hd & Hinp & Hdata & Hnu & Hu).
    assert (r0 = Ret tt) as -> by (by destruct r0 as [[]| | |]).
    assert (v ∈ seq 0 (length (adj g))) as Hv.
    { apply elem_of_seq. unfold node_at in Hnv.
      destruct (adj g !! v) as [row|] eqn:Hrow; [|done].
      apply lookup_lt_Some in Hrow. lia. }
    destruct (forM_elem edges_grow setEdge_row _ edges_grow_refl
                edges_grow_trans setEdge_row_grow v g s Hv Hloop)
      as (s1 & s2 & Hg1 & Hrow & H2s).
    destruct (Hg1 Hwf) as [Hsame1 _].
    pose proof (same_nodes_wf _ _ Hwf Hsame1) as Hwf1.
    revert Hrow. unfold setEdge_row.
    rewrite (bind_run get _ s1 s1 s1 eq_refl).
    assert (node_at s1 v = Some nv) as Hnv1
      by (destruct Hsame1 as (_ & _ & _ & _ & Hn); by rewrite Hn).
    unfold node_at in Hnv1.
    destruct (adj s1 !! v) as [[|node row]|] eqn:Hrow1; try done.
    simpl in Hnv1. injection Hnv1 as ->.
    assert (store s1 !! layer nv = Some lv) as Hlv1
      by (destruct Hsame1 as (-> & _); done).
    rewrite (bind_run _ _ _ _ _ (deref_run _ _ _ Hlv1)). rewrite Hd.
    cbn [Nat.eqb negb]. intros Hinner.
    destruct (forM_elem edges_grow _ _ edges_grow_refl edges_grow_trans
                (setEdge_input_grow nv) inp s1 s2 Hinp Hinner)
      as (t1 & t2 & H1t & Hbody & Ht2).
    destruct (H1t Hwf1) as [Hsamet _].
    pose proof (same_nodes_wf _ _ Hwf1 Hsamet) as Hwft.
    revert Hbody. rewrite Hdata.
    rewrite (bind_run get _ t1 t1 t1 eq_refl).
    rewrite (getLayerNode_name_same_nodes s1 t1 inp Hsamet).
    rewrite (getLayerNode_name_same_nodes g s1 inp Hsame1).
    rewrite (bind_run (lift _) _ t1 nu t1) by (unfold lift; by rewrite Hnu).
    intros Hadd.
    destruct (addEdge_edges _ _ _ _ _ Hadd) as (_ & _ & Hnew).
    specialize (Hnew Hwft eq_refl).
    pose proof (addEdge_edges_grow _ _ _ _ _ Hadd Hwft) as [Hsame2 _].
    pose proof (same_nodes_wf _ _ Hwft Hsame2) as Hwf2.
    destruct (Ht2 Hwf2) as [Hsame3 Hmono3].
    pose proof (same_nodes_wf _ _ Hwf2 Hsame3) as Hwf3.
    destruct (H2s Hwf3) as [_ Hmono4].
    apply Hmono4, Hmono3.
    assert (index nv = v) as <-.
    { destruct Hwf as [Hlen Hrows].
      assert (v < num_node g) as Hlt by (apply elem_of_seq in Hv; lia).
      specialize (Hrows v Hlt). rewrite Hnv in Hrows. by injection Hrows. }
    by rewrite <- Hu.
Qed.

Lemma records_refl s : records s s.
Proof.
  exists [], []. split; [|constructor]. rewrite !app_nil_r. by destruct s.
Qed.

Lemma records_trans s1 s2 s3 : records s1 s2 → records s2 s3 → records s1 s3.
Proof.
  intros (m1 & n1 & -> & H1) (m2 & n2 & -> & H2). cbn in *.
  exists (m1 ++ m2), (n1 ++ n2). rewrite !app_assoc. split; [done|].
  by apply Forall2_app.
Qed.

Lemma records_pass_step s s' : records s s' → pass_step s s'.
Proof. intros (m & n & -> & _). split_and!; try done. by exists m. Qed.

Lemma inPlaceOptimize_node_records t n s r s' :
  inPlaceOptimize_node t n s = (r, s') → records s s'.
Proof.
  unfold inPlaceOptimize_node, bind, deref, get, lift, throw, undefined,
    modify, ret.
  destruct (store s !! layer n) as [l|] eqn:Hl;
    [|intros [= <- <-]; apply records_refl].
  destruct (bool_decide (type l = t) && _);
    [|intros [= <- <-]; apply records_refl].
  destruct (negb _); [intros [= <- <-]; apply records_refl|].
  destruct (input_layers l !! 0) as [inp|];
    [|intros [= <- <-]; apply records_refl].
  destruct (getLayerNode_name s inp) as [pn| | |];
    try (intros [= <- <-]; apply records_refl).
  destruct (store s !! layer pn) as [pl|] eqn:Hpl;
    [|intros [= <- <-]; apply records_refl].
  destruct (_ =? _); [intros [= <- <-]; apply records_refl|].
  destruct (bool_decide (type pl = LayerType.input));
    [intros [= <- <-]; apply records_refl|].
  destruct (existsb _ _); [intros [= <- <-]; apply records_refl|].
  destruct (bool_decide (type l = LayerType.batch_normalization)).
  { intros [= <- <-]. eexists [_], [_]. split; [reflexivity|].
    repeat constructor. cbn. by rewrite Hpl. }
  destruct (bool_decide (type l = LayerType.activation)).
  { intros [= <- <-]. eexists [_], [_]. split; [reflexivity|].
    repeat constructor. cbn. by rewrite Hpl. }
  intros [= <- <-]. apply records_refl.
Qed.

Lemma inPlaceOptimize_type_records t s r s' :
  inPlaceOptimize_type t s = (r, s') → records s s'.
Proof.
  unfold inPlaceOptimize_type. rewrite (bind_run get _ s s s eq_refl).
  apply (forM_step records); [apply records_refl|apply records_trans|].
  intros n u r1 u'. apply inPlaceOptimize_node_records.
Qed.

(** X19.  The footprint of the in-place pass.  Whatever its outcome,
    [inPlaceOptimize] leaves the layers, the adjacency, the sorted
    order and the name registry as they were; it only appends in-place
    decisions, and it notifies the manager once per decision, in the
    same order, with the name of the predecessor whose output is
    shared. *)
Theorem inPlaceOptimize_untracked
    (g : NetworkGraph) (r : result unit) (g' : NetworkGraph) :
  inPlaceOptimize g = (r, g') →
  ∃ more names,
    g' = mkGraph (store g) (adj g) (num_node g) (Sorted g) (layer_names g)
           (def_name_count g) (skip_non_trainable_layers g)
           (aliases g ++ more) (untracked g ++ names) ∧
    Forall2 (λ a u, name <$> store g !! alias_prev a = Some u) more names.
Proof.
  intros Hrun. change (records g g').
  revert Hrun. unfold inPlaceOptimize.
  apply (forM_step records); [apply records_refl|apply records_trans|].
  intros t s r1 s'. apply inPlaceOptimize_type_records.
Qed.

Lemma inPlaceOptimize_node_skip t n l s :
  t ∈ in_place_layers →
  store s !! layer n = Some l →
  type l ∉ in_place_layers ∨ activation_type l = ACT_SOFTMAX →
  inPlaceOptimize_node t n s = (Ret tt, s).
Proof.
  intros Ht Hl Hskip. unfold inPlaceOptimize_node.
  rewrite (bind_run _ _ _ _ _ (deref_run _ _ _ Hl)).
  destruct (bool_decide (type l = t)) eqn:Hty; [|done].
  apply bool_decide_eq_true in Hty. cbn [andb].
  destruct Hskip as [Hno|Hsoft]; [by rewrite Hty in Hno|].
  by rewrite bool_decide_eq_true_2.
Qed.

Lemma forM_skip {A} (body : A → M unit) l s :
  (∀ x, x ∈ l → body x s = (Ret tt, s)) → forM_ l body s = (Ret tt, s).
Proof.
  induction l as [|x l IH]; intros Hbody; [done|].
  cbn [forM_]. rewrite (bind_run _ _ _ _ _ (Hbody x ltac:(left))).
  apply IH. intros y Hy. apply Hbody. by right.
Qed.

(** X20.  When the pass has nothing to do: if every sorted node wraps a
    live layer that is neither an activation nor a batch-normalization
    layer, or whose activation kind is softmax, [inPlaceOptimize]
    returns and the graph is exactly as it was. *)
Theorem inPlaceOptimize_noop (g : NetworkGraph) :
  (∀ n, n ∈ Sorted g →
     ∃ l, store g !! layer n = Some l ∧
          (type l ∉ in_place_layers ∨ activation_type l = ACT_SOFTMAX)) →
  inPlaceOptimize g = (Ret tt, g).
Proof.
  intros Hall. unfold inPlaceOptimize. apply forM_skip.
  intros t Ht. unfold inPlaceOptimize_type.
  rewrite (bind_run get _ g g g eq_refl). apply forM_skip.
  intros n Hn. destruct (Hall n Hn) as (l & Hl & Hskip).
  by eapply inPlaceOptimize_node_skip.
Qed.

Lemma find_loc_elem outs nm :
  find_loc outs nm ≠ length outs → nm ∈ outs.
Proof.
  induction outs as [|o outs IH]; simpl; [done|].
  destruct (bool_decide (o = nm)) eqn:He.
  - apply bool_decide_eq_true in He as ->. intros _. by left.
  - intros Hne. right. apply IH. lia.
Qed.

(** X21.  What a normal return of the pass tells about the graph: every
    sorted activation or batch-normalization layer that is not softmax
    has exactly one input, that input resolves by name to a node, and
    the layer of that node lists the layer, under its exact name, among
    its outputs.  In every other case the pass throws. *)
Theorem inPlaceOptimize_returns
    (g g' : NetworkGraph) (n : LayerNode) (l : Layer) :
  inPlaceOptimize g = (Ret tt, g') →
  n ∈ Sorted g →
  store g !! layer n = Some l →
  type l ∈ in_place_layers →
  activation_type l ≠ ACT_SOFTMAX →
  ∃ inp pn pl,
    input_layers l = [inp] ∧
    getLayerNode_name g inp = Ret pn ∧
    store g !! layer pn = Some pl ∧
    name l ∈ output_layers pl.
Proof.
  intros Hrun Hn Hl Hty Hsoft. unfold inPlaceOptimize in Hrun.
  destruct (forM_elem records inPlaceOptimize_type _ records_refl
              records_trans inPlaceOptimize_type_records (type l) g g' Hty Hrun)
    as (s1 & s2 & Hg1 & Htype & _).
  apply records_pass_step in Hg1 as (Hst1 & Hadj1 & Hso1 & _).
  unfold inPlaceOptimize_type in Htype.
  rewrite (bind_run get _ s1 s1 s1 eq_refl) in Htype.
  rewrite Hso1 in Htype.
  destruct (forM_elem records _ _ records_refl records_trans
              (inPlaceOptimize_node_records (type l)) n s1 s2 Hn Htype)
    as (t1 & t2 & H1t & Hnode & _).
  apply records_pass_step in H1t as (Hstt & Hadjt & _ & _).
  revert Hnode.
  unfold inPlaceOptimize_node, bind, deref, get, lift, throw, undefined,
    modify, ret.
  assert (store t1 = store g) as Hst by congruence.
  assert (adj t1 = adj g) as Hadj by congruence.
  rewrite Hst, Hl.
  rewrite bool_decide_eq_true_2 by done.
  rewrite bool_decide_eq_false_2 by done. cbn [negb andb].
  destruct (length (input_layers l) =? 1) eqn:Hlen; cbn [negb]; [|done].
  destruct (input_layers l !! 0) as [inp|] eqn:Hinp; [|done].
  pose proof (single_input _ _ Hlen Hinp) as Hins.
  assert (getLayerNode_name t1 inp = getLayerNode_name g inp) as ->
    by (unfold getLayerNode_name; by rewrite Hst, Hadj).
  destruct (getLayerNode_name g inp) as [pn| | |] eqn:Hpn; try done.
  rewrite Hst.
  destruct (store g !! layer pn) as [pl|] eqn:Hpl; [|done].
  destruct (find_loc (output_layers pl) (name l) =? length (output_layers pl))
    eqn:Hloc; [done|].
  intros _. exists inp, pn, pl. split_and!; try done.
  apply find_loc_elem. by apply Nat.eqb_neq.
Qed.

(** ** The shape of the graph during realization *)

(** X22.  Whatever the outcome of [setGraphNode] on a fresh graph, be it
    success, an error status or an exception, the graph it leaves has
    one adjacency row per node, row [i] holds exactly the node with
    index [i], every node wraps a live layer object, and nothing has
    been sorted yet. *)
Theorem setGraphNode_shape
    (layers : list Layer) (loss_type : LossType) (names : gset string)
    (count skip : nat) (r : result status) (g : NetworkGraph) :
  setGraphNode (seq 0 (length layers)) loss_type
    (fresh_graph layers names count skip) = (r, g) →
  length (adj g) = num_node g ∧ Sorted g = [] ∧
  ∀ i row, adj g !! i = Some row →
    ∃ h, row = [mkNode h i] ∧ is_Some (store g !! h).
Proof.
  intros Hrun.
  pose proof (pres_setGraphNode _ _ _ _ _ Hrun
                (realized_fresh layers names count skip))
    as (Hlen & Hsorted & Hrows).
  split_and!; try done. intros i row Hrow.
  destruct (Hrows i row Hrow) as (h & -> & Hh). exists h.
  split; [done|]. by apply lookup_lt_is_Some.
Qed.

Lemma renamed_refl cname nm l : renamed cname nm l l.
Proof.
  split; [by destruct l|]. apply Forall2_same_length_lookup_2; [done|].
  intros i x y Hx Hy. left. congruence.
Qed.

Lemma renamed_trans cname nm l1 l2 l3 :
  renamed cname nm l1 l2 → renamed cname nm l2 l3 → renamed cname nm l1 l3.
Proof.
  intros [H12 F12] [H23 F23]. split.
  - rewrite H23 at 1. rewrite H12. done.
  - clear H12 H23. revert F23. generalize (input_layers l3).
    induction F12 as [|x y xs ys Hxy F12 IH]; intros zs F23.
    + inversion F23. constructor.
    + inversion F23 as [|? z ? zs' Hyz F23']; subst. constructor; [|auto].
      destruct Hxy as [->|[Hx ->]]; [done|].
      destruct Hyz as [->|[_ ->]]; right; done.
Qed.

Lemma replace_first_renamed cname nm ins ins' :
  replace_first cname nm ins = Some ins' →
  Forall2 (λ x y, y = x ∨ (istrequal x cname = true ∧ y = nm)) ins ins'.
Proof.
  revert ins'. induction ins as [|x ins IH]; intros ins'; simpl; [done|].
  destruct (istrequal x cname) eqn:He.
  - intros [= <-]. constructor; [by right|].
    apply Forall2_same_length_lookup_2; [done|].
    intros i a b Ha Hb. left. congruence.
  - destruct (replace_first cname nm ins) as [r|]; [|done]. simpl.
    intros [= <-]. constructor; [by left|]. by apply IH.
Qed.

Lemma updateNameInLayers_renamed cname nm :
  ∀ layers s,
    (∀ h, h ∈ layers → is_Some (store s !! h)) →
    ∃ s',
      updateNameInLayers layers cname nm s = (Ret tt, s') ∧
      s' = set_store (store s') s ∧
      length (store s') = length (store s) ∧
      (∀ h, h ∉ layers → store s' !! h = store s !! h) ∧
      (∀ h l, store s !! h = Some l →
         ∃ l', store s' !! h = Some l' ∧ renamed cname nm l l').
Proof.
  intros layers. induction layers as [|h0 layers IH]; intros s Hlive.
  - exists s. split_and!; try done; [by destruct s|].
    intros h l Hl. exists l. split; [done|]. apply renamed_refl.
  - destruct (Hlive h0) as [l0 Hl0]; [left|].
    cbn [updateNameInLayers].
    rewrite (bind_run _ _ _ _ _ (deref_run _ _ _ Hl0)).
    destruct (replace_first cname nm (input_layers l0)) as [ins|] eqn:Hrep.
    + rewrite (update_run _ _ _ _ Hl0).
      pose proof (lookup_lt_Some _ _ _ Hl0) as Hlt.
      eexists. split; [reflexivity|]. cbn [store set_store].
      split_and!; try done.
      * apply length_insert.
      * intros h Hh. apply not_elem_of_cons in Hh as [Hne _].
        by rewrite list_lookup_insert_ne.
      * intros h l Hl. destruct (decide (h = h0)) as [->|Hne].
        -- rewrite list_lookup_insert_eq by done. eexists. split; [done|].
           assert (Some l = Some l0) as [= ->]
             by (etrans; [symmetry; exact Hl|exact Hl0]).
           split; [done|].
           by apply replace_first_renamed.
        -- rewrite list_lookup_insert_ne by done. exists l.
           split; [done|]. apply renamed_refl.
    + destruct (IH s) as (s' & Hrun & Hs' & Hlen & Hout & Hin).
      { intros h Hh. apply Hlive. by right. }
      exists s'. split_and!; try done.
      intros h Hh. apply not_elem_of_cons in Hh as [_ Hh]. by apply Hout.
Qed.

Lemma renamed_name cname nm l l' : renamed cname nm l l' → name l' = name l.
Proof. intros [-> _]. done. Qed.

Lemma realizeMultiOutputType_loop g current cur layers nm new :
  new = length (store g) →
  store g !! current = Some cur →
  (∀ h, h ∈ layers → h < length (store g)) →
  ∀ outs done s,
    length (store s) = S new →
    store s !! new
    = Some (mkLayer nm LayerType.output [name cur] done 1 (num_outputs cur)
              [0] [0] ACT_NONE false true LOSS_UNKNOWN) →
    (∀ h l, store g !! h = Some l →
       ∃ l', store s !! h = Some l' ∧ renamed (name cur) nm l l') →
    ∃ s',
      forM_ outs
        (λ out,
           update new (λ l, set_output_layers (output_layers l ++ [out]) l) ;;
           c <- deref current ;;
           n <- deref new ;;
           updateNameInLayers layers (name c) (name n)) s = (Ret tt, s') ∧
      s' = set_store (store s') s ∧
      length (store s') = S new ∧
      store s' !! new
      = Some (mkLayer nm LayerType.output [name cur] (done ++ outs) 1
                (num_outputs cur) [0] [0] ACT_NONE false true LOSS_UNKNOWN) ∧
      (∀ h l, store g !! h = Some l →
         ∃ l', store s' !! h = Some l' ∧ renamed (name cur) nm l l').
Proof.
  intros Hnew Hcur Hlayers outs.
  pose proof (lookup_lt_Some _ _ _ Hcur) as Hltc.
  induction outs as [|out outs IH]; intros done s Hlen Hnewl Hrel.
  - exists s. rewrite app_nil_r. split_and!; try done. by destruct s.
  - cbn [forM_]. rewrite bind_assoc.
    rewrite (bind_run _ _ _ _ _ (update_run _ _ _ _ Hnewl)).
    cbn [output_layers set_output_layers].
    set (newl := set_output_layers _ _).
    set (s1 := set_store (<[new := newl]> (store s)) s).
    destruct (Hrel current cur Hcur) as (cur1 & Hcur1 & Hren1).
    assert (store s1 !! current = Some cur1) as Hc1.
    { subst s1. cbn [store set_store].
      rewrite list_lookup_insert_ne by lia. done. }
    assert (store s1 !! new = Some newl) as Hn1.
    { subst s1. cbn [store set_store].
      rewrite list_lookup_insert_eq by lia. done. }
    rewrite bind_assoc. rewrite (bind_run _ _ _ _ _ (deref_run _ _ _ Hc1)).
    rewrite bind_assoc. rewrite (bind_run _ _ _ _ _ (deref_run _ _ _ Hn1)).
    rewrite (renamed_name _ _ _ _ Hren1).
    change (name newl) with nm.
    destruct (updateNameInLayers_renamed (name cur) nm layers s1)
      as (s2 & Hrun2 & Hs2 & Hlen2 & Hout2 & Hin2).
    { intros h Hh. apply lookup_lt_is_Some. subst s1. cbn [store set_store].
      rewrite length_insert. specialize (Hlayers h Hh). lia. }
    rewrite (bind_run _ _ _ _ _ Hrun2).
    assert (length (store s1) = S new) as Hlen1
      by (subst s1; cbn [store set_store]; by rewrite length_insert).
    destruct (IH (done ++ [out]) s2) as (s' & Hrun & Hs' & Hlen' & Hnew' & Hrel').
    + congruence.
    + rewrite Hout2; [done|]. intros Hin. specialize (Hlayers _ Hin). lia.
    + intros h l Hl. destruct (Hrel h l Hl) as (l1 & Hl1 & Hr1).
      pose proof (lookup_lt_Some _ _ _ Hl) as Hlth.
      destruct (Hin2 h l1) as (l2 & Hl2 & Hr2).
      { subst s1. cbn [store set_store].
        rewrite list_lookup_insert_ne by lia. done. }
      exists l2. split; [done|]. by eapply renamed_trans.
    + exists s'. rewrite <- app_assoc in Hnew'. split_and!; try done.
      rewrite Hs'. rewrite Hs2. done.
Qed.

(** X23.  [realizeMultiOutputType] on a live layer, with [layers] a list
    of existing layer objects.  With one declared output nothing
    changes.  Otherwise the call succeeds and appends one node: a new
    output layer, named after the layer, that reads the layer and
    takes over all its output names and its output count; the layer is
    left with one output, the new node.  In the layer objects that
    existed the only other change is that inputs naming the layer may
    now name the new node. *)
Theorem realizeMultiOutputType_appends
    (g : NetworkGraph) (current : handle) (layers : list handle) (cur : Layer) :
  store g !! current = Some cur →
  (∀ h, h ∈ layers → h < length (store g)) →
  (num_outputs cur = 1 →
     realizeMultiOutputType current layers g = (Ret ML_ERROR_NONE, g)) ∧
  (num_outputs cur ≠ 1 →
     ∃ (k : nat) g',
       let nm := (name cur +:+ LayerType.output) +:+ pretty k in
       realizeMultiOutputType current layers g = (Ret ML_ERROR_NONE, g') ∧
       g' = mkGraph (store g')
              (adj g ++ [[mkNode (length (store g)) (num_node g)]])
              (S (num_node g)) (Sorted g) (layer_names g) (S k)
              (skip_non_trainable_layers g) (aliases g) (untracked g) ∧
       length (store g') = S (length (store g)) ∧
       store g' !! length (store g)
       = Some (mkLayer nm LayerType.output [name cur] (output_layers cur) 1
                 (num_outputs cur) [0] [0] ACT_NONE false true LOSS_UNKNOWN) ∧
       ∀ h l, store g !! h = Some l →
         ∃ l', store g' !! h = Some l' ∧
           renamed (name cur) nm
             (if decide (h = current)
              then set_output_layers [nm] (set_num_outputs 1 l) else l) l').
Proof.
  intros Hcur Hlayers. split.
  { intros Hone. unfold realizeMultiOutputType.
    rewrite (bind_run _ _ _ _ _ (deref_run _ _ _ Hcur)). by rewrite Hone. }
  intros Hnum.
  pose proof (lookup_lt_Some _ _ _ Hcur) as Hlt.
  destruct (ensureName_run (length (store g)) (name cur) false
              (set_store (store g ++ [createLayer LayerType.output]) g)
              (createLayer LayerType.output))
    as (nm & c0 & Hrun & Hfresh & _ & _ & _ & Hloop); [solve_lookup|].
  destruct Hloop as (k & -> & -> & _ & _); [by left|by left|].
  cbn [createLayer name type] in Hrun, Hfresh.
  rewrite bool_decide_eq_true_2 in Hrun, Hfresh by done.
  gsimpl_in Hfresh.
  exists k. cbn zeta.
  set (nm := (name cur +:+ LayerType.output) +:+ pretty k) in *.
  gsimpl_in Hrun. rewrite insert_snoc in Hrun by done.
  set (newl := mkLayer nm LayerType.output [name cur] (output_layers cur) 1
                 (num_outputs cur) [0] [0] ACT_NONE false true LOSS_UNKNOWN).
  set (s0 := mkGraph
               (store g
                ++ [mkLayer nm LayerType.output [name cur] [] 1
                      (num_outputs cur) [0] [0] ACT_NONE false true
                      LOSS_UNKNOWN])
               (adj g) (num_node g) (Sorted g) (layer_names g) (S k)
               (skip_non_trainable_layers g) (aliases g) (untracked g)).
  destruct (realizeMultiOutputType_loop g current cur layers nm
              (length (store g)) eq_refl Hcur Hlayers
              (output_layers cur) [] s0)
    as (s1 & Hrun1 & Hs1 & Hlen1 & Hnew1 & Hrel1).
  { subst s0. gsimpl. solve_len. }
  { subst s0. gsimpl. by rewrite lookup_snoc. }
  { intros h l Hl. exists l. split; [|apply renamed_refl].
    subst s0. gsimpl. pose proof (lookup_lt_Some _ _ _ Hl).
    by rewrite lookup_snoc_lt. }
  cbn [app] in Hnew1. fold newl in Hnew1.
  destruct (Hrel1 current cur Hcur) as (cur1 & Hcur1 & Hren1).
  set (curf := set_output_layers [nm] (set_num_outputs 1 cur1)).
  set (s2 := set_store (<[current := curf]> (store s1)) s1).
  destruct (ensureName_run (length (store g)) "" false s2 newl)
    as (nm' & c' & Hrun2 & _ & _ & Hkeep & _).
  { subst s2. cbn [store set_store]. rewrite list_lookup_insert_ne by lia.
    done. }
  destruct Hkeep as [-> ->].
  { apply string_app_nonempty_l, string_app_nonempty_r. done. }
  { done. }
  { subst s2. rewrite Hs1. subst s0. gsimpl. done. }
  eexists. split.
  { unfold realizeMultiOutputType.
    rewrite (bind_run _ _ _ _ _ (deref_run _ _ _ Hcur)).
    apply Nat.eqb_neq in Hnum. rewrite Hnum. mstep.
    rewrite (bind_run _ _ _ _ _ Hrun). clear Hrun.
    do 5 mstep. fold s0.
    rewrite (bind_run _ _ _ _ _ Hrun1).
    rewrite (bind_run _ _ _ _ _ (update_run _ _ _ _ Hcur1)).
    unfold bind at 1. unfold update at 1. cbn [store set_store].
    rewrite list_lookup_insert_eq by lia. rewrite list_insert_insert_eq.
    unfold bind at 1. unfold deref at 1. cbn [store set_store].
    rewrite list_lookup_insert_ne by lia. rewrite Hnew1.
    unfold bind at 1. unfold update at 1. cbn [store set_store].
    rewrite list_lookup_insert_eq by lia. rewrite list_insert_insert_eq.
    cbn [name output_layers set_output_layers set_num_outputs app newl].
    change (set_output_layers [nm]
              (set_output_layers [] (set_num_outputs 1 cur1))) with curf.
    fold s2. unfold addLayerNode.
    rewrite bind_assoc.
    rewrite (bind_run _ _ _ _ _ Hrun2).
    do 4 mstep. reflexivity. }
  subst s2. rewrite Hs1. subst s0. gsimpl.
  rewrite (list_insert_id (<[current := curf]> (store s1)) (length (store g)))
    by (rewrite list_lookup_insert_ne by lia; done).
  split; [done|]. split; [by rewrite length_insert|].
  split; [by rewrite list_lookup_insert_ne by lia|].
  intros h l Hl. pose proof (lookup_lt_Some _ _ _ Hl) as Hlth.
  destruct (decide (h = current)) as [->|Hne].
  - rewrite list_lookup_insert_eq by lia. exists curf. split; [done|].
    assert (l = cur) as -> by congruence.
    destruct Hren1 as [Heq Hall]. subst curf. rewrite Heq. gsimpl.
    split; [done|]. done.
  - rewrite list_lookup_insert_ne by done. by apply Hrel1.
Qed.

(** * The further properties on concrete graphs *)

Lemma resolved_mutual :
  resolved_graph mutual LOSS_NONE ∅ 0 0 = (Ret ML_ERROR_NONE, mutual_graph).
Proof.
  unfold mutual_graph.
  assert ((resolved_graph mutual LOSS_NONE ∅ 0 0).1 = Ret ML_ERROR_NONE)
    as Hst by (vm_compute; reflexivity).
  destruct (resolved_graph mutual LOSS_NONE ∅ 0 0) as [r g].
  cbn [fst snd] in *. by rewrite Hst.
Qed.

Lemma ensureName_idempotent_witness :
  let g1 := (ensureName 0 "x" false
               (fresh_graph [createLayer LayerType.addition] ∅ 0 0)).2 in
  ensureName 0 "y" false g1 = (Ret tt, g1).
Proof.
  intros g1.
  apply (ensureName_idempotent 0 "x" "y" false
           (fresh_graph [createLayer LayerType.addition] ∅ 0 0)).
  subst g1.
  assert ((ensureName 0 "x" false
             (fresh_graph [createLayer LayerType.addition] ∅ 0 0)).1 = Ret tt)
    as Hst by (vm_compute; reflexivity).
  destruct (ensureName 0 "x" false _) as [r g].
  cbn [fst snd] in *. by rewrite Hst.
Defined.

Lemma getLayerNode_bounds_witness :
  (∃ n, getLayerNode relu_graph 1 = Ret n ∧ index n = 1) ∧
  getLayerNode relu_graph 2 = Throw (invalid_argument "Cannot find Layer").
Proof.
  destruct (getLayerNode_bounds relu_graph) as [Hin Hout].
  { apply wf_nodesb_spec. vm_compute. reflexivity. }
  split.
  - destruct (Hin 1) as (n & Hn & _ & Hidx); [vm_compute; lia|].
    exists n. split; [exact Hn|exact Hidx].
  - apply Hout. vm_compute. lia.
Defined.

Lemma addLayerNode_getLayerNode_witness :
  ∃ g', addLayerNode 0 (fresh_graph [createLayer "conv2d"] ∅ 0 0)
        = (Ret tt, g') ∧
        num_node g' = 1 ∧ getLayerNode g' 0 = Ret (mkNode 0 0).
Proof.
  destruct (addLayerNode_getLayerNode
              (fresh_graph [createLayer "conv2d"] ∅ 0 0) 0
              (createLayer "conv2d"))
    as (g' & Hrun & _ & Hnum & Hget & _).
  { apply wf_nodesb_spec. vm_compute. reflexivity. }
  { reflexivity. }
  exists g'. split; [exact Hrun|]. split; [exact Hnum|exact Hget].
Defined.

Lemma addEdge_bounds_witness :
  addEdge 2 (mkNode 1 1) relu_graph
  = (Throw (invalid_argument "Exceed total number of layer"), relu_graph) ∧
  addEdge 0 (mkNode 1 1) (fresh_graph [] ∅ 0 0)
  = (Undefined, fresh_graph [] ∅ 0 0).
Proof.
  split.
  - destruct (addEdge_bounds relu_graph 2 (mkNode 1 1)) as (_ & Hthrow & _).
    { vm_compute. reflexivity. }
    apply Hthrow; vm_compute; lia.
  - destruct (addEdge_bounds (fresh_graph [] ∅ 0 0) 0 (mkNode 1 1))
      as (Hundef & _).
    { reflexivity. }
    by apply Hundef.
Defined.

Lemma wf_store_relu_graph : wf_store relu_graph.
Proof.
  unfold wf_store.
  change (nodes relu_graph) with [mkNode 0 0; mkNode 1 1].
  repeat constructor; by eexists.
Qed.

Lemma getLayerNode_name_first_witness :
  ∃ n l,
    getLayerNode_name relu_graph "ACT" = Ret n ∧
    store relu_graph !! layer n = Some l ∧
    istrequal (name l) "ACT" = true.
Proof.
  destruct (getLayerNode_name_first relu_graph "ACT")
    as [(i & n & l & Hrun & _ & Hl & He & _)|[Hrun _]].
  - apply wf_nodesb_spec. vm_compute. reflexivity.
  - exact wf_store_relu_graph.
  - exists n, l. split; [exact Hrun|]. split; [exact Hl|exact He].
  - vm_compute in Hrun. discriminate Hrun.
Defined.

Lemma updateNameInLayers_first_match_witness :
  (updateNameInLayers [0; 1] "FC" "z" relu_graph).1 = Ret tt.
Proof.
  destruct (updateNameInLayers_first_match relu_graph [0; 1] "FC" "z")
    as [[Hrun _]|(k & h & l & pre & x & post & _ & _ & _ & _ & _ & _ & Hrun)].
  - intros h Hh. apply list_elem_of_In in Hh.
    destruct Hh as [<-|[<-|[]]]; by eexists.
  - by rewrite Hrun.
  - by rewrite Hrun.
Defined.

Lemma topologicalSort_permutation_witness :
  ∃ g', topologicalSort 2 mutual_graph = (Ret tt, g') ∧
        index <$> Sorted g' ≡ₚ [0; 1].
Proof.
  destruct (topologicalSort_permutation mutual LOSS_NONE ∅ 0 0 2 mutual_graph)
    as (g' & Hrun & _ & Hperm & _).
  - exact resolved_mutual.
  - vm_compute. lia.
  - exists g'. split; [exact Hrun|exact Hperm].
Defined.

Lemma getSortedLayerNode_after_sort_witness :
  ∃ g', topologicalSort 2 mutual_graph = (Ret tt, g') ∧
        getSortedLayerNode g' 2
        = Throw (invalid_argument "Cannot find Layer") ∧
        ∃ n, getLayerNode mutual_graph 1 = Ret n ∧
             getSortedLayerNode g' 1 = Ret n.
Proof.
  destruct (getSortedLayerNode_after_sort mutual LOSS_NONE ∅ 0 0 2
              mutual_graph) as (g' & Hrun & Hin & Hout).
  - exact resolved_mutual.
  - vm_compute. lia.
  - exists g'. split; [exact Hrun|]. split.
    + apply Hout. vm_compute. lia.
    + apply Hin. vm_compute. lia.
Defined.

Lemma topologicalSort_twice_witness :
  ∃ g1 g2, topologicalSort 2 mutual_graph = (Ret tt, g1) ∧
           topologicalSort 2 g1 = (Ret tt, g2) ∧
           Sorted g2 = Sorted g1 ++ Sorted g1.
Proof.
  apply (topologicalSort_twice mutual LOSS_NONE ∅ 0 0).
  - exact resolved_mutual.
  - vm_compute. lia.
Defined.

Lemma realizeFlattenType_appends_witness :
  (realizeFlattenType 0 [0; 1] relu_graph).1 = Ret ML_ERROR_NONE ∧
  num_node (realizeFlattenType 0 [0; 1] relu_graph).2 = 3 ∧
  realizeFlattenType 0 [0; 1] (fresh_graph relu_chain ∅ 0 0)
  = (Ret ML_ERROR_INVALID_PARAMETER, fresh_graph relu_chain ∅ 0 0).
Proof.
  destruct (realizeFlattenType_appends relu_graph 0 [0; 1]
              (mkLayer "fc" "fully_connected" ["__data__"] ["act"] 1 1 [4]
                 [0] ACT_NONE false true LOSS_UNKNOWN)) as [_ Happ].
  { vm_compute. reflexivity. }
  destruct (realizeFlattenType_appends (fresh_graph relu_chain ∅ 0 0) 0 [0; 1]
              (declared "fc" "fully_connected" [] ACT_NONE 4)) as [Hrej _].
  { reflexivity. }
  destruct Happ as [k Hrun]; [vm_compute; lia|discriminate|].
  cbn zeta in Hrun. rewrite Hrun. cbn [fst snd num_node].
  split; [reflexivity|]. split; [vm_compute; reflexivity|].
  apply Hrej. left. reflexivity.
Defined.

Lemma realizeActivationType_rejects_witness :
  realizeActivationType 1 [0; 1] relu_graph
  = (Ret ML_ERROR_INVALID_PARAMETER, relu_graph) ∧
  realizeActivationType 0 [0; 1] relu_graph = (Ret ML_ERROR_NONE, relu_graph).
Proof.
  destruct (realizeActivationType_rejects relu_graph 1 [0; 1]
              (mkLayer "act" "activation" ["fc"] ["__exit__"] 1 1 [0] [0]
                 ACT_RELU false true LOSS_UNKNOWN)) as [_ Hrej].
  { vm_compute. reflexivity. }
  destruct (realizeActivationType_rejects relu_graph 0 [0; 1]
              (mkLayer "fc" "fully_connected" ["__data__"] ["act"] 1 1 [4]
                 [0] ACT_NONE false true LOSS_UNKNOWN)) as [Hnone _].
  { vm_compute. reflexivity. }
  split.
  - apply Hrej; [discriminate|]. right. by left.
  - apply Hnone. reflexivity.
Defined.

Lemma realizeActivationType_appends_witness :
  (realizeActivationType 0 [0] one_output).1 = Ret ML_ERROR_NONE.
Proof.
  destruct (realizeActivationType_appends one_output 0 [0]
              (mkLayer "fc" "fully_connected" ["__data__"] ["out"] 1 1 [4]
                 [0] ACT_RELU false true LOSS_UNKNOWN) "out" [])
    as [k Hrun];
    [reflexivity|discriminate|discriminate|discriminate|simpl; lia
    |reflexivity|reflexivity|].
  cbn zeta in Hrun. rewrite Hrun.
  match goal with |- (bind (updateNameInLayers ?ls ?c ?n) _ ?s).1 = _ =>
    destruct (updateNameInLayers_renamed c n ls s) as (s' & Hupd & _)
  end.
  { intros h Hh. apply list_elem_of_singleton in Hh as ->.
    apply lookup_lt_is_Some. cbn [store one_output].
    rewrite length_app, length_insert. simpl. lia. }
  rewrite (bind_run _ _ _ _ _ Hupd). reflexivity.
Defined.

Lemma addLossLayer_rejects_witness :
  addLossLayer LOSS_MSE (fresh_graph [] ∅ 0 0)
  = (Ret ML_ERROR_INVALID_PARAMETER, fresh_graph [] ∅ 0 0) ∧
  addLossLayer LOSS_ENTROPY one_output
  = (Ret ML_ERROR_NOT_SUPPORTED, one_output).
Proof.
  split.
  - by apply (addLossLayer_rejects (fresh_graph [] ∅ 0 0) LOSS_MSE
                (mkNode 0 0) (createLayer "")).
  - apply (addLossLayer_rejects one_output LOSS_ENTROPY (mkNode 0 0)
             (mkLayer "fc" "fully_connected" ["__data__"] ["out"] 1 1 [4]
                [0] ACT_RELU false true LOSS_UNKNOWN)).
    + apply wf_nodesb_spec. vm_compute. reflexivity.
    + simpl. lia.
    + reflexivity.
    + reflexivity.
    + discriminate.
Defined.

Lemma addLossLayer_plain_witness :
  (addLossLayer LOSS_MSE relu_graph).1 = Ret ML_ERROR_NONE ∧
  num_node (addLossLayer LOSS_MSE relu_graph).2 = 3.
Proof.
  destruct (addLossLayer_plain relu_graph LOSS_MSE (mkNode 1 1)
              (mkLayer "act" "activation" ["fc"] ["__exit__"] 1 1 [0] [0]
                 ACT_RELU false true LOSS_UNKNOWN)) as [c' Hrun].
  - apply wf_nodesb_spec. vm_compute. reflexivity.
  - vm_compute. lia.
  - vm_compute. reflexivity.
  - vm_compute. reflexivity.
  - left. reflexivity.
  - rewrite Hrun. cbn [fst snd num_node].
    split; [reflexivity|vm_compute; reflexivity].
Defined.

Lemma setGraphNode_source_input_witness :
  setGraphNode_source 0 (fresh_graph [declared "in" "input" [] ACT_NONE 0] ∅ 0 0)
  = (Throw (invalid_argument "Input Dimension must be set"),
     fresh_graph [declared "in" "input" [] ACT_NONE 0] ∅ 0 0).
Proof.
  destruct (setGraphNode_source_input
              (fresh_graph [declared "in" "input" [] ACT_NONE 0] ∅ 0 0) 0
              (declared "in" "input" [] ACT_NONE 0)) as (_ & Hthrow & _).
  { reflexivity. }
  apply Hthrow; [reflexivity|]. by left.
Defined.

Lemma setOutputLayers_outputs_witness :
  ∃ r g' l0 l1,
    setOutputLayers [0; 1] (fresh_graph relu_chain ∅ 0 0) = (r, g') ∧
    store g' !! 0 = Some l0 ∧ output_layers l0 = ["act"] ∧
    store g' !! 1 = Some l1 ∧ output_layers l1 = ["__exit__"].
Proof.
  destruct (setOutputLayers_outputs (fresh_graph relu_chain ∅ 0 0) [0; 1])
    as (r & g' & Hrun & _ & _ & Hin & _).
  - apply NoDup_cons. split; [|apply NoDup_singleton].
    intros Hin. apply list_elem_of_singleton in Hin. discriminate Hin.
  - discriminate.
  - intros h Hh. apply list_elem_of_In in Hh.
    destruct Hh as [<-|[<-|[]]]; by eexists.
  - destruct (Hin 0 _ ltac:(left) eq_refl) as (l0 & Hl0 & _ & _ & Ho0).
    destruct (Hin 1 _ ltac:(right; left) eq_refl) as (l1 & Hl1 & _ & _ & Ho1).
    vm_compute in Ho0. vm_compute in Ho1.
    exists r, g', l0, l1.
    split; [exact Hrun|]. split; [exact Hl0|]. split; [exact Ho0|].
    split; [exact Hl1|exact Ho1].
Defined.

Lemma realized_out_of_order : realized (realized_graph out_of_order).
Proof.
  unfold realized_graph.
  eapply pres_setGraphNode; [apply surjective_pairing|apply realized_fresh].
Qed.

Lemma setEdge_edges_witness :
  feeds (realized_graph out_of_order) 2 1.
Proof.
  destruct (setEdge_edges (realized_graph out_of_order)
              (setEdge (realized_graph out_of_order)).1
              (setEdge (realized_graph out_of_order)).2) as [Hsound _].
  - exact realized_out_of_order.
  - apply surjective_pairing.
  - apply Hsound. exists [mkNode 2 2; mkNode 1 1].
    split; [vm_compute; reflexivity|]. simpl. left.
Defined.

Lemma inPlaceOptimize_untracked_witness :
  let g := (sorted_graph (bn_chain ACT_RELU) LOSS_NONE).2 in
  ∃ more names,
    aliases (inPlaceOptimize g).2 = aliases g ++ more ∧
    untracked (inPlaceOptimize g).2 = untracked g ++ names ∧
    Forall2 (λ a u, name <$> store g !! alias_prev a = Some u) more names.
Proof.
  intros g.
  destruct (inPlaceOptimize_untracked g (inPlaceOptimize g).1
              (inPlaceOptimize g).2) as (more & names & Hg' & Hall).
  - apply surjective_pairing.
  - exists more, names. rewrite Hg'. cbn [aliases untracked].
    split; [reflexivity|]. split; [reflexivity|exact Hall].
Defined.

Lemma inPlaceOptimize_noop_witness :
  inPlaceOptimize frozen_then_trainable = (Ret tt, frozen_then_trainable).
Proof.
  apply inPlaceOptimize_noop.
  intros n Hn. apply list_elem_of_In in Hn.
  destruct Hn as [<-|[<-|[]]]; eexists; (split; [reflexivity|]); left;
    intros Hin; apply list_elem_of_In in Hin;
    destruct Hin as [Hin|[Hin|[]]]; discriminate Hin.
Defined.

Lemma inPlaceOptimize_returns_witness :
  let g := (sorted_graph (bn_chain ACT_RELU) LOSS_NONE).2 in
  ∃ inp pn pl,
    getLayerNode_name g inp = Ret pn ∧
    store g !! layer pn = Some pl ∧
    "bn" ∈ output_layers pl.
Proof.
  intros g.
  destruct (inPlaceOptimize_returns g (inPlaceOptimize g).2 (mkNode 2 2)
              (mkLayer "bn" "batch_normalization" ["conv"] ["bnactivation0"]
                 1 1 [0] [0] ACT_RELU false true LOSS_UNKNOWN))
    as (inp & pn & pl & _ & Hpn & Hpl & Hout).
  - assert ((inPlaceOptimize g).1 = Ret tt) as Hst
      by (vm_compute; reflexivity).
    destruct (inPlaceOptimize g) as [r g']. cbn [fst snd] in *.
    by rewrite Hst.
  - apply list_elem_of_In. vm_compute. tauto.
  - vm_compute. reflexivity.
  - right. by left.
  - discriminate.
  - exists inp, pn, pl. split; [exact Hpn|]. split; [exact Hpl|exact Hout].
Defined.

Lemma setGraphNode_shape_witness :
  let g := (setGraphNode (seq 0 (length out_of_order)) LOSS_NONE
              (fresh_graph out_of_order ∅ 0 0)).2 in
  length (adj g) = num_node g ∧ Sorted g = [].
Proof.
  intros g.
  destruct (setGraphNode_shape out_of_order LOSS_NONE ∅ 0 0
              (setGraphNode (seq 0 (length out_of_order)) LOSS_NONE
                 (fresh_graph out_of_order ∅ 0 0)).1 g) as (Hlen & Hso & _).
  - apply surjective_pairing.
  - split; [exact Hlen|exact Hso].
Defined.

Lemma realizeMultiOutputType_appends_witness :
  ∃ (k : nat) g',
    realizeMultiOutputType 0 [0] two_outputs = (Ret ML_ERROR_NONE, g') ∧
    store g' !! 1
    = Some (mkLayer (("fc" +:+ "output") +:+ pretty k) "output" ["fc"]
              ["p"; "q"] 1 2 [0] [0] ACT_NONE false true LOSS_UNKNOWN).
Proof.
  destruct (realizeMultiOutputType_appends two_outputs 0 [0]
              (mkLayer "fc" "fully_connected" ["__data__"] ["p"; "q"] 1 2 [4]
                 [0; 0] ACT_RELU false true LOSS_UNKNOWN)) as [_ Happ].
  - reflexivity.
  - intros h Hh. apply list_elem_of_singleton in Hh as ->. simpl. lia.
  - destruct Happ as (k & g' & Hrun & _ & _ & Hnew & _); [simpl; lia|].
    exists k, g'. split; [exact Hrun|exact Hnew].
Defined.
